(** * The HTTP firmware download client (dfu_client), embedded in Rocq

    Source: [subsys/net/lib/dfu_client/src/http_dfu_client.c] and
    [include/dfu_client.h].

    The C code is translated function by function.  The object a
    [struct dfu_client_object *] points to is a record that every operation
    takes and gives back; the sockets, the resolver, [errno] and the
    application behind the callback pointer make up a [world] that is threaded
    through every call and that keeps a log of everything the engine does to
    it.

    Conventions.
    - A C [int] is an integer of [Z]; sums and differences are wrapped to 32
      bits, two's complement.
    - A buffer is the list of its bytes, a pointer into [resp_buf] the offset
      there; [host] and [resource] are [None] for a null pointer; the callback
      is the address it holds, 0 for [NULL].
    - The Kconfig values are the fields of a [dfu_config].
    - The socket calls and the libc functions are not part of the sources:
      they are given here with the meaning the C library and the socket
      interface give them.
    - The application reads the object it is handed and does not write it.

    What has no counterpart here: the guard [dfu == NULL] (an operation is
    given the object, not a pointer to it), the [LOG_*] statements, and the
    [atoi] of the range start in [dfu_client_process], whose value is only
    logged. *)

From Stdlib Require Import ZArith Lia List String Ascii Bool.
From stdpp Require Import base option list gmap.
Import ListNotations.

Local Open Scope Z_scope.

(** ** C integers *)

Module Int.

Definition INT_MAX : Z := 2147483647.
Definition INT_MIN : Z := -2147483648.

(** The value of a mathematical integer once stored in an [int]. *)
Definition wrap (z : Z) : Z := (z + 2147483648) mod 4294967296 - 2147483648.

Definition add (a b : Z) : Z := wrap (a + b).
Definition sub (a b : Z) : Z := wrap (a - b).

Definition in_range (z : Z) : Prop := INT_MIN <= z <= INT_MAX.

(** A [u32_t] argument made from an [int]. *)
Definition to_u32 (z : Z) : Z := z mod 4294967296.

End Int.

(** ** C strings and the few libc functions the client calls

    A buffer is the list of its bytes.  A C string inside it ends at the first
    NUL; a scan that reaches the end of the list stops there (in C it would
    run into whatever follows the array). *)

Definition bytes := list ascii.

Definition NUL : ascii := Ascii.zero.
Definition CR : ascii := "013"%char.
Definition LF : ascii := "010"%char.
Definition CRLF : bytes := [CR; LF].

Definition lit (s : string) : bytes := list_ascii_of_string s.

(** The characters of a C string given as a Rocq string: those before its
    first NUL. *)
Fixpoint c_str (s : bytes) : bytes :=
  match s with
  | [] => []
  | c :: s' => if Ascii.eqb c NUL then [] else c :: c_str s'
  end.

(** [memset(buf, 0, n)] over a whole buffer of [n] bytes. *)
Definition zeroed (n : Z) : bytes := repeat NUL (Z.to_nat n).

(** Storing [data] at the start of [buf]. *)
Definition store (data buf : bytes) : bytes := data ++ drop (length data) buf.

(** [needle] is found at the very start of [h]. *)
Fixpoint starts_with (needle h : bytes) : bool :=
  match needle, h with
  | [], _ => true
  | _ :: _, [] => false
  | c :: needle', x :: h' => Ascii.eqb c x && starts_with needle' h'
  end.

(** [strstr(h, needle)]: the offset of the first occurrence of [needle] in the
    C string [h], [None] for a null result.  No needle of the client holds a
    NUL, so a match never runs across the end of the string.  The scan also
    ends with the list: where the engine scans a [resp_buf] that holds no
    NUL and no occurrence, the source reads on behind the buffer, which is
    not modelled. *)
Fixpoint strstr (h needle : bytes) : option nat :=
  if starts_with needle h then Some O
  else match h with
       | [] => None
       | x :: h' => if Ascii.eqb x NUL then None else S <$> strstr h' needle
       end.

Definition isspace (c : ascii) : bool :=
  let n := nat_of_ascii c in
  (n =? 32)%nat || ((9 <=? n)%nat && (n <=? 13)%nat).

Definition digit_of (c : ascii) : option Z :=
  let n := Z.of_nat (nat_of_ascii c) in
  if (48 <=? n) && (n <=? 57) then Some (n - 48) else None.

Fixpoint skip_space (s : bytes) : bytes :=
  match s with
  | c :: s' => if isspace c then skip_space s' else s
  | [] => []
  end.

Fixpoint atoi_digits (acc : Z) (s : bytes) : Z :=
  match s with
  | c :: s' =>
      match digit_of c with
      | Some d => atoi_digits (10 * acc + d) s'
      | None => acc
      end
  | [] => acc
  end.

(** [atoi]: white space, an optional sign, then decimal digits up to the first
    character that is not one; the value is stored in an [int]. *)
Definition atoi (s : bytes) : Z :=
  match skip_space s with
  | "-"%char :: r => Int.wrap (- atoi_digits 0 r)
  | "+"%char :: r => Int.wrap (atoi_digits 0 r)
  | r => Int.wrap (atoi_digits 0 r)
  end.

(** [%d] of [printf]. *)
Definition digit_char (d : Z) : ascii := ascii_of_nat (Z.to_nat (48 + d)).

Fixpoint decimal_digits (fuel : nat) (n : Z) (acc : bytes) : bytes :=
  match fuel with
  | O => acc
  | S fuel' =>
      let acc' := digit_char (n mod 10) :: acc in
      if n <? 10 then acc' else decimal_digits fuel' (n / 10) acc'
  end.

Definition decimal (n : Z) : bytes :=
  if n <? 0 then "-"%char :: decimal_digits 11 (- n) []
  else decimal_digits 11 n [].

(** [snprintf(buf, size, ...)] where the format expands to [formatted]: at
    most [size - 1] characters and a NUL are stored, and the result is the
    length of the whole expansion, stored or not (negative when that length
    is no [int]). *)
Definition snprintf (buf : bytes) (size : Z) (formatted : bytes) : Z * bytes :=
  let n := Z.of_nat (length formatted) in
  if Int.INT_MAX <? n then (-1, buf)
  else if 0 <? size
       then (n, store (take (Z.to_nat (size - 1)) formatted ++ [NUL]) buf)
       else (n, buf).

(** [htons] on the little-endian target. *)
Definition htons (x : Z) : Z :=
  Z.lor (Z.shiftl (Z.land x 255) 8) (Z.land (Z.shiftr x 8) 255).

(** ** Constants of the platform headers *)

Definition EBADF : Z := 9.
Definition EAGAIN : Z := 11.
Definition EFAULT : Z := 14.
Definition ECONNRESET : Z := 104.
Definition ENOTCONN : Z := 128.

Definition AF_INET : Z := 1.
Definition AF_INET6 : Z := 2.
Definition IPPROTO_TCP : Z := 6.

(** ** [dfu_client.h] *)

Definition DFU_CLIENT_STATUS_IDLE : Z := 0.
Definition DFU_CLIENT_STATUS_CONNECTED : Z := 1.
Definition DFU_CLIENT_STATUS_DOWNLOAD_INPROGRESS : Z := 2.
Definition DFU_CLIENT_STATUS_DOWNLOAD_COMPLETE : Z := 3.
Definition DFU_CLIENT_STATUS_HALTED : Z := 4.
Definition DFU_CLIENT_ERROR : Z := 255.

Inductive dfu_client_evt : Type :=
| DFU_CLIENT_EVT_ERROR
| DFU_CLIENT_EVT_DOWNLOAD_FRAG
| DFU_CLIENT_EVT_DOWNLOAD_DONE.

(** A function pointer is the address it holds. *)
Definition NULL : Z := 0.

(** [fragment] points into [resp_buf]: it is kept as the offset there.
    [host] and [resource] are [None] for a null pointer. *)
Record dfu_client_object : Type := {
  resp_buf : bytes;
  req_buf : bytes;
  fragment : option nat;
  fragment_size : Z;
  fd : Z;
  firmware_size : Z;
  download_size : Z;
  status : Z;
  host : option string;
  resource : option string;
  callback : Z
}.

Definition set_resp_buf (v : bytes) (d : dfu_client_object) : dfu_client_object :=
  {| resp_buf := v; req_buf := req_buf d; fragment := fragment d;
     fragment_size := fragment_size d; fd := fd d;
     firmware_size := firmware_size d; download_size := download_size d;
     status := status d; host := host d; resource := resource d;
     callback := callback d |}.

Definition set_req_buf (v : bytes) (d : dfu_client_object) : dfu_client_object :=
  {| resp_buf := resp_buf d; req_buf := v; fragment := fragment d;
     fragment_size := fragment_size d; fd := fd d;
     firmware_size := firmware_size d; download_size := download_size d;
     status := status d; host := host d; resource := resource d;
     callback := callback d |}.

Definition set_fragment (p : option nat) (n : Z) (d : dfu_client_object)
  : dfu_client_object :=
  {| resp_buf := resp_buf d; req_buf := req_buf d; fragment := p;
     fragment_size := n; fd := fd d;
     firmware_size := firmware_size d; download_size := download_size d;
     status := status d; host := host d; resource := resource d;
     callback := callback d |}.

Definition set_fd (v : Z) (d : dfu_client_object) : dfu_client_object :=
  {| resp_buf := resp_buf d; req_buf := req_buf d; fragment := fragment d;
     fragment_size := fragment_size d; fd := v;
     firmware_size := firmware_size d; download_size := download_size d;
     status := status d; host := host d; resource := resource d;
     callback := callback d |}.

Definition set_firmware_size (v : Z) (d : dfu_client_object) : dfu_client_object :=
  {| resp_buf := resp_buf d; req_buf := req_buf d; fragment := fragment d;
     fragment_size := fragment_size d; fd := fd d;
     firmware_size := v; download_size := download_size d;
     status := status d; host := host d; resource := resource d;
     callback := callback d |}.

Definition set_download_size (v : Z) (d : dfu_client_object) : dfu_client_object :=
  {| resp_buf := resp_buf d; req_buf := req_buf d; fragment := fragment d;
     fragment_size := fragment_size d; fd := fd d;
     firmware_size := firmware_size d; download_size := v;
     status := status d; host := host d; resource := resource d;
     callback := callback d |}.

Definition set_status (v : Z) (d : dfu_client_object) : dfu_client_object :=
  {| resp_buf := resp_buf d; req_buf := req_buf d; fragment := fragment d;
     fragment_size := fragment_size d; fd := fd d;
     firmware_size := firmware_size d; download_size := download_size d;
     status := v; host := host d; resource := resource d;
     callback := callback d |}.

(** ** The world outside the engine *)

Record sockaddr : Type := { sa_family : Z; sin_port : Z; sin_addr : Z }.

Record addrinfo : Type := { ai_family : Z; ai_addr : sockaddr }.

(** An open descriptor: the bytes received and not yet read, a pending
    receive error, whether the peer has closed, and the address the socket
    is connected to. *)
Record socket : Type := {
  rx : bytes;
  rx_error : option Z;
  rx_closed : bool;
  peer : option sockaddr
}.

(** Everything the engine does to the world, in order. *)
Inductive io_event : Type :=
| Getaddrinfo (node : string) (service : option string) (family proto : Z) (ret : Z)
| Socket (family proto : Z) (ret : Z)
| Connect (sock : Z) (addr : sockaddr) (ret : Z)
| Close (sock : Z)
| Send (sock : Z) (data : bytes) (len : Z) (ret : Z)
| Recv (sock : Z) (size : Z) (peek : bool) (ret : Z)
| Callback (evt : dfu_client_evt) (st : Z) (frag_size : Z) (ret : Z).

(** [application] is the code behind a callback address (also behind [NULL],
    which [dfu_client_process] calls without a test): it reads the object,
    does not write it, and may answer from everything that happened before. *)
Record world : Type := {
  sockets : gmap Z socket;
  next_fd : Z;
  resolver : string -> option string -> Z -> Z -> Z * list addrinfo;
  reachable : sockaddr -> bool;
  errno : Z;
  application : Z -> list io_event -> dfu_client_object -> dfu_client_evt -> Z -> Z;
  log : list io_event
}.

Definition set_sockets (v : gmap Z socket) (w : world) : world :=
  {| sockets := v; next_fd := next_fd w; resolver := resolver w;
     reachable := reachable w; errno := errno w;
     application := application w; log := log w |}.

Definition set_next_fd (v : Z) (w : world) : world :=
  {| sockets := sockets w; next_fd := v; resolver := resolver w;
     reachable := reachable w; errno := errno w;
     application := application w; log := log w |}.

Definition set_errno (v : Z) (w : world) : world :=
  {| sockets := sockets w; next_fd := next_fd w; resolver := resolver w;
     reachable := reachable w; errno := v;
     application := application w; log := log w |}.

Definition set_reachable (v : sockaddr -> bool) (w : world) : world :=
  {| sockets := sockets w; next_fd := next_fd w; resolver := resolver w;
     reachable := v; errno := errno w;
     application := application w; log := log w |}.

Definition emit (e : io_event) (w : world) : world :=
  {| sockets := sockets w; next_fd := next_fd w; resolver := resolver w;
     reachable := reachable w; errno := errno w;
     application := application w; log := log w ++ [e] |}.

Definition with_rx (v : bytes) (s : socket) : socket :=
  {| rx := v; rx_error := rx_error s; rx_closed := rx_closed s; peer := peer s |}.

Definition with_peer (a : sockaddr) (s : socket) : socket :=
  {| rx := rx s; rx_error := rx_error s; rx_closed := rx_closed s; peer := Some a |}.

Definition with_port (p : Z) (a : sockaddr) : sockaddr :=
  {| sa_family := sa_family a; sin_port := p; sin_addr := sin_addr a |}.

(** *** System calls

    Only [recv] sets [errno] here: the engine reads [errno] nowhere else than
    after a failed [recv]. *)

Definition sys_getaddrinfo (node : string) (service : option string)
    (family proto : Z) (w : world) : Z * list addrinfo * world :=
  let '(rc, res) := resolver w node service family proto in
  (rc, res, emit (Getaddrinfo node service family proto rc) w).

(** [socket(family, SOCK_STREAM, proto)]; it fails once [next_fd] is negative. *)
Definition sys_socket (family proto : Z) (w : world) : Z * world :=
  if next_fd w <? 0 then (-1, emit (Socket family proto (-1)) w)
  else
    let s := {| rx := []; rx_error := None; rx_closed := false; peer := None |} in
    (next_fd w,
     emit (Socket family proto (next_fd w))
       (set_next_fd (next_fd w + 1) (set_sockets (<[next_fd w := s]> (sockets w)) w))).

Definition sys_connect (sock : Z) (addr : sockaddr) (w : world) : Z * world :=
  match sockets w !! sock with
  | Some s =>
      if reachable w addr
      then (0, emit (Connect sock addr 0)
                 (set_sockets (<[sock := with_peer addr s]> (sockets w)) w))
      else (-1, emit (Connect sock addr (-1)) w)
  | None => (-1, emit (Connect sock addr (-1)) w)
  end.

Definition sys_close (sock : Z) (w : world) : world :=
  emit (Close sock) (set_sockets (delete sock (sockets w)) w).

(** [send(sock, buf, len, 0)]: [data] is what of the [len] bytes lies inside
    the buffer. *)
Definition sys_send (sock : Z) (data : bytes) (len : Z) (w : world) : Z * world :=
  match sockets w !! sock with
  | Some s =>
      match peer s with
      | Some _ => (len, emit (Send sock data len len) w)
      | None => (-1, emit (Send sock data len (-1)) w)
      end
  | None => (-1, emit (Send sock data len (-1)) w)
  end.

(** [recv(sock, buf, size, flags)]: the result and the bytes stored.  With
    [peek] ([MSG_PEEK]) the bytes stay in the socket. *)
Definition sys_recv (sock : Z) (size : Z) (peek : bool) (w : world)
  : Z * bytes * world :=
  match sockets w !! sock with
  | None => (-1, [], emit (Recv sock size peek (-1)) (set_errno EBADF w))
  | Some s =>
      match rx s with
      | _ :: _ =>
          let data := take (Z.to_nat size) (rx s) in
          let n := Z.of_nat (length data) in
          let s' := with_rx (drop (Z.to_nat size) (rx s)) s in
          (n, data, emit (Recv sock size peek n)
                      (if peek then w
                       else set_sockets (<[sock := s']> (sockets w)) w))
      | [] =>
          match rx_error s with
          | Some e => (-1, [], emit (Recv sock size peek (-1)) (set_errno e w))
          | None =>
              if rx_closed s then (0, [], emit (Recv sock size peek 0) w)
              else (-1, [], emit (Recv sock size peek (-1)) (set_errno EAGAIN w))
          end
      end
  end.

(** ** The engine: [http_dfu_client.c] *)

(** An operation works on the object and on the world. *)
Definition M (A : Type) : Type :=
  dfu_client_object -> world -> A * dfu_client_object * world.

Definition ret {A : Type} (a : A) : M A := fun d w => (a, d, w).

Definition bind {A B : Type} (m : M A) (k : A -> M B) : M B :=
  fun d w => let '(a, d', w') := m d w in k a d' w'.

Notation "'let*' x ':=' m 'in' k" := (bind m (fun x => k))
  (at level 10, x pattern, m at level 100, k at level 200).
Notation "m ';;' k" := (bind m (fun _ => k))
  (at level 100, k at level 200, right associativity, only parsing).

(** Reading the object ([dfu->...]), writing one of its fields. *)
Definition get : M dfu_client_object := fun d w => (d, d, w).
Definition update (f : dfu_client_object -> dfu_client_object) : M unit :=
  fun d w => (tt, f d, w).
Definition get_errno : M Z := fun d w => (errno w, d, w).
Definition in_world {A : Type} (f : world -> A * world) : M A :=
  fun d w => let '(a, w') := f w in (a, d, w').

(** [dfu->callback(dfu, evt, st)]. *)
Definition call_callback (evt : dfu_client_evt) (st : Z) : M Z :=
  fun d w =>
    let r := application w (callback d) (log w) d evt st in
    (r, d, emit (Callback evt st (fragment_size d) r) w).

(** [recv(dfu->fd, dfu->resp_buf, size, flags)]. *)
Definition recv_resp_buf (size : Z) (peek : bool) : M Z :=
  fun d w =>
    let '(n, data, w') := sys_recv (fd d) size peek w in
    (n, set_resp_buf (store data (resp_buf d)) d, w').

Definition is_null {A : Type} (p : option A) : bool :=
  match p with None => true | Some _ => false end.

(** The loop of [httpc_connect] over the resolved entries.  The source steps
    with [addr++] and tests [addr != NULL], which never ends the loop: it
    leaves only by a [connect] that succeeds, and reads on behind the
    entries otherwise.  Here the loop ends with the last resolved entry, so
    a run that comes to that end says nothing of the code. *)
Fixpoint connect_loop (sock family : Z) (addrs : list addrinfo) (rc : Z)
    (w : world) : Z * world :=
  match addrs with
  | [] => (rc, w)
  | addr :: rest =>
      let remoteaddr := ai_addr addr in
      if sa_family remoteaddr =? family then
        let remoteaddr := with_port (htons 80) remoteaddr in
        let '(rc, w) := sys_connect sock remoteaddr w in
        if rc =? 0 then (rc, w) else connect_loop sock family rest rc w
      else connect_loop sock family rest rc w
  end.

Definition httpc_connect (host : option string) (port : option string)
    (family proto : Z) (w : world) : Z * world :=
  match host with
  | None => (-1, w)
  | Some name =>
      let '(rc, addrinf, w) := sys_getaddrinfo name port family proto w in
      if (rc <? 0) || match addrinf with [] => true | _ => false end
      then (-1, w)
      else
        let '(sock, w) := sys_socket family proto w in
        let '(rc, w) :=
          if 0 <=? sock then connect_loop sock family addrinf rc w else (rc, w) in
        if rc <? 0 then (-1, sys_close sock w) else (sock, w)
  end.

(** The Kconfig values of the library. *)
Record dfu_config : Type := {
  CONFIG_NRF_DFU_HTTP_MAX_RESPONSE_SIZE : Z;
  CONFIG_NRF_DFU_HTTP_MAX_REQUEST_SIZE : Z;
  CONFIG_NRF_DFU_HTTP_MAX_FRAGMENT_SIZE : Z
}.

Definition REQUEST_TEMPLATE (resource host : bytes) (first last : Z) : bytes :=
  lit "GET " ++ resource ++ lit " HTTP/1.1" ++ CRLF
  ++ lit "Host: " ++ host ++ CRLF
  ++ lit "Connection: keep-alive" ++ CRLF
  ++ lit "Range: bytes=" ++ decimal first ++ lit "-" ++ decimal last
  ++ CRLF ++ CRLF.

(** *** What [dfu_client_process] reads in the response buffer *)

(** [total_size], or [None] where the source returns for want of a
    [Content-Range] header. *)
Definition total_size_of (buf : bytes) : option Z :=
  match strstr buf (lit "Content-Range: bytes") with
  | Some i =>
      let content_range_header := (i + 20)%nat in
      match strstr (drop content_range_header buf) (lit "/") with
      | Some p_totalsize =>
          Some (atoi (drop (content_range_header + p_totalsize + 1) buf))
      | None => Some 0
      end
  | None => None
  end.

(** [payload_size], or [None] where the source returns for want of a
    [Content-Length] header. *)
Definition payload_size_of (buf : bytes) : option Z :=
  match strstr buf (lit "Content-Length: ") with
  | Some i => Some (atoi (drop (i + 16) buf))
  | None => None
  end.

(** [p_payload], past the blank line. *)
Definition p_payload_of (buf : bytes) : option nat :=
  match strstr buf (CRLF ++ CRLF) with
  | Some i => Some (i + 4)%nat
  | None => None
  end.

(** [connection_resume]. *)
Definition connection_resume_of (buf : bytes) : bool :=
  match strstr buf (lit "Connection: ") with
  | Some i =>
      match strstr (drop (i + 12) buf) (lit "close") with
      | Some _ => true
      | None => false
      end
  | None => false
  end.

Section Engine.

Variable cfg : dfu_config.

Definition rxdata_flush : M unit :=
  let* dfu := get in
  if is_null (host dfu) || (callback dfu =? NULL)
     || (status dfu =? DFU_CLIENT_STATUS_IDLE)
  then ret tt
  else
    let* flush_len :=
      recv_resp_buf (CONFIG_NRF_DFU_HTTP_MAX_RESPONSE_SIZE cfg) false in
    (if flush_len =? -1 then
       let* e := get_errno in
       if e =? EAGAIN then ret tt
       else call_callback DFU_CLIENT_EVT_ERROR (Int.to_u32 e) ;; ret tt
     else ret tt) ;;
    update (set_resp_buf (zeroed (CONFIG_NRF_DFU_HTTP_MAX_RESPONSE_SIZE cfg))).

(** The expansion of [REQUEST_TEMPLATE] for the fragment at
    [dfu->download_size]. *)
Definition request_text (dfu : dfu_client_object) : bytes :=
  REQUEST_TEMPLATE
    (c_str (lit (default EmptyString (resource dfu))))
    (c_str (lit (default EmptyString (host dfu))))
    (download_size dfu)
    (Int.sub (Int.add (download_size dfu)
                (CONFIG_NRF_DFU_HTTP_MAX_FRAGMENT_SIZE cfg)) 1).

(** The [connnection_close] block of [fragment_request]: [true] when the
    function goes on to build the request. *)
Definition reconnect : M bool :=
  let* dfu := get in
  in_world (fun w => (tt, sys_close (fd dfu) w)) ;;
  update (set_fd (-1)) ;;
  let* sock := in_world (httpc_connect (host dfu) None AF_INET IPPROTO_TCP) in
  update (set_fd sock) ;;
  if sock <? 0 then
    call_callback DFU_CLIENT_EVT_ERROR ECONNRESET ;; ret false
  else ret true.

(** [fragment_request] from its [memset] on. *)
Definition send_request : M Z :=
  update (set_req_buf (zeroed (CONFIG_NRF_DFU_HTTP_MAX_REQUEST_SIZE cfg))) ;;
  let* dfu := get in
  let '(request_len, buf) :=
    snprintf (req_buf dfu) (CONFIG_NRF_DFU_HTTP_MAX_REQUEST_SIZE cfg)
      (request_text dfu) in
  update (set_req_buf buf) ;;
  if 0 <? request_len then
    update (set_status DFU_CLIENT_STATUS_DOWNLOAD_INPROGRESS) ;;
    let* dfu := get in
    in_world (sys_send (fd dfu) (take (Z.to_nat request_len) (req_buf dfu))
                request_len)
  else ret (-1).

Definition fragment_request (flush connnection_close : bool) : M Z :=
  let* dfu := get in
  if is_null (host dfu) || (callback dfu =? NULL) || is_null (resource dfu)
  then ret (-1)
  else
    (if flush then rxdata_flush else ret tt) ;;
    let* go_on := (if connnection_close then reconnect else ret true) in
    if go_on then send_request else ret (-1).

Definition dfu_client_init : M Z :=
  let* dfu := get in
  if is_null (host dfu) || (callback dfu =? NULL) || is_null (resource dfu)
  then ret (-1)
  else
    update (set_fd (-1)) ;;
    update (set_status DFU_CLIENT_STATUS_IDLE) ;;
    ret 0.

Definition dfu_client_connect : M Z :=
  let* dfu := get in
  if is_null (host dfu) || (callback dfu =? NULL) then ret (-1)
  else if negb (fd dfu =? -1) && (status dfu =? DFU_CLIENT_STATUS_CONNECTED)
  then ret 0
  else
    let* sock := in_world (httpc_connect (host dfu) None AF_INET IPPROTO_TCP) in
    if sock <? 0 then ret (-1)
    else
      update (set_fd sock) ;;
      update (set_status DFU_CLIENT_STATUS_CONNECTED) ;;
      ret 0.

Definition dfu_client_disconnect : M unit :=
  let* dfu := get in
  if fd dfu <? 0 then ret tt
  else
    in_world (fun w => (tt, sys_close (fd dfu) w)) ;;
    update (set_fd (-1)) ;;
    update (set_status DFU_CLIENT_STATUS_IDLE).

Definition dfu_client_download : M Z :=
  let* dfu := get in
  if (fd dfu <? 0) || negb (status dfu =? DFU_CLIENT_STATUS_CONNECTED)
  then ret (-1)
  else
    update (set_firmware_size (-1)) ;;
    fragment_request false false.

(** [dfu_client_process], the block [if (total_size) ...]. *)
Definition check_total_size (total_size : Z) : M unit :=
  let* dfu := get in
  if negb (total_size =? 0) then
    if firmware_size dfu =? -1 then
      update (set_firmware_size total_size)
    else if negb (firmware_size dfu =? total_size) then
      update (set_status DFU_CLIENT_ERROR) ;;
      call_callback DFU_CLIENT_EVT_ERROR EFAULT ;; ret tt
    else ret tt
  else ret tt.

(** [dfu_client_process] once the application has taken the fragment. *)
Definition fragment_taken (payload_size : Z) (connection_resume : bool) : M unit :=
  let* dfu := get in
  update (set_download_size (Int.add (download_size dfu) payload_size)) ;;
  let* dfu := get in
  if download_size dfu =? firmware_size dfu then
    update (set_status DFU_CLIENT_STATUS_DOWNLOAD_COMPLETE) ;;
    let* done := call_callback DFU_CLIENT_EVT_DOWNLOAD_DONE 0 in
    if negb (done =? 0) then
      let* dfu := get in
      update (set_download_size (Int.sub (download_size dfu) payload_size)) ;;
      fragment_request true connection_resume ;; ret tt
    else rxdata_flush
  else fragment_request true connection_resume ;; ret tt.

(** [dfu_client_process] from "Received response of size [len]" on. *)
Definition process_response (len : Z) : M unit :=
  let* dfu := get in
  match total_size_of (resp_buf dfu) with
  | None => ret tt
  | Some total_size =>
  match payload_size_of (resp_buf dfu) with
  | None => ret tt
  | Some payload_size =>
      check_total_size total_size ;;
      let* dfu := get in
      if (payload_size =? CONFIG_NRF_DFU_HTTP_MAX_FRAGMENT_SIZE cfg)
         || (Int.add (download_size dfu) payload_size =? firmware_size dfu)
      then
        match p_payload_of (resp_buf dfu) with
        | None => ret tt
        | Some p_payload =>
            let expected_payload_size := Int.sub len (Z.of_nat p_payload) in
            if negb (payload_size =? expected_payload_size) then ret tt
            else
              let connection_resume := connection_resume_of (resp_buf dfu) in
              update (set_fragment (Some p_payload) payload_size) ;;
              let* taken := call_callback DFU_CLIENT_EVT_DOWNLOAD_FRAG 0 in
              if taken =? 0 then fragment_taken payload_size connection_resume
              else update (set_status DFU_CLIENT_STATUS_HALTED)
        end
      else ret tt
  end
  end.

Definition dfu_client_process : M unit :=
  let* dfu := get in
  if (fd dfu <? 0) || negb (status dfu =? DFU_CLIENT_STATUS_DOWNLOAD_INPROGRESS)
  then ret tt
  else
    update (set_resp_buf (zeroed (CONFIG_NRF_DFU_HTTP_MAX_RESPONSE_SIZE cfg))) ;;
    let* len := recv_resp_buf (CONFIG_NRF_DFU_HTTP_MAX_RESPONSE_SIZE cfg) true in
    if len =? -1 then
      let* e := get_errno in
      if negb (e =? EAGAIN) then
        update (set_status DFU_CLIENT_ERROR) ;;
        call_callback DFU_CLIENT_EVT_ERROR ENOTCONN ;; ret tt
      else ret tt
    else if len =? 0 then
      update (set_status DFU_CLIENT_ERROR) ;;
      call_callback DFU_CLIENT_EVT_ERROR ECONNRESET ;; ret tt
    else process_response len.

End Engine.

(** *** Reading [dfu_client_process] *)

(** What the peek leaves in [resp_buf] when the socket holds [resp], and the
    length it returns. *)
Definition peeked (cfg : dfu_config) (resp : bytes) : bytes :=
  store (take (Z.to_nat (CONFIG_NRF_DFU_HTTP_MAX_RESPONSE_SIZE cfg)) resp)
        (zeroed (CONFIG_NRF_DFU_HTTP_MAX_RESPONSE_SIZE cfg)).

Definition peek_len (cfg : dfu_config) (resp : bytes) : Z :=
  Z.of_nat (length (take (Z.to_nat (CONFIG_NRF_DFU_HTTP_MAX_RESPONSE_SIZE cfg)) resp)).

(** [firmware_size] after the block [if (total_size) ...], and whether that
    block reports an error. *)
Definition firmware_size_after (known total_size : Z) : Z :=
  if negb (total_size =? 0) && (known =? -1) then total_size else known.

Definition size_mismatch (known total_size : Z) : bool :=
  negb (total_size =? 0) && negb (known =? -1) && negb (known =? total_size).

(** What [send_request] hands to [send] for the fragment at
    [dfu->download_size]: the request as far as the buffer holds it. *)
Definition request_bytes (cfg : dfu_config) (dfu : dfu_client_object) : bytes :=
  take (length (request_text cfg dfu))
    (snprintf (zeroed (CONFIG_NRF_DFU_HTTP_MAX_REQUEST_SIZE cfg))
       (CONFIG_NRF_DFU_HTTP_MAX_REQUEST_SIZE cfg) (request_text cfg dfu)).2.

(** ** Running the engine against a server *)

(** The object and the world an operation leaves. *)
Definition exec {A : Type} (m : M A) (s : dfu_client_object * world)
  : dfu_client_object * world :=
  let '(_, d, w) := m s.1 s.2 in (d, w).

(** The server's bytes reaching the socket. *)
Definition deliver (sock : Z) (data : bytes) (w : world) : world :=
  match sockets w !! sock with
  | Some s => set_sockets (<[sock := with_rx (rx s ++ data) s]> (sockets w)) w
  | None => w
  end.

(** A 206 response for the bytes [first] to [last] of an object of [total]
    bytes. *)
Definition response_head (first last total len : Z) (more : bytes) : bytes :=
  lit "HTTP/1.1 206 Partial Content" ++ CRLF
  ++ lit "Content-Range: bytes " ++ decimal first ++ lit "-" ++ decimal last
  ++ lit "/" ++ decimal total ++ CRLF
  ++ more
  ++ lit "Content-Length: " ++ decimal len ++ CRLF ++ CRLF.

Definition response (first last total : Z) (more payload : bytes) : bytes :=
  response_head first last total (Z.of_nat (length payload)) more ++ payload.

(** What the application has been handed, in order: each event with the
    [fragment_size] it could read. *)
Fixpoint callbacks (l : list io_event) : list (dfu_client_evt * Z) :=
  match l with
  | [] => []
  | Callback evt _ n _ :: l' => (evt, n) :: callbacks l'
  | _ :: l' => callbacks l'
  end.

(** The requests handed to [send], in order. *)
Fixpoint requests (l : list io_event) : list bytes :=
  match l with
  | [] => []
  | Send _ data _ _ :: l' => data :: requests l'
  | _ :: l' => requests l'
  end.

(** ** A test bench: one server, one firmware object *)

Module Bench.

Definition cfg : dfu_config :=
  {| CONFIG_NRF_DFU_HTTP_MAX_RESPONSE_SIZE := 2048;
     CONFIG_NRF_DFU_HTTP_MAX_REQUEST_SIZE := 256;
     CONFIG_NRF_DFU_HTTP_MAX_FRAGMENT_SIZE := 1024 |}.

Definition server_addr : sockaddr :=
  {| sa_family := AF_INET; sin_port := 0; sin_addr := 3221225985 |}.

(** Applications: one that takes everything, one that refuses the completion
    event, one that refuses every fragment. *)
Definition takes_all (_ : Z) (_ : list io_event) (_ : dfu_client_object)
    (_ : dfu_client_evt) (_ : Z) : Z := 0.

Definition refuses_done (_ : Z) (_ : list io_event) (_ : dfu_client_object)
    (evt : dfu_client_evt) (_ : Z) : Z :=
  match evt with DFU_CLIENT_EVT_DOWNLOAD_DONE => -1 | _ => 0 end.

Definition boot
    (app : Z -> list io_event -> dfu_client_object -> dfu_client_evt -> Z -> Z)
  : world :=
  {| sockets := ∅; next_fd := 3;
     resolver := fun _ _ _ _ => (0, [ {| ai_family := AF_INET; ai_addr := server_addr |} ]);
     reachable := fun _ => true; errno := 0;
     application := app; log := [] |}.

(** A zero-initialised object with the three fields the caller fills in. *)
Definition fresh : dfu_client_object :=
  {| resp_buf := zeroed 2048; req_buf := zeroed 256; fragment := None;
     fragment_size := 0; fd := 0; firmware_size := 0; download_size := 0;
     status := 0; host := Some "fw.example.com"%string;
     resource := Some "/app_update.bin"%string; callback := 4096 |}.

Definition firmware (n : Z) : bytes := repeat "U"%char (Z.to_nat n).

(** Initialised and connected; then with the first request sent. *)
Definition connected
    (app : Z -> list io_event -> dfu_client_object -> dfu_client_evt -> Z -> Z)
  : dfu_client_object * world :=
  exec dfu_client_connect (exec dfu_client_init (fresh, boot app)).

Definition started
    (app : Z -> list io_event -> dfu_client_object -> dfu_client_evt -> Z -> Z)
  : dfu_client_object * world :=
  exec (dfu_client_download cfg) (connected app).

(** The server answers on the session's socket; then the engine is polled
    once. *)
Definition arrive (resp : bytes) (s : dfu_client_object * world)
  : dfu_client_object * world :=
  (s.1, deliver (fd s.1) resp s.2).

Definition answer (resp : bytes) (s : dfu_client_object * world)
  : dfu_client_object * world :=
  exec (dfu_client_process cfg) (arrive resp s).

(** The session's socket with [resp] waiting. *)
Definition holding (resp : bytes) : socket :=
  {| rx := resp; rx_error := None; rx_closed := false;
     peer := Some (with_port (htons 80) server_addr) |}.

Definition range_request (first last : Z) : bytes :=
  REQUEST_TEMPLATE (lit "/app_update.bin") (lit "fw.example.com") first last.

(** The name of the server no longer resolves: [getaddrinfo] fails. *)
Definition name_lost (s : dfu_client_object * world) : dfu_client_object * world :=
  (s.1,
   {| sockets := sockets s.2; next_fd := next_fd s.2;
      resolver := fun _ _ _ _ => (-2, []);
      reachable := reachable s.2; errno := errno s.2;
      application := application s.2; log := log s.2 |}).

(** The same library built with a 64-byte request buffer. *)
Definition cfg64 : dfu_config :=
  {| CONFIG_NRF_DFU_HTTP_MAX_RESPONSE_SIZE := 2048;
     CONFIG_NRF_DFU_HTTP_MAX_REQUEST_SIZE := 64;
     CONFIG_NRF_DFU_HTTP_MAX_FRAGMENT_SIZE := 1024 |}.

Definition r0_1023 : bytes := response 0 1023 2500 [] (firmware 1024).
Definition r1024_2047 : bytes := response 1024 2047 2500 [] (firmware 1024).
Definition r2048_2499 : bytes := response 2048 2499 2500 [] (firmware 452).
(** Deviating answers: a second fragment out of an object of 3000 bytes, a
    full fragment out of an object of 100 bytes, a fragment of 500 bytes. *)
Definition r1024_2047_of_3000 : bytes := response 1024 2047 3000 [] (firmware 1024).
Definition r0_1023_of_100 : bytes := response 0 1023 100 [] (firmware 1024).
Definition r0_499 : bytes := response 0 499 2500 [] (firmware 500).

Definition r0_1023_close : bytes :=
  response 0 1023 2500 (lit "Connection: close" ++ CRLF) (firmware 1024).

(** The server of the firmware object of 2500 bytes: its answer to the
    request for the bytes from [a] on. *)
Definition server (a : Z) : bytes :=
  response a (Z.min (a + 1024) 2500 - 1) 2500 [] (firmware (Z.min 1024 (2500 - a))).

(** The session with two fragments taken and the last one waiting in the
    socket. *)
Definition last_fragment_in
    (app : Z -> list io_event -> dfu_client_object -> dfu_client_evt -> Z -> Z)
  : dfu_client_object * world :=
  arrive r2048_2499 (answer r1024_2047 (answer r0_1023 (started app))).

End Bench.

(** ** Properties of the log *)

(** [w'] comes after [w], and every event in between satisfies [P]. *)
Definition extends_by (P : io_event -> Prop) (w w' : world) : Prop :=
  exists evs, log w' = log w ++ evs /\ Forall P evs.

(** The events since [w]. *)
Definition since (w w' : world) : list io_event := drop (length (log w)) (log w').

Definition to_port_80 (e : io_event) : Prop :=
  match e with
  | Connect _ addr _ => sin_port addr = htons 80
  | _ => True
  end.

Definition null_service (e : io_event) : Prop :=
  match e with
  | Getaddrinfo _ service _ _ _ => service = None
  | _ => True
  end.

Definition is_send (e : io_event) : Prop :=
  match e with Send _ _ _ _ => True | _ => False end.

Definition over_tcp (e : io_event) : Prop :=
  match e with
  | Socket family proto _ => family = AF_INET /\ proto = IPPROTO_TCP
  | _ => True
  end.

(** Connections to port 80, name lookups without a service, sockets for TCP
    over IPv4. *)
Definition engine_ports (e : io_event) : Prop :=
  to_port_80 e /\ null_service e /\ over_tcp e.

(** ** Statements about the sizes *)

Definition same_sizes (d d' : dfu_client_object) : Prop :=
  download_size d' = download_size d /\ firmware_size d' = firmware_size d.

(** Both sizes are [int]s, and [download_size] is within a known
    [firmware_size]. *)
Definition sizes_ok (d : dfu_client_object) : Prop :=
  Int.in_range (download_size d) /\ Int.in_range (firmware_size d)
  /\ (firmware_size d <> -1 -> download_size d <= firmware_size d).

(** What the socket holds does not declare more than is left: its
    [Content-Length] lies between 0 and the distance from [download_size] to
    the firmware size, the known one or else the total it declares. *)
Definition honest_length (cfg : dfu_config) (d : dfu_client_object) (w : world)
  : Prop :=
  forall s total p,
    sockets w !! fd d = Some s ->
    total_size_of (peeked cfg (rx s)) = Some total ->
    payload_size_of (peeked cfg (rx s)) = Some p ->
    firmware_size_after (firmware_size d) total <> -1 ->
    0 <= p <= firmware_size_after (firmware_size d) total - download_size d.

(** The public operations. *)
Inductive api : Type :=
| call_init
| call_connect
| call_download
| call_process
| call_disconnect.

Definition api_call (cfg : dfu_config) (o : api) (s : dfu_client_object * world)
  : dfu_client_object * world :=
  match o with
  | call_init => exec dfu_client_init s
  | call_connect => exec dfu_client_connect s
  | call_download => exec (dfu_client_download cfg) s
  | call_process => exec (dfu_client_process cfg) s
  | call_disconnect => exec dfu_client_disconnect s
  end.

(** A session: before each call the world moves on (the server answers, the
    network changes), then the operation runs. *)
Fixpoint session_run (cfg : dfu_config) (steps : list ((world -> world) * api))
    (s : dfu_client_object * world) : dfu_client_object * world :=
  match steps with
  | [] => s
  | (env, o) :: rest => session_run cfg rest (api_call cfg o (s.1, env s.2))
  end.

(** Every poll of the session finds an honest length. *)
Fixpoint honest_run (cfg : dfu_config) (steps : list ((world -> world) * api))
    (s : dfu_client_object * world) : Prop :=
  match steps with
  | [] => True
  | (env, o) :: rest =>
      (o = call_process -> honest_length cfg s.1 (env s.2))
      /\ honest_run cfg rest (api_call cfg o (s.1, env s.2))
  end.

(** The download of the test bench, from a fresh object to the disconnect. *)
Definition whole_download : list ((world -> world) * api) :=
  [ (id, call_init); (id, call_connect); (id, call_download);
    (deliver 3 Bench.r0_1023, call_process);
    (deliver 3 Bench.r1024_2047, call_process);
    (deliver 3 Bench.r2048_2499, call_process);
    (id, call_disconnect) ].

(** ** Statements about resuming *)

Definition not_send (e : io_event) : Prop := ~ is_send e.

(** Since [w], the engine has sent nothing, then closed the descriptor of
    [d], then called [httpc_connect] for the host of [d], which gave a
    descriptor; that descriptor is the one [d'] now holds, and the last thing
    the engine did is to send on it the request for the fragment at the
    [download_size] of [d']. *)
Definition resumed (cfg : dfu_config) (d : dfu_client_object) (w : world)
    (d' : dfu_client_object) (w' : world) : Prop :=
  exists w1 w2 sock len r,
    extends_by not_send w w1
    /\ httpc_connect (host d) None AF_INET IPPROTO_TCP (sys_close (fd d) w1)
       = (sock, w2)
    /\ 0 <= sock
    /\ fd d' = sock
    /\ w' = emit (Send sock (request_bytes cfg d') len r) w2.

(** Since [w], the engine has sent nothing, then closed the descriptor of
    [d] and called [httpc_connect] for the host of [d]; [d'] holds what that
    call returned.  If it is a descriptor, the last thing the engine did is
    to send on it the request for the fragment at the [download_size] of
    [d']; if not, the engine has sent nothing at all. *)
Definition reconnected (cfg : dfu_config) (d : dfu_client_object) (w : world)
    (d' : dfu_client_object) (w' : world) : Prop :=
  exists w1 sock w2,
    extends_by not_send w w1
    /\ httpc_connect (host d) None AF_INET IPPROTO_TCP (sys_close (fd d) w1)
       = (sock, w2)
    /\ fd d' = sock
    /\ if sock <? 0 then extends_by not_send w w'
       else exists len r, w' = emit (Send sock (request_bytes cfg d') len r) w2.


(** ** Statements about a fragment *)

(** The session can be polled and can ask for fragments. *)
Definition polling (d : dfu_client_object) : Prop :=
  host d <> None /\ resource d <> None /\ callback d <> NULL
  /\ 0 <= fd d /\ status d = DFU_CLIENT_STATUS_DOWNLOAD_INPROGRESS.

(** A poll on a socket holding [resp] reads a whole fragment: a total, a
    length, a blank line followed by exactly that many bytes, and a close
    directive or none. *)
Definition reads_fragment (cfg : dfu_config) (resp : bytes)
    (total_size payload_size : Z) (resume : bool) : Prop :=
  resp <> []
  /\ total_size_of (peeked cfg resp) = Some total_size
  /\ payload_size_of (peeked cfg resp) = Some payload_size
  /\ (exists p_payload,
        p_payload_of (peeked cfg resp) = Some p_payload
        /\ payload_size = Int.sub (peek_len cfg resp) (Z.of_nat p_payload))
  /\ connection_resume_of (peeked cfg resp) = resume.

(** The application behind a callback address answers an event with 0,
    always; with something else, always. *)
Definition takes (w : world) (callback : Z) (evt : dfu_client_evt) : Prop :=
  forall l o st, application w callback l o evt st = 0.

Definition refuses (w : world) (callback : Z) (evt : dfu_client_evt) : Prop :=
  forall l o st, application w callback l o evt st <> 0.

(** The poll hands over a fragment of [p] bytes and the completion event,
    ends where it began, in progress, and sends the request for the fragment
    at [download_size] as it was. *)
Definition retried (cfg : dfu_config) (d : dfu_client_object) (w : world) (p : Z)
  : Prop :=
  let '(d', w') := exec (dfu_client_process cfg) (d, w) in
  download_size d' = download_size d
  /\ status d' = DFU_CLIENT_STATUS_DOWNLOAD_INPROGRESS
  /\ callbacks (since w w')
     = [(DFU_CLIENT_EVT_DOWNLOAD_FRAG, p); (DFU_CLIENT_EVT_DOWNLOAD_DONE, p)]
  /\ requests (since w w') = [request_bytes cfg d].

(** ** Statements about a whole download *)

Definition fragments_of (M F : Z) : Z := (F + M - 1) / M.

Definition last_fragment (M F : Z) : Z := if F mod M =? 0 then M else F mod M.

Definition fragment_events (M F : Z) : list (dfu_client_evt * Z) :=
  repeat (DFU_CLIENT_EVT_DOWNLOAD_FRAG, M) (Z.to_nat (fragments_of M F - 1))
  ++ [ (DFU_CLIENT_EVT_DOWNLOAD_FRAG, last_fragment M F);
       (DFU_CLIENT_EVT_DOWNLOAD_DONE, last_fragment M F) ].

(** The server answers the request for the bytes from [a] on with
    [server a]: for every fragment boundary [a] inside the object this is a
    whole fragment, of the maximum size or of what is left, that fits the
    response buffer, with the total [F] and no close directive. *)
Definition serves (cfg : dfu_config) (server : Z -> bytes) (F : Z) : Prop :=
  forall a,
    0 <= a < F -> (CONFIG_NRF_DFU_HTTP_MAX_FRAGMENT_SIZE cfg | a) ->
    reads_fragment cfg (server a) F
      (Z.min (CONFIG_NRF_DFU_HTTP_MAX_FRAGMENT_SIZE cfg) (F - a)) false
    /\ Z.of_nat (length (server a)) <= CONFIG_NRF_DFU_HTTP_MAX_RESPONSE_SIZE cfg.

(** One round: the answer to the last request arrives, the engine is polled. *)
Definition round (cfg : dfu_config) (server : Z -> bytes)
    (s : dfu_client_object * world) : dfu_client_object * world :=
  exec (dfu_client_process cfg)
    (s.1, deliver (fd s.1) (server (download_size s.1)) s.2).

Fixpoint download_rounds (cfg : dfu_config) (server : Z -> bytes) (n : nat)
    (s : dfu_client_object * world) : dfu_client_object * world :=
  match n with
  | O => s
  | S n' => download_rounds cfg server n' (round cfg server s)
  end.

(** The requests of a session fit an [int] length. *)
Definition request_fits_int (d : dfu_client_object) : Prop :=
  Z.of_nat (length (c_str (lit (default EmptyString (resource d))))
            + length (c_str (lit (default EmptyString (host d))))) + 89
  <= Int.INT_MAX.

(** What holds between two rounds of a download of [F] bytes that began
    with the object [d0] in the world [w0] and has reached the offset [a]. *)
Definition in_flight (d0 : dfu_client_object) (w0 : world) (F a : Z)
    (s : dfu_client_object * world) : Prop :=
  polling s.1
  /\ host s.1 = host d0 /\ resource s.1 = resource d0 /\ callback s.1 = callback d0
  /\ download_size s.1 = a
  /\ (firmware_size s.1 = F \/ firmware_size s.1 = -1)
  /\ (exists sk, sockets s.2 !! fd s.1 = Some sk /\ rx sk = [])
  /\ application s.2 = application w0.

(** The download of [F] bytes from [server] is complete after as many rounds
    as there are fragments: the application has been handed the fragments
    and then the completion event, and nothing more however often the
    engine is polled afterwards; [download_size] has gone up by the maximum
    fragment size with each round but the last, which brought it to [F]; and
    the requests sent were those for the offsets in between. *)
Definition downloaded (cfg : dfu_config) (server : Z -> bytes) (F : Z)
    (d : dfu_client_object) (w : world) : Prop :=
  let M := CONFIG_NRF_DFU_HTTP_MAX_FRAGMENT_SIZE cfg in
  let n := Z.to_nat (fragments_of M F) in
  (forall k,
      callbacks (since w (download_rounds cfg server (n + k) (d, w)).2)
      = fragment_events M F)
  /\ (forall j, (j < n)%nat ->
        download_size (download_rounds cfg server j (d, w)).1 = Z.of_nat j * M)
  /\ download_size (download_rounds cfg server n (d, w)).1 = F
  /\ status (download_rounds cfg server n (d, w)).1
     = DFU_CLIENT_STATUS_DOWNLOAD_COMPLETE
  /\ requests (since w (download_rounds cfg server n (d, w)).2)
     = map (fun i => request_bytes cfg (set_download_size (Z.of_nat i * M) d))
         (seq 1 (n - 1)).


(** ** Statements about a poll *)

(** Polling once and once more: the engine has stalled on what the socket
    holds when the first poll leaves [download_size] alone, hands no fragment
    to the application and sends nothing, learns the firmware size at most
    and reports a contradicting total at most, and the second poll changes
    nothing and reports nothing. *)
Definition stalled (cfg : dfu_config) (d : dfu_client_object) (w : world)
    (total_size : Z) : Prop :=
  let once := exec (dfu_client_process cfg) (d, w) in
  let twice := exec (dfu_client_process cfg) once in
  download_size once.1 = download_size d
  /\ firmware_size once.1 = firmware_size_after (firmware_size d) total_size
  /\ status once.1 = (if size_mismatch (firmware_size d) total_size
                      then DFU_CLIENT_ERROR
                      else DFU_CLIENT_STATUS_DOWNLOAD_INPROGRESS)
  /\ callbacks (since w once.2)
     = (if size_mismatch (firmware_size d) total_size
        then [(DFU_CLIENT_EVT_ERROR, fragment_size d)] else [])
  /\ requests (since w once.2) = []
  /\ twice.1 = once.1
  /\ callbacks (since once.2 twice.2) = []
  /\ requests (since once.2 twice.2) = [].


(** ** Statements about connecting *)

(** An entry the loop of [httpc_connect] passes over: of another family, or
    not accepting the connection. *)
Definition passed_over (w : world) (family : Z) (a : addrinfo) : Prop :=
  sa_family (ai_addr a) = family ->
  reachable w (with_port (htons 80) (ai_addr a)) = false.

(** The connects refused on the way: one for each entry of the family. *)
Definition attempts (sock family : Z) (addrs : list addrinfo) : list io_event :=
  map (fun a => Connect sock (with_port (htons 80) (ai_addr a)) (-1))
    (List.filter (fun a => sa_family (ai_addr a) =? family) addrs).

(** The socket [socket()] gives, connected to [addr]. *)
Definition connected_to (addr : sockaddr) : socket :=
  {| rx := []; rx_error := None; rx_closed := false; peer := Some addr |}.

(** Disconnect, connect, download: the procedure the header gives for
    resuming a download. *)
Definition resume_download (cfg : dfu_config) (s : dfu_client_object * world)
  : dfu_client_object * world :=
  exec (dfu_client_download cfg)
    (exec dfu_client_connect (exec dfu_client_disconnect s)).

(** ** Statements about a socket without bytes *)

Definition socket_is_empty (w : world) (sock : Z) : Prop :=
  forall s, sockets w !! sock = Some s -> rx s = [].

(** What a [recv] on a descriptor without bytes means to a poll: nothing yet
    ([None]), or the status that goes with the error event. *)
Definition recv_failure (w : world) (sock : Z) : option Z :=
  match sockets w !! sock with
  | None => Some ENOTCONN
  | Some s =>
      match rx_error s with
      | Some e => if e =? EAGAIN then None else Some ENOTCONN
      | None => if rx_closed s then Some ECONNRESET else None
      end
  end.

(** The peer closes the connection; the connection breaks with [e]. *)
Definition peer_closes (sock : Z) (w : world) : world :=
  match sockets w !! sock with
  | Some s =>
      set_sockets
        (<[sock := {| rx := rx s; rx_error := rx_error s; rx_closed := true;
                      peer := peer s |}]> (sockets w)) w
  | None => w
  end.

Definition connection_breaks (sock e : Z) (w : world) : world :=
  match sockets w !! sock with
  | Some s =>
      set_sockets
        (<[sock := {| rx := rx s; rx_error := Some e; rx_closed := rx_closed s;
                      peer := peer s |}]> (sockets w)) w
  | None => w
  end.

(** ** Statements about a response that is not all there *)

(** What a poll that only looks adds to the log. *)
Definition peek_event (cfg : dfu_config) (d : dfu_client_object) (resp : bytes)
  : io_event :=
  Recv (fd d) (CONFIG_NRF_DFU_HTTP_MAX_RESPONSE_SIZE cfg) true (peek_len cfg resp).

(** The headers are there, the fragment is not, or not all of it: no blank
    line yet, or not [payload_size] bytes after it. *)
Definition fragment_is_short (cfg : dfu_config) (resp : bytes) (payload_size : Z)
  : Prop :=
  match p_payload_of (peeked cfg resp) with
  | None => True
  | Some p_payload =>
      payload_size <> Int.sub (peek_len cfg resp) (Z.of_nat p_payload)
  end.

(** The buffer holds a NUL, so that every scan of it, by [strstr] or by
    [atoi], ends inside it.  The response buffer does after a peek that did
    not fill it, or that read a NUL; after a peek that filled it with other
    bytes, [strstr] in the source runs on into what lies behind
    [resp_buf]. *)
Definition holds_nul (buf : bytes) : bool := existsb (Ascii.eqb NUL) buf.

(** Polling [n] times in a row. *)
Fixpoint polls (cfg : dfu_config) (n : nat) (s : dfu_client_object * world)
  : dfu_client_object * world :=
  match n with
  | O => s
  | S n' => polls cfg n' (exec (dfu_client_process cfg) s)
  end.

(** ** Statements about the fragment handed over *)

(** The object the application is handed with a fragment of [p] bytes at
    the offset [pp] of the response [resp]. *)
Definition handed (cfg : dfu_config) (d : dfu_client_object) (resp : bytes)
    (total : Z) (pp : nat) (p : Z) : dfu_client_object :=
  set_fragment (Some pp) p
    (set_firmware_size (firmware_size_after (firmware_size d) total)
       (set_resp_buf (peeked cfg resp) d)).

(** The bytes [fragment] points to, [fragment_size] of them. *)
Definition fragment_bytes (d : dfu_client_object) : bytes :=
  match fragment d with
  | Some p => take (Z.to_nat (fragment_size d)) (drop p (resp_buf d))
  | None => []
  end.

(** The socket of the session once [rxdata_flush] has read it, and what the
    flush adds to the log. *)
Definition flushed (cfg : dfu_config) (s : socket) : socket :=
  with_rx (drop (Z.to_nat (CONFIG_NRF_DFU_HTTP_MAX_RESPONSE_SIZE cfg)) (rx s)) s.

Definition flush_event (cfg : dfu_config) (d : dfu_client_object) (resp : bytes)
  : io_event :=
  Recv (fd d) (CONFIG_NRF_DFU_HTTP_MAX_RESPONSE_SIZE cfg) false (peek_len cfg resp).

Definition no_nul (s : bytes) : Prop := Forall (fun c => c <> NUL) s.

Definition is_digit (c : ascii) : Prop := exists k, 0 <= k <= 9 /\ c = digit_char k.

(** ** Statements about what an operation does to the world *)

(** The descriptor a socket call works on. *)
Definition descriptor_of (e : io_event) : option Z :=
  match e with
  | Connect sock _ _ | Close sock | Send sock _ _ _ | Recv sock _ _ _ => Some sock
  | _ => None
  end.

(** A socket call on one of the two descriptors [a] and [b], or no socket
    call on a descriptor at all. *)
Definition own (a b : Z) (e : io_event) : Prop :=
  match descriptor_of e with
  | Some sock => sock = a \/ sock = b
  | None => True
  end.

Definition before_send (a b : Z) (e : io_event) : Prop := not_send e /\ own a b e.

(** What an operation that began with the descriptor [a], in a world where
    [socket()] would give [b], has done since [w]: socket calls on [a] and
    [b] only and no [send], and then at most one [send], of the request for
    the fragment at [download_size], on the descriptor the object holds,
    which leaves the session in progress. *)
Definition one_request (cfg : dfu_config) (a b : Z) (w : world)
    (d' : dfu_client_object) (w' : world) : Prop :=
  exists w1,
    extends_by (before_send a b) w w1
    /\ (w' = w1
        \/ exists len r,
             w' = emit (Send (fd d') (request_bytes cfg d') len r) w1
             /\ status d' = DFU_CLIENT_STATUS_DOWNLOAD_INPROGRESS
             /\ (fd d' = a \/ fd d' = b)).

(** The two buffers have the sizes they are declared with. *)
Definition buffers_fit (cfg : dfu_config) (d : dfu_client_object) : Prop :=
  length (resp_buf d) = Z.to_nat (CONFIG_NRF_DFU_HTTP_MAX_RESPONSE_SIZE cfg)
  /\ length (req_buf d) = Z.to_nat (CONFIG_NRF_DFU_HTTP_MAX_REQUEST_SIZE cfg).

(** What the caller filled in is still there, and the buffers have not
    changed size. *)
Definition kept (cfg : dfu_config) (d d' : dfu_client_object) : Prop :=
  host d' = host d /\ resource d' = resource d /\ callback d' = callback d
  /\ (buffers_fit cfg d -> buffers_fit cfg d').

(** ** The packet data network helper

    [pdn_init_and_connect] and [pdn_disconnect] work on the sockets of the
    modem library ([nrf_socket.h]), which is not part of the sources: the
    three constants they pass are the fields of a [nrf_socket_h], and the
    modem is a table of open descriptors with the access point each one is
    connected to, and the access points the network accepts. *)

Record nrf_socket_h : Type := {
  NRF_AF_LTE : Z;
  NRF_SOCK_MGMT : Z;
  NRF_PROTO_PDN : Z
}.

Inductive nrf_event : Type :=
| Nrf_socket (family type protocol : Z) (ret : Z)
| Nrf_connect (sock : Z) (address : bytes) (address_len : Z) (ret : Z)
| Nrf_close (sock : Z) (ret : Z).

Record modem : Type := {
  pdn_sockets : gmap Z (option bytes);
  pdn_next_fd : Z;
  apn_accepted : bytes -> bool;
  nrf_log : list nrf_event
}.

Definition strlen (s : bytes) : Z := Z.of_nat (length (c_str s)).

(** [nrf_socket]; it fails once [pdn_next_fd] is negative. *)
Definition nrf_socket (family type protocol : Z) (m : modem) : Z * modem :=
  if pdn_next_fd m <? 0 then
    (-1, {| pdn_sockets := pdn_sockets m; pdn_next_fd := pdn_next_fd m;
            apn_accepted := apn_accepted m;
            nrf_log := nrf_log m ++ [Nrf_socket family type protocol (-1)] |})
  else
    (pdn_next_fd m,
     {| pdn_sockets := <[pdn_next_fd m := None]> (pdn_sockets m);
        pdn_next_fd := pdn_next_fd m + 1;
        apn_accepted := apn_accepted m;
        nrf_log := nrf_log m ++ [Nrf_socket family type protocol (pdn_next_fd m)] |}).

(** [nrf_connect(sock, address, address_len)]: the access point name is the
    first [address_len] bytes at [address]. *)
Definition nrf_connect (sock : Z) (address : bytes) (address_len : Z) (m : modem)
  : Z * modem :=
  let apn := take (Z.to_nat address_len) address in
  let ok := match pdn_sockets m !! sock with
            | Some _ => apn_accepted m apn
            | None => false
            end in
  (if ok then 0 else -1,
   {| pdn_sockets := if ok then <[sock := Some apn]> (pdn_sockets m)
                     else pdn_sockets m;
      pdn_next_fd := pdn_next_fd m;
      apn_accepted := apn_accepted m;
      nrf_log := nrf_log m
                 ++ [Nrf_connect sock address address_len (if ok then 0 else -1)] |}).

Definition nrf_close (sock : Z) (m : modem) : Z * modem :=
  let r := match pdn_sockets m !! sock with Some _ => 0 | None => -1 end in
  (r,
   {| pdn_sockets := delete sock (pdn_sockets m);
      pdn_next_fd := pdn_next_fd m;
      apn_accepted := apn_accepted m;
      nrf_log := nrf_log m ++ [Nrf_close sock r] |}).

(** [apn_name] is the memory the pointer leads to; the name ends at its
    first NUL. *)
Definition pdn_init_and_connect (h : nrf_socket_h) (apn_name : bytes) (m : modem)
  : Z * modem :=
  let '(pdn_fd, m) := nrf_socket (NRF_AF_LTE h) (NRF_SOCK_MGMT h) (NRF_PROTO_PDN h) m in
  if 0 <=? pdn_fd then
    let '(err, m) := nrf_connect pdn_fd apn_name (strlen apn_name) m in
    if negb (err =? 0) then (pdn_fd, (nrf_close pdn_fd m).2)
    else (pdn_fd, m)
  else (pdn_fd, m).

Definition pdn_disconnect (pdn_fd : Z) (m : modem) : modem :=
  (nrf_close pdn_fd m).2.

(** The descriptors [nrf_close] was called on when they were not open. *)
Fixpoint closes_of_nothing (l : list nrf_event) : list Z :=
  match l with
  | [] => []
  | Nrf_close sock r :: l' =>
      if r =? 0 then closes_of_nothing l' else sock :: closes_of_nothing l'
  | _ :: l' => closes_of_nothing l'
  end.

(** ** More of the test bench *)

Module Lab.

(** A name that resolves to three addresses: one of the other family, one
    that refuses the connection, and the server. *)
Definition v6_addr : sockaddr :=
  {| sa_family := AF_INET6; sin_port := 0; sin_addr := 1 |}.

Definition down_addr : sockaddr :=
  {| sa_family := AF_INET; sin_port := 0; sin_addr := 167772161 |}.

Definition three_addresses : list addrinfo :=
  [ {| ai_family := AF_INET6; ai_addr := v6_addr |};
    {| ai_family := AF_INET; ai_addr := down_addr |};
    {| ai_family := AF_INET; ai_addr := Bench.server_addr |} ].

Definition boot
    (app : Z -> list io_event -> dfu_client_object -> dfu_client_evt -> Z -> Z)
  : world :=
  {| sockets := ∅; next_fd := 3;
     resolver := fun _ _ _ _ => (0, three_addresses);
     reachable := fun a => sin_addr a =? sin_addr Bench.server_addr; errno := 0;
     application := app; log := [] |}.

Definition initialised : dfu_client_object :=
  (exec dfu_client_init (Bench.fresh, boot Bench.takes_all)).1.

(** The session of the bench with the first fragment taken. *)
Definition after_first : dfu_client_object * world :=
  Bench.answer Bench.r0_1023 (Bench.started Bench.takes_all).

(** The session of the bench, started, with [resp] in its socket. *)
Definition holds (resp : bytes) : dfu_client_object * world :=
  Bench.arrive resp (Bench.started Bench.takes_all).

(** The session of the bench, started, when the server hangs up, and when
    the connection breaks. *)
Definition hung_up : dfu_client_object * world :=
  ((Bench.started Bench.takes_all).1,
   peer_closes 3 (Bench.started Bench.takes_all).2).

Definition broken : dfu_client_object * world :=
  ((Bench.started Bench.takes_all).1,
   connection_breaks 3 ECONNRESET (Bench.started Bench.takes_all).2).

(** An application that refuses every fragment. *)
Definition refuses_frag (_ : Z) (_ : list io_event) (_ : dfu_client_object)
    (evt : dfu_client_evt) (_ : Z) : Z :=
  match evt with DFU_CLIENT_EVT_DOWNLOAD_FRAG => -1 | _ => 0 end.

(** The session of that application, started, with [resp] in its socket. *)
Definition refusing (resp : bytes) : dfu_client_object * world :=
  Bench.arrive resp (Bench.started refuses_frag).

(** The library built with a response buffer of 1024 bytes, which the
    answer to a request for 1024 bytes does not fit. *)
Definition cfg1024 : dfu_config :=
  {| CONFIG_NRF_DFU_HTTP_MAX_RESPONSE_SIZE := 1024;
     CONFIG_NRF_DFU_HTTP_MAX_REQUEST_SIZE := 256;
     CONFIG_NRF_DFU_HTTP_MAX_FRAGMENT_SIZE := 1024 |}.

(** The first answer as far as its [Content-Range] line; its first 600
    bytes. *)
Definition range_line_only : bytes :=
  lit "HTTP/1.1 206 Partial Content" ++ CRLF
  ++ lit "Content-Range: bytes 0-1023/2500" ++ CRLF.

Definition first_600 : bytes := take 600 Bench.r0_1023.

(** A full fragment whose bytes hold the word [close], sent with
    [Connection: keep-alive]: what stands before the header, between the
    header and the word, and after the word. *)
Definition before_connection : bytes :=
  lit "HTTP/1.1 206 Partial Content" ++ CRLF
  ++ lit "Content-Range: bytes 0-1023/2500" ++ CRLF.

Definition up_to_close : bytes :=
  lit "keep-alive" ++ CRLF ++ lit "Content-Length: 1024" ++ CRLF ++ CRLF
  ++ lit "never ".

Definition r0_1023_with_close : bytes :=
  before_connection ++ lit "Connection: " ++ up_to_close ++ lit "close"
  ++ Bench.firmware 1013.

(** A modem with no descriptor open that accepts one access point. *)
Definition nrf : nrf_socket_h :=
  {| NRF_AF_LTE := 102; NRF_SOCK_MGMT := 512; NRF_PROTO_PDN := 514 |}.

Definition modem0 : modem :=
  {| pdn_sockets := ∅; pdn_next_fd := 0;
     apn_accepted := fun apn => String.eqb (string_of_list_ascii apn) "iot.example";
     nrf_log := [] |}.

End Lab.

(** * Facts *)

(** ** C integers *)

Lemma wrap_in_range z : Int.in_range (Int.wrap z).
Proof.
  unfold Int.in_range, Int.wrap, Int.INT_MIN, Int.INT_MAX.
  Z.to_euclidean_division_equations. lia.
Qed.

Lemma wrap_id z : Int.in_range z -> Int.wrap z = z.
Proof.
  unfold Int.in_range, Int.wrap, Int.INT_MIN, Int.INT_MAX.
  Z.to_euclidean_division_equations. lia.
Qed.

Lemma add_exact a b : Int.in_range (a + b) -> Int.add a b = a + b.
Proof. apply wrap_id. Qed.

Lemma sub_exact a b : Int.in_range (a - b) -> Int.sub a b = a - b.
Proof. apply wrap_id. Qed.

(** Adding then subtracting the same [int] gives the first one back, also
    when the sum wrapped. *)
Lemma sub_add a b : Int.in_range a -> Int.sub (Int.add a b) b = a.
Proof.
  unfold Int.sub, Int.add, Int.in_range, Int.wrap, Int.INT_MIN, Int.INT_MAX.
  Z.to_euclidean_division_equations. lia.
Qed.

(** Without overflow the boundary test [download_size + payload_size ==
    firmware_size] is the equation it looks like. *)
Lemma boundary_test_exact dl p fs :
  0 <= dl <= Int.INT_MAX -> 0 <= p <= Int.INT_MAX -> -1 <= fs <= Int.INT_MAX ->
  Int.add dl p = fs <-> p = fs - dl.
Proof.
  unfold Int.add, Int.wrap, Int.INT_MAX.
  intros Hdl Hp Hfs. split; intros H.
  - revert H. Z.to_euclidean_division_equations. lia.
  - subst p. Z.to_euclidean_division_equations. lia.
Qed.

(** ** libc *)

Example atoi_reads_header_value :
  atoi (lit "2500" ++ CRLF) = 2500
  /\ atoi (lit " 1024-2047/2500") = 1024
  /\ atoi (lit "octet-stream") = 0
  /\ atoi (lit "-12x") = -12.
Proof. repeat split. Qed.

Example decimal_prints :
  decimal 0 = lit "0" /\ decimal 2047 = lit "2047" /\ decimal (-1) = lit "-1"
  /\ decimal Int.INT_MIN = lit "-2147483648".
Proof. repeat split. Qed.

Example strstr_finds :
  strstr (lit "Content-Length: 12") (lit "Length") = Some 8%nat
  /\ strstr (lit "abc") (lit "abd") = None
  /\ strstr ("a"%char :: NUL :: lit "abd") (lit "abd") = None.
Proof. repeat split. Qed.

Example htons_80 : htons 80 = 20480 /\ htons (htons 80) = 80.
Proof. split; reflexivity. Qed.

(** ** The log only grows *)

Lemma extends_refl P w : extends_by P w w.
Proof. exists []. split; [now rewrite app_nil_r | constructor]. Qed.

Lemma extends_trans P w1 w2 w3 :
  extends_by P w1 w2 -> extends_by P w2 w3 -> extends_by P w1 w3.
Proof.
  intros (e1 & H1 & F1) (e2 & H2 & F2). exists (e1 ++ e2). split.
  - rewrite H2, H1. now rewrite app_assoc.
  - apply Forall_app; auto.
Qed.

Lemma extends_emit P w w' e :
  extends_by P w w' -> P e -> extends_by P w (emit e w').
Proof.
  intros (evs & H & F) He. exists (evs ++ [e]). split.
  - simpl. rewrite H. now rewrite app_assoc.
  - apply Forall_app; split; auto.
Qed.

Lemma extends_same_log P w w1 w2 :
  log w2 = log w1 -> extends_by P w w1 -> extends_by P w w2.
Proof. intros E (evs & H & F). exists evs. now rewrite E. Qed.

Lemma extends_weaken (P Q : io_event -> Prop) w w' :
  (forall e, P e -> Q e) -> extends_by P w w' -> extends_by Q w w'.
Proof.
  intros I (evs & H & F). exists evs. split; auto.
  eapply Forall_impl; eauto.
Qed.

Lemma since_extends w w' evs :
  log w' = log w ++ evs -> since w w' = evs.
Proof. intros H. unfold since. rewrite H. now rewrite drop_app_length. Qed.

Lemma since_same w : since w w = [].
Proof. unfold since. apply drop_all. Qed.

Lemma extends_set_sockets P w w' v :
  extends_by P w w' -> extends_by P w (set_sockets v w').
Proof. now apply extends_same_log. Qed.

Lemma extends_set_next_fd P w w' v :
  extends_by P w w' -> extends_by P w (set_next_fd v w').
Proof. now apply extends_same_log. Qed.

Lemma extends_set_errno P w w' v :
  extends_by P w w' -> extends_by P w (set_errno v w').
Proof. now apply extends_same_log. Qed.

(** Closes a goal [extends_by P w w'] whose [w'] is [w] under a stack of
    [emit]s and field updates. *)
Ltac log_grows :=
  repeat first
    [ assumption
    | apply extends_refl
    | apply extends_emit; [ | solve [ simpl; auto ] ]
    | apply extends_set_sockets
    | apply extends_set_next_fd
    | apply extends_set_errno ].

(** ** What each system call and each helper adds to the log *)

Lemma sys_getaddrinfo_log P node service family proto w :
  (forall r, P (Getaddrinfo node service family proto r)) ->
  extends_by P w (sys_getaddrinfo node service family proto w).2.
Proof.
  intros HP. unfold sys_getaddrinfo.
  destruct (resolver w node service family proto) as [rc res]. simpl.
  log_grows.
Qed.

Lemma sys_socket_log P family proto w :
  (forall r, P (Socket family proto r)) ->
  extends_by P w (sys_socket family proto w).2.
Proof.
  intros HP. unfold sys_socket. destruct (next_fd w <? 0); simpl; log_grows.
Qed.

Lemma sys_connect_log P sock addr w :
  (forall r, P (Connect sock addr r)) ->
  extends_by P w (sys_connect sock addr w).2.
Proof.
  intros HP. unfold sys_connect.
  destruct (sockets w !! sock); [destruct (reachable w addr) | ]; simpl; log_grows.
Qed.

Lemma sys_close_log P sock w : P (Close sock) -> extends_by P w (sys_close sock w).
Proof. intros HP. unfold sys_close. log_grows. Qed.

Lemma sys_send_log P sock data len w :
  (forall r, P (Send sock data len r)) ->
  extends_by P w (sys_send sock data len w).2.
Proof.
  intros HP. unfold sys_send.
  destruct (sockets w !! sock) as [s|]; [destruct (peer s) | ]; simpl; log_grows.
Qed.

Lemma sys_recv_log P sock size peek w :
  (forall r, P (Recv sock size peek r)) ->
  extends_by P w (sys_recv sock size peek w).2.
Proof.
  intros HP. unfold sys_recv.
  destruct (sockets w !! sock) as [s|]; simpl; [ | log_grows ].
  destruct (rx s); simpl.
  - destruct (rx_error s); simpl; [ log_grows | ].
    destruct (rx_closed s); simpl; log_grows.
  - destruct peek; log_grows.
Qed.

Lemma connect_loop_log P sock family addrs rc w :
  (forall a r, P (Connect sock (with_port (htons 80) a) r)) ->
  extends_by P w (connect_loop sock family addrs rc w).2.
Proof.
  intros HP. revert rc w.
  induction addrs as [|addr rest IH]; intros rc w; simpl; [ log_grows | ].
  destruct (sa_family (ai_addr addr) =? family); [ | apply IH ].
  pose proof (sys_connect_log P sock (with_port (htons 80) (ai_addr addr)) w
                (HP (ai_addr addr))) as Hc.
  destruct (sys_connect sock (with_port (htons 80) (ai_addr addr)) w) as [rc' w'].
  simpl in Hc. destruct (rc' =? 0); simpl; [ exact Hc | ].
  eapply extends_trans; [ exact Hc | apply IH ].
Qed.

Lemma httpc_connect_log P host port family proto w :
  (forall n r, P (Getaddrinfo n port family proto r)) ->
  (forall r, P (Socket family proto r)) ->
  (forall sock a r, P (Connect sock (with_port (htons 80) a) r)) ->
  (forall sock, P (Close sock)) ->
  extends_by P w (httpc_connect host port family proto w).2.
Proof.
  intros Hg Hs Hc Hx. unfold httpc_connect.
  destruct host as [name|]; simpl; [ | log_grows ].
  pose proof (sys_getaddrinfo_log P name port family proto w (Hg name)) as H1.
  destruct (sys_getaddrinfo name port family proto w) as [[rc addrinf] w1].
  simpl in H1.
  destruct ((rc <? 0) || match addrinf with [] => true | _ => false end);
    simpl; [ exact H1 | ].
  pose proof (sys_socket_log P family proto w1 Hs) as H2.
  destruct (sys_socket family proto w1) as [sock w2]. simpl in H2.
  assert (H3 : extends_by P w2
                 (if 0 <=? sock then connect_loop sock family addrinf rc w2
                  else (rc, w2)).2).
  { destruct (0 <=? sock); simpl; [ apply connect_loop_log; auto | log_grows ]. }
  destruct (if 0 <=? sock then connect_loop sock family addrinf rc w2 else (rc, w2))
    as [rc' w3].
  simpl in H3.
  assert (H4 : extends_by P w w3) by (do 2 (eapply extends_trans; eauto)).
  destruct (rc' <? 0); simpl; [ | exact H4 ].
  eapply extends_trans; [ exact H4 | apply sys_close_log; auto ].
Qed.

(** Unfolds the plumbing of [M]. *)
Ltac run :=
  unfold bind, get, ret, update, get_errno, call_callback, recv_resp_buf, in_world;
  simpl.

Lemma sys_recv_app sock size peek w :
  application (sys_recv sock size peek w).2 = application w.
Proof.
  unfold sys_recv. destruct (sockets w !! sock) as [s|]; simpl; auto.
  destruct (rx s); simpl.
  - destruct (rx_error s); simpl; auto. destruct (rx_closed s); auto.
  - destruct peek; auto.
Qed.

(** [rxdata_flush] writes no field but [resp_buf]; it receives, and reports
    an error at most. *)
Lemma rxdata_flush_spec P cfg d w :
  (forall r, P (Recv (fd d) (CONFIG_NRF_DFU_HTTP_MAX_RESPONSE_SIZE cfg) false r)) ->
  (forall st n r, P (Callback DFU_CLIENT_EVT_ERROR st n r)) ->
  exists b w',
    rxdata_flush cfg d w = (tt, set_resp_buf b d, w')
    /\ extends_by P w w' /\ application w' = application w.
Proof.
  intros Hr Hc. unfold rxdata_flush. run.
  destruct (is_null (host d) || (callback d =? NULL)
            || (status d =? DFU_CLIENT_STATUS_IDLE)).
  - exists (resp_buf d), w. destruct d; simpl. repeat split; auto.
    apply extends_refl.
  - pose proof (sys_recv_log P (fd d) _ false w Hr) as Hl.
    pose proof (sys_recv_app (fd d) (CONFIG_NRF_DFU_HTTP_MAX_RESPONSE_SIZE cfg)
                  false w) as Ha.
    destruct (sys_recv (fd d) (CONFIG_NRF_DFU_HTTP_MAX_RESPONSE_SIZE cfg) false w)
      as [[n data] w1].
    simpl in *.
    destruct (n =? -1); simpl; [ destruct (errno w1 =? EAGAIN); simpl | ];
      eexists _, _; (split; [ reflexivity | ]); split; auto; log_grows.
Qed.

(** Closes [engine_ports e] for an event that shows its arguments. *)
Ltac ports_ok := repeat split; simpl; auto.

Lemma reconnect_ports d w : extends_by engine_ports w (reconnect d w).2.
Proof.
  unfold reconnect. run.
  pose proof (httpc_connect_log engine_ports (host d) None AF_INET IPPROTO_TCP
                (sys_close (fd d) w)) as H.
  destruct (httpc_connect (host d) None AF_INET IPPROTO_TCP (sys_close (fd d) w))
    as [sock w1].
  simpl in *.
  assert (extends_by engine_ports w w1).
  { eapply extends_trans; [ apply sys_close_log; ports_ok | ].
    apply H; intros; ports_ok. }
  destruct (sock <? 0); simpl; auto.
  apply extends_emit; auto. ports_ok.
Qed.

Lemma send_request_ports cfg d w :
  extends_by engine_ports w (send_request cfg d w).2.
Proof.
  unfold send_request. run.
  destruct (snprintf _ _ _) as [n buf]. run.
  destruct (0 <? n); run; [ | apply extends_refl ].
  match goal with |- context [sys_send ?a ?b ?c ?w] =>
    pose proof (sys_send_log engine_ports a b c w) as H;
    destruct (sys_send a b c w) as [r w1] end.
  simpl in *. apply H. intros; ports_ok.
Qed.

Lemma fragment_request_ports cfg flush close d w :
  extends_by engine_ports w (fragment_request cfg flush close d w).2.
Proof.
  unfold fragment_request. unfold bind at 1. unfold get at 1.
  destruct (is_null (host d) || (callback d =? NULL) || is_null (resource d));
    [ apply extends_refl | ].
  unfold bind at 1.
  assert (H1 : extends_by engine_ports w
                 ((if flush then rxdata_flush cfg else ret tt) d w).2).
  { destruct flush; [ | apply extends_refl ].
    destruct (rxdata_flush_spec engine_ports cfg d w) as (b & w' & E & H & _);
      try (intros; ports_ok).
    now rewrite E. }
  destruct ((if flush then rxdata_flush cfg else ret tt) d w) as [[[] d1] w1].
  simpl in H1. unfold bind at 1.
  assert (H2 : extends_by engine_ports w1
                 ((if close then reconnect else ret true) d1 w1).2).
  { destruct close; [ apply reconnect_ports | apply extends_refl ]. }
  destruct ((if close then reconnect else ret true) d1 w1) as [[go d2] w2].
  simpl in H2. destruct go; [ | simpl; eapply extends_trans; eauto ].
  eapply extends_trans; [ eapply extends_trans; eauto | apply send_request_ports ].
Qed.

Lemma dfu_client_connect_ports d w :
  extends_by engine_ports w (dfu_client_connect d w).2.
Proof.
  unfold dfu_client_connect. run.
  destruct (is_null (host d) || (callback d =? NULL)); [ apply extends_refl | ].
  destruct (negb (fd d =? -1) && (status d =? DFU_CLIENT_STATUS_CONNECTED));
    [ apply extends_refl | ].
  pose proof (httpc_connect_log engine_ports (host d) None AF_INET IPPROTO_TCP w) as H.
  destruct (httpc_connect (host d) None AF_INET IPPROTO_TCP w) as [sock w1].
  simpl in *. destruct (sock <? 0); simpl; apply H; intros; ports_ok.
Qed.


(** ** One poll, step by step *)

Arguments total_size_of : simpl never.
Arguments payload_size_of : simpl never.
Arguments p_payload_of : simpl never.
Arguments connection_resume_of : simpl never.
Arguments peeked : simpl never.
Arguments peek_len : simpl never.

(** Reads and writes of fields, of the object and of the world. *)
Ltac fields :=
  cbn [resp_buf req_buf fragment fragment_size fd firmware_size download_size
       status host resource callback
       set_resp_buf set_req_buf set_fragment set_fd set_firmware_size
       set_download_size set_status
       sockets next_fd resolver reachable errno application log
       set_sockets set_next_fd set_errno set_reachable emit
       fst snd] in *.

(** The first statement of a sequence. *)
Ltac step :=
  unfold bind at 1;
  first [ unfold get at 1 | unfold update at 1 | unfold ret at 1
        | unfold call_callback at 1 | idtac ];
  fields.

Ltac since_is :=
  first [ rewrite since_same
        | erewrite since_extends
            by (fields; rewrite <- ?app_assoc; reflexivity) ].

Lemma peek_len_pos cfg resp :
  0 < CONFIG_NRF_DFU_HTTP_MAX_RESPONSE_SIZE cfg -> resp <> [] ->
  0 < peek_len cfg resp.
Proof.
  intros HR Hne. unfold peek_len.
  destruct resp as [|c r]; [ congruence | ].
  destruct (Z.to_nat (CONFIG_NRF_DFU_HTTP_MAX_RESPONSE_SIZE cfg)) eqn:E; [ lia | ].
  simpl. lia.
Qed.

Lemma sys_recv_peek sock size w s :
  sockets w !! sock = Some s -> rx s <> [] ->
  sys_recv sock size true w =
    (Z.of_nat (length (take (Z.to_nat size) (rx s))), take (Z.to_nat size) (rx s),
     emit (Recv sock size true (Z.of_nat (length (take (Z.to_nat size) (rx s))))) w).
Proof.
  intros Hs Hne. unfold sys_recv. rewrite Hs.
  destruct (rx s); [ congruence | reflexivity ].
Qed.

(** With bytes waiting in the socket, a poll is [process_response] on what
    the peek stored. *)
Lemma process_peek cfg d w s :
  0 <= fd d -> status d = DFU_CLIENT_STATUS_DOWNLOAD_INPROGRESS ->
  0 < CONFIG_NRF_DFU_HTTP_MAX_RESPONSE_SIZE cfg ->
  sockets w !! fd d = Some s -> rx s <> [] ->
  dfu_client_process cfg d w =
    process_response cfg (peek_len cfg (rx s)) (set_resp_buf (peeked cfg (rx s)) d)
      (emit (Recv (fd d) (CONFIG_NRF_DFU_HTTP_MAX_RESPONSE_SIZE cfg) true
               (peek_len cfg (rx s))) w).
Proof.
  intros Hfd Hst HR Hs Hne.
  pose proof (peek_len_pos cfg (rx s) HR Hne) as Hlen.
  unfold dfu_client_process. run.
  destruct (Z.ltb_spec (fd d) 0); [ lia | ]. rewrite Hst. simpl.
  rewrite (sys_recv_peek _ _ _ _ Hs Hne). fold (peek_len cfg (rx s)).
  destruct (Z.eqb_spec (peek_len cfg (rx s)) (-1)); [ lia | ].
  destruct (Z.eqb_spec (peek_len cfg (rx s)) 0); [ lia | ].
  reflexivity.
Qed.

Lemma check_total_size_spec total d w :
  check_total_size total d w =
    (tt,
     (if size_mismatch (firmware_size d) total then set_status DFU_CLIENT_ERROR d
      else set_firmware_size (firmware_size_after (firmware_size d) total) d),
     (if size_mismatch (firmware_size d) total
      then emit (Callback DFU_CLIENT_EVT_ERROR EFAULT (fragment_size d)
                   (application w (callback d) (log w)
                      (set_status DFU_CLIENT_ERROR d) DFU_CLIENT_EVT_ERROR EFAULT)) w
      else w)).
Proof.
  unfold check_total_size, size_mismatch, firmware_size_after. run.
  destruct (total =? 0); simpl; [ now destruct d | ].
  destruct (firmware_size d =? -1); simpl; [ reflexivity | ].
  destruct (firmware_size d =? total); simpl; [ now destruct d | reflexivity ].
Qed.

Lemma check_total_size_sizes total d w :
  download_size (check_total_size total d w).1.2 = download_size d
  /\ firmware_size (check_total_size total d w).1.2
     = firmware_size_after (firmware_size d) total.
Proof.
  rewrite check_total_size_spec. unfold size_mismatch, firmware_size_after.
  destruct (Z.eqb_spec total 0); simpl; auto.
  destruct (Z.eqb_spec (firmware_size d) (-1)); simpl; auto.
  destruct (Z.eqb_spec (firmware_size d) total); simpl; auto.
Qed.

Lemma firmware_size_after_idem known total :
  firmware_size_after (firmware_size_after known total) total
  = firmware_size_after known total.
Proof.
  unfold firmware_size_after.
  destruct (Z.eqb_spec total 0); simpl; auto.
  destruct (Z.eqb_spec known (-1)); simpl; auto.
  - destruct (Z.eqb_spec total (-1)); auto.
  - destruct (Z.eqb_spec known (-1)); auto; lia.
Qed.

Lemma no_mismatch_after known total :
  size_mismatch (firmware_size_after known total) total = size_mismatch known total.
Proof.
  unfold firmware_size_after, size_mismatch.
  destruct (Z.eqb_spec total 0); simpl; auto.
  destruct (Z.eqb_spec known (-1)); simpl; auto.
  - subst. destruct (Z.eqb_spec total (-1)); simpl; auto.
    destruct (Z.eqb_spec total total); simpl; auto. lia.
  - destruct (Z.eqb_spec known (-1)); simpl; auto. lia.
Qed.

(** ** The sizes across the operations *)

(** Unfolds the plumbing of [M] and reads fields. *)
Ltac go :=
  unfold bind, get, update, ret, call_callback, get_errno, in_world in *;
  fields.

Lemma rxdata_flush_sizes cfg d w : same_sizes d (rxdata_flush cfg d w).1.2.
Proof.
  destruct (rxdata_flush_spec (fun _ => True) cfg d w) as (b & w' & E & _); auto.
  rewrite E. split; reflexivity.
Qed.

Lemma reconnect_sizes d w : same_sizes d (reconnect d w).1.2.
Proof.
  unfold reconnect. run.
  destruct (httpc_connect (host d) None AF_INET IPPROTO_TCP (sys_close (fd d) w))
    as [sock w1].
  destruct (sock <? 0); split; reflexivity.
Qed.

Lemma send_request_sizes cfg d w : same_sizes d (send_request cfg d w).1.2.
Proof.
  unfold send_request. run.
  destruct (snprintf _ _ _) as [n buf]. run.
  destruct (0 <? n); run; [ | split; reflexivity ].
  match goal with |- context [sys_send ?a ?b ?c ?w] =>
    destruct (sys_send a b c w) as [r w1] end.
  split; reflexivity.
Qed.

Lemma same_sizes_trans d1 d2 d3 :
  same_sizes d1 d2 -> same_sizes d2 d3 -> same_sizes d1 d3.
Proof. unfold same_sizes. intros [-> ->] [-> ->]. auto. Qed.

Lemma fragment_request_sizes cfg flush close d w :
  same_sizes d (fragment_request cfg flush close d w).1.2.
Proof.
  unfold fragment_request. unfold bind at 1. unfold get at 1.
  destruct (is_null (host d) || (callback d =? NULL) || is_null (resource d));
    [ split; reflexivity | ].
  unfold bind at 1.
  assert (H1 : same_sizes d ((if flush then rxdata_flush cfg else ret tt) d w).1.2).
  { destruct flush; [ apply rxdata_flush_sizes | split; reflexivity ]. }
  destruct ((if flush then rxdata_flush cfg else ret tt) d w) as [[[] d1] w1].
  simpl in H1. unfold bind at 1.
  assert (H2 : same_sizes d1 ((if close then reconnect else ret true) d1 w1).1.2).
  { destruct close; [ apply reconnect_sizes | split; reflexivity ]. }
  destruct ((if close then reconnect else ret true) d1 w1) as [[go_on d2] w2].
  simpl in H2. destruct go_on; [ | simpl; eapply same_sizes_trans; eauto ].
  eapply same_sizes_trans; [ eapply same_sizes_trans; eauto | apply send_request_sizes ].
Qed.

(** Replaces a call that leaves the sizes alone by its result. *)
Ltac call_sizes :=
  match goal with
  | |- context [fragment_request ?c ?f ?k ?d ?w] =>
      let H1 := fresh "Hdl" in let H2 := fresh "Hfs" in
      destruct (fragment_request_sizes c f k d w) as [H1 H2];
      destruct (fragment_request c f k d w) as [[? ?] ?]
  | |- context [rxdata_flush ?c ?d ?w] =>
      let H1 := fresh "Hdl" in let H2 := fresh "Hfs" in
      destruct (rxdata_flush_sizes c d w) as [H1 H2];
      destruct (rxdata_flush c d w) as [[? ?] ?]
  end; go.

Lemma fragment_taken_sizes cfg p resume d w r d' w' :
  fragment_taken cfg p resume d w = (r, d', w') ->
  firmware_size d' = firmware_size d
  /\ (download_size d' = Int.add (download_size d) p
      \/ download_size d' = Int.sub (Int.add (download_size d) p) p).
Proof.
  unfold fragment_taken. go.
  destruct (Int.add (download_size d) p =? firmware_size d); go.
  - match goal with |- context [negb (?r =? 0)] => destruct (negb (r =? 0)) end; go.
    + call_sizes. intros [= _ <- _]. rewrite Hdl, Hfs. auto.
    + call_sizes. intros [= _ <- _]. rewrite Hdl, Hfs. auto.
  - call_sizes. intros [= _ <- _]. rewrite Hdl, Hfs. auto.
Qed.

(** The sizes after [process_response]: untouched, or the firmware size as
    [check_total_size] leaves it and the download size untouched, advanced by
    a fragment that the boundary test let through, or advanced and rolled
    back. *)
Lemma process_response_sizes cfg len d w r d' w' :
  process_response cfg len d w = (r, d', w') ->
  same_sizes d d'
  \/ exists total p,
       total_size_of (resp_buf d) = Some total
       /\ payload_size_of (resp_buf d) = Some p
       /\ firmware_size d' = firmware_size_after (firmware_size d) total
       /\ (download_size d' = download_size d
           \/ ((p = CONFIG_NRF_DFU_HTTP_MAX_FRAGMENT_SIZE cfg
                \/ Int.add (download_size d) p
                   = firmware_size_after (firmware_size d) total)
               /\ (download_size d' = Int.add (download_size d) p
                   \/ download_size d' = Int.sub (Int.add (download_size d) p) p))).
Proof.
  unfold process_response, same_sizes. go.
  destruct (total_size_of (resp_buf d)) as [total|]; go;
    [ | intros [= _ <- _]; auto ].
  destruct (payload_size_of (resp_buf d)) as [p|]; go;
    [ | intros [= _ <- _]; auto ].
  destruct (check_total_size_sizes total d w) as [Hdl Hfs].
  assert (Hb : resp_buf (check_total_size total d w).1.2 = resp_buf d).
  { rewrite check_total_size_spec. now destruct (size_mismatch _ _). }
  destruct (check_total_size total d w) as [[[] d1] w1]. go.
  intros H. right. exists total, p. split; auto. split; auto. revert H.
  rewrite Hdl, Hfs, Hb.
  destruct ((p =? CONFIG_NRF_DFU_HTTP_MAX_FRAGMENT_SIZE cfg)
            || (Int.add (download_size d) p
                =? firmware_size_after (firmware_size d) total)) eqn:Ec;
    [ | intros [= _ <- _]; rewrite Hdl, Hfs; auto ].
  assert (Hc : p = CONFIG_NRF_DFU_HTTP_MAX_FRAGMENT_SIZE cfg
               \/ Int.add (download_size d) p
                  = firmware_size_after (firmware_size d) total).
  { apply orb_true_iff in Ec. destruct Ec as [E|E]; apply Z.eqb_eq in E; auto. }
  destruct (p_payload_of (resp_buf d)) as [pp|];
    [ | intros [= _ <- _]; rewrite Hdl, Hfs; auto ].
  destruct (negb (p =? Int.sub len (Z.of_nat pp)));
    [ intros [= _ <- _]; rewrite Hdl, Hfs; auto | ].
  go.
  match goal with |- context [if ?r =? 0 then _ else _] => destruct (r =? 0) end.
  - intros H. apply fragment_taken_sizes in H. go. rewrite Hdl, Hfs in H.
    destruct H as [-> H]. split; auto.
  - go. intros [= _ <- _]. go. rewrite Hdl, Hfs; auto.
Qed.

Lemma sys_recv_cases sock size peek w n data w' :
  sys_recv sock size peek w = (n, data, w') ->
  n = -1 \/ n = 0
  \/ exists s, sockets w !! sock = Some s /\ data = take (Z.to_nat size) (rx s).
Proof.
  unfold sys_recv.
  destruct (sockets w !! sock) as [s|] eqn:Es; [ | intros [= <- _ _]; auto ].
  destruct (rx s) eqn:Er.
  - destruct (rx_error s); [ intros [= <- _ _]; auto | ].
    destruct (rx_closed s); intros [= <- _ _]; auto.
  - intros [= _ <- _]. right. right. exists s. rewrite Er. auto.
Qed.

Lemma process_sizes cfg d w r d' w' :
  dfu_client_process cfg d w = (r, d', w') ->
  same_sizes d d'
  \/ exists s total p,
       sockets w !! fd d = Some s
       /\ total_size_of (peeked cfg (rx s)) = Some total
       /\ payload_size_of (peeked cfg (rx s)) = Some p
       /\ firmware_size d' = firmware_size_after (firmware_size d) total
       /\ (download_size d' = download_size d
           \/ ((p = CONFIG_NRF_DFU_HTTP_MAX_FRAGMENT_SIZE cfg
                \/ Int.add (download_size d) p
                   = firmware_size_after (firmware_size d) total)
               /\ (download_size d' = Int.add (download_size d) p
                   \/ download_size d' = Int.sub (Int.add (download_size d) p) p))).
Proof.
  unfold dfu_client_process, same_sizes. go.
  destruct ((fd d <? 0) || negb (status d =? DFU_CLIENT_STATUS_DOWNLOAD_INPROGRESS));
    [ intros [= _ <- _]; auto | ].
  unfold recv_resp_buf. go.
  destruct (sys_recv (fd d) (CONFIG_NRF_DFU_HTTP_MAX_RESPONSE_SIZE cfg) true w)
    as [[n data] w1] eqn:Er.
  destruct (n =? -1) eqn:E1.
  { destruct (negb (errno w1 =? EAGAIN)); go; intros [= _ <- _]; auto. }
  destruct (n =? 0) eqn:E0.
  { go. intros [= _ <- _]; auto. }
  apply sys_recv_cases in Er.
  destruct Er as [->|[->|(s & Hs & ->)]]; try discriminate.
  intros H. apply process_response_sizes in H. unfold same_sizes in H. go.
  destruct H as [H|(total & p & Ht & Hp & H)]; auto.
  right. exists s, total, p. auto.
Qed.

Lemma total_size_in_range buf total :
  total_size_of buf = Some total -> Int.in_range total.
Proof.
  unfold total_size_of. destruct (strstr buf _); [ | discriminate ].
  destruct (strstr _ _); intros [= <-].
  - unfold atoi. destruct (skip_space _) as [|c r]; [ apply wrap_in_range | ].
    destruct c as [[] [] [] [] [] [] [] []]; apply wrap_in_range.
  - unfold Int.in_range, Int.INT_MIN, Int.INT_MAX. lia.
Qed.

Lemma firmware_size_after_in_range known buf total :
  Int.in_range known -> total_size_of buf = Some total ->
  Int.in_range (firmware_size_after known total).
Proof.
  intros Hk Ht. unfold firmware_size_after.
  destruct (_ && _); auto. eapply total_size_in_range; eauto.
Qed.

Lemma process_keeps_sizes_ok cfg d w :
  sizes_ok d -> honest_length cfg d w ->
  sizes_ok (exec (dfu_client_process cfg) (d, w)).1.
Proof.
  intros (Hdl & Hfs & Hb) Hh. unfold exec. fields.
  destruct (dfu_client_process cfg d w) as [[r d'] w'] eqn:E. fields.
  apply process_sizes in E.
  destruct E as [[E1 E2]|(s & total & p & Hs & Ht & Hp & E2 & E1)].
  { unfold sizes_ok. rewrite E1, E2. auto. }
  pose proof (firmware_size_after_in_range _ _ _ Hfs Ht) as Hr.
  specialize (Hh s total p Hs Ht Hp).
  unfold sizes_ok. rewrite E2. split; [ | split; auto ].
  - destruct E1 as [->|[_ [->| ->]]]; auto; apply wrap_in_range.
  - intros Hk. specialize (Hh Hk).
    unfold Int.in_range, Int.INT_MIN, Int.INT_MAX in *.
    destruct E1 as [->|[_ [->| ->]]]; [ lia | | ].
    + rewrite add_exact; unfold Int.in_range, Int.INT_MIN, Int.INT_MAX; lia.
    + rewrite sub_add; unfold Int.in_range, Int.INT_MIN, Int.INT_MAX; lia.
Qed.

Lemma api_call_keeps_sizes_ok cfg o d w :
  sizes_ok d -> (o = call_process -> honest_length cfg d w) ->
  sizes_ok (api_call cfg o (d, w)).1.
Proof.
  intros Hok Hh. destruct o; unfold api_call.
  - unfold exec, dfu_client_init. go.
    destruct (_ || _); go; exact Hok.
  - unfold exec, dfu_client_connect. go.
    destruct (_ || _); go; [ exact Hok | ].
    destruct (_ && _); go; [ exact Hok | ].
    destruct (httpc_connect _ _ _ _ _) as [sock w1].
    destruct (sock <? 0); go; exact Hok.
  - unfold exec, dfu_client_download. go.
    destruct (_ || _); go; [ exact Hok | ].
    match goal with |- context [fragment_request ?c ?f ?k ?d ?w] =>
      destruct (fragment_request_sizes c f k d w) as [H1 H2];
      destruct (fragment_request c f k d w) as [[? ?] ?] end.
    go. destruct Hok as (Hdl & Hfs & Hb). unfold sizes_ok. rewrite H1, H2. go.
    split; [ exact Hdl | split; [ | congruence ] ].
    unfold Int.in_range, Int.INT_MIN, Int.INT_MAX. lia.
  - apply process_keeps_sizes_ok; auto.
  - unfold exec, dfu_client_disconnect. go.
    destruct (fd d <? 0); go; exact Hok.
Qed.

(** ** Resuming on a new connection *)

Lemma not_send_other e :
  match e with Send _ _ _ _ => False | _ => True end -> not_send e.
Proof. destruct e; simpl; intros H; try contradiction; intros F; exact F. Qed.

(** Closes [not_send e] for an event that is visibly no [Send]. *)
Ltac quiet := apply not_send_other; exact I.

Lemma sys_send_emit sock data len w :
  (sys_send sock data len w).2
  = emit (Send sock data len (sys_send sock data len w).1) w.
Proof.
  unfold sys_send.
  destruct (sockets w !! sock) as [s|]; [ destruct (peer s) | ]; reflexivity.
Qed.

(** [send_request] sends the request for its object, last, or nothing. *)
Lemma send_request_shape cfg d w :
  let '(r, d', w') := send_request cfg d w in
  fd d' = fd d
  /\ (w' = w
      \/ exists len r', w' = emit (Send (fd d) (request_bytes cfg d') len r') w).
Proof.
  unfold send_request. go. unfold snprintf.
  destruct (Int.INT_MAX
            <? Z.of_nat
                 (length
                    (request_text cfg
                       (set_req_buf
                          (zeroed (CONFIG_NRF_DFU_HTTP_MAX_REQUEST_SIZE cfg)) d))))
    eqn:E.
  - go. simpl. auto.
  - match goal with |- context [if 0 <? ?sz then (?n, ?a) else (?n, ?b)] =>
      replace (if 0 <? sz then (n, a) else (n, b))
        with (n, if 0 <? sz then a else b)
        by (destruct (0 <? sz); reflexivity) end.
    go.
    match goal with |- context [if 0 <? ?n then _ else _] =>
      destruct (0 <? n) end; go; [ | auto ].
    match goal with |- context [sys_send ?a ?b ?c ?w] =>
      pose proof (sys_send_emit a b c w) as Hs;
      destruct (sys_send a b c w) as [r w1] end.
    go. split; auto. right. subst w1. eexists _, _. f_equal. f_equal.
    unfold request_bytes, snprintf. go. rewrite Nat2Z.id.
    change (request_text cfg (set_status _ (set_req_buf _ _)))
      with (request_text cfg d).
    change (request_text cfg (set_req_buf _ d)) with (request_text cfg d) in *.
    rewrite E. destruct (0 <? _); reflexivity.
Qed.

Lemma reconnect_shape d w :
  let '(go_on, d', w') := reconnect d w in
  exists sock w2,
    httpc_connect (host d) None AF_INET IPPROTO_TCP (sys_close (fd d) w) = (sock, w2)
    /\ fd d' = sock /\ host d' = host d
    /\ extends_by not_send w w'
    /\ (if go_on then 0 <= sock /\ w' = w2 else True).
Proof.
  unfold reconnect. go.
  pose proof (httpc_connect_log not_send (host d) None AF_INET IPPROTO_TCP
                (sys_close (fd d) w)) as H.
  destruct (httpc_connect (host d) None AF_INET IPPROTO_TCP (sys_close (fd d) w))
    as [sock w2].
  simpl in H.
  assert (Hx : extends_by not_send w w2).
  { eapply extends_trans; [ apply sys_close_log; quiet | ].
    apply H; intros; quiet. }
  destruct (Z.ltb_spec sock 0); go; exists sock, w2; repeat split; auto; try lia.
  apply extends_emit; auto. quiet.
Qed.

Lemma fragment_request_resumes cfg d0 w0 d w :
  extends_by not_send w0 w -> fd d = fd d0 -> host d = host d0 ->
  let '(r, d', w') := fragment_request cfg true true d w in
  extends_by not_send w0 w' \/ resumed cfg d0 w0 d' w'.
Proof.
  intros Hx Hfd Hh. unfold fragment_request. unfold bind at 1. unfold get at 1.
  destruct (is_null (host d) || (callback d =? NULL) || is_null (resource d));
    [ left; exact Hx | ].
  unfold bind at 1.
  destruct (rxdata_flush_spec not_send cfg d w) as (b & w1 & E & H1 & _);
    try (intros; quiet).
  rewrite E. unfold bind at 1.
  pose proof (reconnect_shape (set_resp_buf b d) w1) as H2.
  destruct (reconnect (set_resp_buf b d) w1) as [[go_on d2] w2].
  destruct H2 as (sock & w2' & Ec & Hfd2 & Hh2 & H2 & Hgo). fields.
  assert (Hx2 : extends_by not_send w0 w2) by (do 2 (eapply extends_trans; eauto)).
  destruct go_on; [ | left; exact Hx2 ].
  destruct Hgo as [Hsock ->].
  pose proof (send_request_shape cfg d2 w2') as H3.
  destruct (send_request cfg d2 w2') as [[r d3] w3].
  destruct H3 as [Hfd3 [-> | (len & r' & ->)]]; [ left; exact Hx2 | ].
  subst sock. right. exists w1, w2', (fd d2), len, r'.
  rewrite <- Hh, <- Hfd. repeat split; auto.
  eapply extends_trans; [ exact Hx | exact H1 ].
Qed.

(** ** A poll that takes a fragment *)

Lemma sys_recv_take sock size w s :
  sockets w !! sock = Some s -> rx s <> [] ->
  sys_recv sock size false w =
    (Z.of_nat (length (take (Z.to_nat size) (rx s))), take (Z.to_nat size) (rx s),
     emit (Recv sock size false (Z.of_nat (length (take (Z.to_nat size) (rx s)))))
       (set_sockets (<[sock := with_rx (drop (Z.to_nat size) (rx s)) s]> (sockets w)) w)).
Proof.
  intros Hs Hne. unfold sys_recv. rewrite Hs.
  destruct (rx s); [ congruence | reflexivity ].
Qed.

Lemma rxdata_flush_drains cfg d w s :
  host d <> None -> callback d <> NULL -> status d <> DFU_CLIENT_STATUS_IDLE ->
  sockets w !! fd d = Some s -> rx s <> [] ->
  rxdata_flush cfg d w =
    (tt, set_resp_buf (zeroed (CONFIG_NRF_DFU_HTTP_MAX_RESPONSE_SIZE cfg)) d,
     emit (Recv (fd d) (CONFIG_NRF_DFU_HTTP_MAX_RESPONSE_SIZE cfg) false
             (peek_len cfg (rx s)))
       (set_sockets
          (<[fd d := with_rx (drop (Z.to_nat (CONFIG_NRF_DFU_HTTP_MAX_RESPONSE_SIZE cfg))
                               (rx s)) s]> (sockets w)) w)).
Proof.
  intros Hh Hc Hst Hs Hne. unfold rxdata_flush. go.
  destruct (host d); [ | congruence ].
  destruct (Z.eqb_spec (callback d) NULL); [ congruence | ].
  destruct (Z.eqb_spec (status d) DFU_CLIENT_STATUS_IDLE); [ congruence | ].
  cbn [is_null orb]. unfold recv_resp_buf.
  rewrite (sys_recv_take _ _ _ _ Hs Hne). fold (peek_len cfg (rx s)).
  destruct (Z.eqb_spec (peek_len cfg (rx s)) (-1)); [ unfold peek_len in *; lia | ].
  go. reflexivity.
Qed.

Lemma request_text_length cfg d : (0 < length (request_text cfg d))%nat.
Proof. unfold request_text, REQUEST_TEMPLATE. rewrite length_app. simpl. lia. Qed.

Lemma send_request_sends cfg d w :
  Z.of_nat (length (request_text cfg d)) <= Int.INT_MAX ->
  exists buf r,
    send_request cfg d w =
      (r, set_status DFU_CLIENT_STATUS_DOWNLOAD_INPROGRESS (set_req_buf buf d),
       emit (Send (fd d) (request_bytes cfg d)
               (Z.of_nat (length (request_text cfg d))) r) w).
Proof.
  intros Hlen. pose proof (request_text_length cfg d) as Hpos.
  unfold send_request. go. unfold snprintf.
  change (request_text cfg (set_req_buf _ d)) with (request_text cfg d).
  destruct (Z.ltb_spec Int.INT_MAX (Z.of_nat (length (request_text cfg d)))); [ lia | ].
  match goal with |- context [if 0 <? ?sz then (?n, ?a) else (?n, ?b)] =>
    replace (if 0 <? sz then (n, a) else (n, b))
      with (n, if 0 <? sz then a else b)
      by (destruct (0 <? sz); reflexivity) end.
  go.
  destruct (Z.ltb_spec 0 (Z.of_nat (length (request_text cfg d)))); [ | lia ].
  go.
  match goal with |- context [sys_send ?a ?b ?c ?w] =>
    pose proof (sys_send_emit a b c w) as Hs;
    destruct (sys_send a b c w) as [r w1] end.
  fields. subst w1.
  assert (Hb : request_bytes cfg d
               = take (Z.to_nat (Z.of_nat (length (request_text cfg d))))
                   (if 0 <? CONFIG_NRF_DFU_HTTP_MAX_REQUEST_SIZE cfg
                    then store
                           (take (Z.to_nat (CONFIG_NRF_DFU_HTTP_MAX_REQUEST_SIZE cfg - 1))
                              (request_text cfg d) ++ [NUL])
                           (zeroed (CONFIG_NRF_DFU_HTTP_MAX_REQUEST_SIZE cfg))
                    else zeroed (CONFIG_NRF_DFU_HTTP_MAX_REQUEST_SIZE cfg))).
  { unfold request_bytes, snprintf. rewrite Nat2Z.id.
    destruct (Z.ltb_spec Int.INT_MAX (Z.of_nat (length (request_text cfg d))));
      [ lia | ].
    destruct (0 <? _); reflexivity. }
  rewrite Hb. eexists _, r. reflexivity.
Qed.

(** Flush with bytes waiting, no reconnect, request sent. *)
Lemma fragment_request_next cfg d w s :
  host d <> None -> resource d <> None -> callback d <> NULL ->
  status d <> DFU_CLIENT_STATUS_IDLE ->
  sockets w !! fd d = Some s -> rx s <> [] ->
  Z.of_nat (length (request_text cfg d)) <= Int.INT_MAX ->
  exists buf r,
    fragment_request cfg true false d w =
      (r,
       set_status DFU_CLIENT_STATUS_DOWNLOAD_INPROGRESS
         (set_req_buf buf
            (set_resp_buf (zeroed (CONFIG_NRF_DFU_HTTP_MAX_RESPONSE_SIZE cfg)) d)),
       emit (Send (fd d) (request_bytes cfg d)
               (Z.of_nat (length (request_text cfg d))) r)
         (emit (Recv (fd d) (CONFIG_NRF_DFU_HTTP_MAX_RESPONSE_SIZE cfg) false
                  (peek_len cfg (rx s)))
            (set_sockets
               (<[fd d := with_rx (drop (Z.to_nat (CONFIG_NRF_DFU_HTTP_MAX_RESPONSE_SIZE cfg))
                                    (rx s)) s]> (sockets w)) w))).
Proof.
  intros Hh Hr Hc Hst Hs Hne Hlen. unfold fragment_request. unfold bind at 1, get at 1.
  destruct (host d) eqn:Eh; [ | congruence ].
  destruct (resource d) eqn:Ere; [ | congruence ].
  destruct (Z.eqb_spec (callback d) NULL); [ congruence | ].
  cbn [is_null orb]. unfold bind at 1.
  rewrite (rxdata_flush_drains cfg d w s); auto; try congruence.
  unfold bind at 1. unfold ret at 1.
  match goal with |- context [send_request cfg ?dd ?ww] =>
    destruct (send_request_sends cfg dd ww) as (buf & r & E) end.
  { exact Hlen. }
  rewrite E. exists buf, r. reflexivity.
Qed.

Lemma process_takes cfg d w s total p resume :
  polling d ->
  0 < CONFIG_NRF_DFU_HTTP_MAX_RESPONSE_SIZE cfg ->
  sockets w !! fd d = Some s ->
  reads_fragment cfg (rx s) total p resume ->
  size_mismatch (firmware_size d) total = false ->
  p = CONFIG_NRF_DFU_HTTP_MAX_FRAGMENT_SIZE cfg
  \/ Int.add (download_size d) p = firmware_size_after (firmware_size d) total ->
  takes w (callback d) DFU_CLIENT_EVT_DOWNLOAD_FRAG ->
  exists p_payload,
    dfu_client_process cfg d w =
      fragment_taken cfg p resume
        (set_fragment (Some p_payload) p
           (set_firmware_size (firmware_size_after (firmware_size d) total)
              (set_resp_buf (peeked cfg (rx s)) d)))
        (emit (Callback DFU_CLIENT_EVT_DOWNLOAD_FRAG 0 p 0)
           (emit (Recv (fd d) (CONFIG_NRF_DFU_HTTP_MAX_RESPONSE_SIZE cfg) true
                    (peek_len cfg (rx s))) w)).
Proof.
  intros (Hh & Hr & Hc & Hfd & Hst) HR Hs (Hne & Ht & Hp & (pp & Hpp & Hlen) & Hres)
    Hm Hb Htakes.
  exists pp. rewrite (process_peek cfg d w s Hfd Hst HR Hs Hne).
  unfold process_response. go. rewrite Ht, Hp, check_total_size_spec. fields.
  rewrite Hm. fields.
  assert (Ec : (p =? CONFIG_NRF_DFU_HTTP_MAX_FRAGMENT_SIZE cfg)
               || (Int.add (download_size d) p
                   =? firmware_size_after (firmware_size d) total) = true).
  { apply orb_true_iff. destruct Hb as [E|E]; [ left | right ]; now apply Z.eqb_eq. }
  rewrite Ec, Hpp.
  destruct (Z.eqb_spec p (Int.sub (peek_len cfg (rx s)) (Z.of_nat pp))); [ | congruence ].
  cbn [negb]. rewrite Hres. go. rewrite !Htakes. reflexivity.
Qed.

(** ** A whole download *)

Lemma decimal_digits_length fuel n acc :
  (length (decimal_digits fuel n acc) <= fuel + length acc)%nat.
Proof.
  revert n acc. induction fuel as [|fuel IH]; intros n acc; simpl; [ lia | ].
  destruct (n <? 10); simpl; [ lia | ].
  etransitivity; [ apply IH | simpl; lia ].
Qed.

Lemma decimal_length n : (length (decimal n) <= 12)%nat.
Proof.
  unfold decimal. destruct (n <? 0); simpl.
  - pose proof (decimal_digits_length 11 (- n) []). simpl in *. lia.
  - pose proof (decimal_digits_length 11 n []). simpl in *. lia.
Qed.

Lemma request_text_fits cfg d :
  request_fits_int d -> Z.of_nat (length (request_text cfg d)) <= Int.INT_MAX.
Proof.
  unfold request_fits_int, request_text, REQUEST_TEMPLATE. intros H.
  rewrite !length_app.
  pose proof (decimal_length (download_size d)).
  pose proof (decimal_length (Int.sub (Int.add (download_size d)
                 (CONFIG_NRF_DFU_HTTP_MAX_FRAGMENT_SIZE cfg)) 1)).
  simpl length in *. lia.
Qed.

Lemma fragments_split M F :
  0 < M -> 0 < F ->
  1 <= fragments_of M F
  /\ 0 < last_fragment M F <= M
  /\ F = (fragments_of M F - 1) * M + last_fragment M F.
Proof.
  intros HM HF. unfold fragments_of, last_fragment.
  destruct (Z.eqb_spec (F mod M) 0) as [E|E].
  - assert (F = M * (F / M)) by (pose proof (Z.div_mod F M); lia).
    assert (0 < F / M) by nia.
    assert ((F + M - 1) / M = F / M).
    { symmetry. apply (Z.div_unique _ _ _ (M - 1)); lia. }
    lia.
  - pose proof (Z.mod_pos_bound F M HM).
    pose proof (Z.div_mod F M ltac:(lia)).
    assert (0 <= F / M) by (apply Z.div_pos; lia).
    assert ((F + M - 1) / M = F / M + 1).
    { symmetry. apply (Z.div_unique _ _ _ (F mod M - 1)); lia. }
    lia.
Qed.

Lemma deliver_to_empty sock resp w sk :
  sockets w !! sock = Some sk -> rx sk = [] ->
  sockets (deliver sock resp w) !! sock = Some (with_rx resp sk)
  /\ log (deliver sock resp w) = log w
  /\ application (deliver sock resp w) = application w.
Proof.
  intros Hs Hrx. unfold deliver. rewrite Hs, Hrx. fields.
  rewrite lookup_insert_eq. auto.
Qed.

Lemma request_bytes_same cfg d1 d2 :
  host d1 = host d2 -> resource d1 = resource d2 ->
  download_size d1 = download_size d2 ->
  request_bytes cfg d1 = request_bytes cfg d2.
Proof.
  intros Hh Hr Hd. unfold request_bytes, request_text. now rewrite Hh, Hr, Hd.
Qed.

Lemma size_after_known F fs :
  0 < F -> fs = F \/ fs = -1 ->
  size_mismatch fs F = false /\ firmware_size_after fs F = F.
Proof.
  intros HF [-> | ->]; unfold size_mismatch, firmware_size_after.
  - destruct (Z.eqb_spec F 0); [ lia | ]. destruct (Z.eqb_spec F (-1)); [ lia | ].
    rewrite Z.eqb_refl. auto.
  - destruct (Z.eqb_spec F 0); [ lia | ]. auto.
Qed.

Lemma callbacks_app l1 l2 : callbacks (l1 ++ l2) = callbacks l1 ++ callbacks l2.
Proof.
  induction l1 as [|e l1 IH]; [ reflexivity | ].
  destruct e; cbn [callbacks app]; rewrite IH; reflexivity.
Qed.

Lemma requests_app l1 l2 : requests (l1 ++ l2) = requests l1 ++ requests l2.
Proof.
  induction l1 as [|e l1 IH]; [ reflexivity | ].
  destruct e; cbn [requests app]; rewrite IH; reflexivity.
Qed.

Section Rounds.

Variable cfg : dfu_config.
Variable server : Z -> bytes.
Variable d0 : dfu_client_object.
Variable w0 : world.
Variable F : Z.

Let M := CONFIG_NRF_DFU_HTTP_MAX_FRAGMENT_SIZE cfg.

Hypothesis HM : 0 < CONFIG_NRF_DFU_HTTP_MAX_FRAGMENT_SIZE cfg.
Hypothesis HR : 0 < CONFIG_NRF_DFU_HTTP_MAX_RESPONSE_SIZE cfg.
Hypothesis HF : 0 < F <= Int.INT_MAX.
Hypothesis Hfits : request_fits_int d0.
Hypothesis Htakes : forall evt, takes w0 (callback d0) evt.
Hypothesis Hserves : serves cfg server F.

(** What every round starts with. *)
Lemma round_start a d w :
  in_flight d0 w0 F a (d, w) -> 0 <= a < F -> (M | a) ->
  let p := Z.min M (F - a) in
  exists pp sk,
    sockets (deliver (fd d) (server a) w) !! fd d = Some (with_rx (server a) sk)
    /\ server a <> []
    /\ drop (Z.to_nat (CONFIG_NRF_DFU_HTTP_MAX_RESPONSE_SIZE cfg)) (server a) = []
    /\ round cfg server (d, w)
       = exec (fragment_taken cfg p false)
           (set_fragment (Some pp) p
              (set_firmware_size F (set_resp_buf (peeked cfg (server a)) d)),
            emit (Callback DFU_CLIENT_EVT_DOWNLOAD_FRAG 0 p 0)
              (emit (Recv (fd d) (CONFIG_NRF_DFU_HTTP_MAX_RESPONSE_SIZE cfg) true
                       (peek_len cfg (server a)))
                 (deliver (fd d) (server a) w))).
Proof.
  intros (Hpoll & Hh & Hr & Hc & Hdl & Hfs & (sk & Hsk & Hrx) & Happ) Ha Hdiv p.
  fields.
  destruct (Hserves a Ha Hdiv) as [Hread Hlen].
  destruct (deliver_to_empty (fd d) (server a) w sk Hsk Hrx) as (Hs1 & Hl1 & Ha1).
  destruct (size_after_known F (firmware_size d) (proj1 HF) Hfs) as [Hm Hafter].
  assert (Hb : p = CONFIG_NRF_DFU_HTTP_MAX_FRAGMENT_SIZE cfg
               \/ Int.add (download_size d) p
                  = firmware_size_after (firmware_size d) F).
  { rewrite Hafter, Hdl. unfold p, M in *.
    destruct (Z.le_gt_cases (CONFIG_NRF_DFU_HTTP_MAX_FRAGMENT_SIZE cfg) (F - a)).
    - left. lia.
    - right. rewrite Z.min_r by lia. rewrite add_exact; [ lia | ].
      unfold Int.in_range, Int.INT_MIN, Int.INT_MAX in *. lia. }
  assert (Ht : takes (deliver (fd d) (server a) w) (callback d)
                 DFU_CLIENT_EVT_DOWNLOAD_FRAG).
  { intros l o st. rewrite Ha1, Happ, Hc. apply Htakes. }
  destruct (process_takes cfg d (deliver (fd d) (server a) w) (with_rx (server a) sk)
              F p false Hpoll HR Hs1 Hread Hm Hb Ht) as (pp & E).
  exists pp, sk. destruct Hread as (Hne & _).
  split; [ exact Hs1 | ]. split; [ exact Hne | ].
  split; [ apply drop_ge; lia | ].
  unfold round, exec. fields. rewrite Hdl, E. fields. rewrite Hafter.
  reflexivity.
Qed.

Lemma round_full a d w :
  in_flight d0 w0 F a (d, w) -> 0 <= a -> a + M < F -> (M | a) ->
  in_flight d0 w0 F (a + M) (round cfg server (d, w))
  /\ exists evs,
       log (round cfg server (d, w)).2 = log w ++ evs
       /\ callbacks evs = [(DFU_CLIENT_EVT_DOWNLOAD_FRAG, M)]
       /\ requests evs = [request_bytes cfg (set_download_size (a + M) d0)].
Proof.
  intros Hin Ha Hlt Hdiv.
  destruct (round_start a d w Hin ltac:(unfold M in *; lia) Hdiv)
    as (pp & sk & Hs1 & Hne & Hdrop & E).
  destruct Hin as ((Hh' & Hr' & Hc' & Hfd & Hst) & Hh & Hr & Hc & Hdl & Hfs
                   & (sk' & Hsk & Hrx) & Happ).
  fields.
  destruct (deliver_to_empty (fd d) (server a) w sk' Hsk Hrx) as (_ & Hl1 & Ha1).
  rewrite E. clear E. fold M. rewrite (Z.min_l M (F - a)) by lia.
  unfold exec, fragment_taken. go. rewrite Hdl.
  assert (Eadd : Int.add a M = a + M).
  { apply add_exact. unfold Int.in_range, Int.INT_MIN, Int.INT_MAX in *. lia. }
  rewrite Eadd. destruct (Z.eqb_spec (a + M) F); [ lia | ].
  match goal with |- context [fragment_request cfg true false ?dd ?ww] =>
    destruct (fragment_request_next cfg dd ww (with_rx (server a) sk))
      as (buf & r & E) end; fields; auto.
  { rewrite Hst. discriminate. }
  { apply request_text_fits. unfold request_fits_int in *. fields.
    now rewrite Hh, Hr. }
  rewrite E. fields. split.
  - unfold in_flight, polling. fields. rewrite lookup_insert_eq.
    repeat split; auto; try congruence.
    eexists. split; [ reflexivity | ]. exact Hdrop.
  - rewrite Hl1. eexists. split; [ rewrite <- !app_assoc; reflexivity | ].
    split; [ reflexivity | ]. cbn [requests app]. f_equal.
    apply request_bytes_same; fields; auto.
Qed.

Lemma round_last a d w :
  in_flight d0 w0 F a (d, w) -> 0 <= a < F -> F - a <= M -> (M | a) ->
  status (round cfg server (d, w)).1 = DFU_CLIENT_STATUS_DOWNLOAD_COMPLETE
  /\ download_size (round cfg server (d, w)).1 = F
  /\ exists evs,
       log (round cfg server (d, w)).2 = log w ++ evs
       /\ callbacks evs = [(DFU_CLIENT_EVT_DOWNLOAD_FRAG, F - a);
                           (DFU_CLIENT_EVT_DOWNLOAD_DONE, F - a)]
       /\ requests evs = [].
Proof.
  intros Hin Ha Hle Hdiv.
  destruct (round_start a d w Hin Ha Hdiv)
    as (pp & sk & Hs1 & Hne & Hdrop & E).
  destruct Hin as ((Hh' & Hr' & Hc' & Hfd & Hst) & Hh & Hr & Hc & Hdl & Hfs
                   & (sk' & Hsk & Hrx) & Happ).
  fields.
  destruct (deliver_to_empty (fd d) (server a) w sk' Hsk Hrx) as (_ & Hl1 & Ha1).
  rewrite E. clear E. fold M. rewrite (Z.min_r M (F - a)) by lia.
  unfold exec, fragment_taken. go. rewrite Hdl.
  assert (Eadd : Int.add a (F - a) = F).
  { rewrite add_exact; [ lia | ].
    unfold Int.in_range, Int.INT_MIN, Int.INT_MAX in *. lia. }
  rewrite Eadd, Z.eqb_refl. go.
  rewrite Ha1, Happ, Hc, (Htakes DFU_CLIENT_EVT_DOWNLOAD_DONE).
  cbn [Z.eqb negb].
  match goal with |- context [rxdata_flush cfg ?dd ?ww] =>
    rewrite (rxdata_flush_drains cfg dd ww (with_rx (server a) sk)) end;
    fields; auto; try discriminate.
  repeat split; auto.
  rewrite Hl1. eexists. split; [ rewrite <- !app_assoc; reflexivity | ].
  split; reflexivity.
Qed.

Lemma rounds_from m :
  forall a d w L,
    in_flight d0 w0 F a (d, w) -> 0 <= a -> (M | a) ->
    F = a + Z.of_nat m * M + L -> 0 < L <= M ->
    status (download_rounds cfg server (S m) (d, w)).1
    = DFU_CLIENT_STATUS_DOWNLOAD_COMPLETE
    /\ download_size (download_rounds cfg server (S m) (d, w)).1 = F
    /\ (forall j, (j <= m)%nat ->
          download_size (download_rounds cfg server j (d, w)).1
          = a + Z.of_nat j * M)
    /\ exists evs,
         log (download_rounds cfg server (S m) (d, w)).2 = log w ++ evs
         /\ callbacks evs
            = repeat (DFU_CLIENT_EVT_DOWNLOAD_FRAG, M) m
              ++ [(DFU_CLIENT_EVT_DOWNLOAD_FRAG, L); (DFU_CLIENT_EVT_DOWNLOAD_DONE, L)]
         /\ requests evs
            = map (fun i => request_bytes cfg
                              (set_download_size (a + Z.of_nat i * M) d0))
                (seq 1 m).
Proof.
  induction m as [|m IH]; intros a d w L Hin Ha Hdiv HFa HL.
  - cbn [download_rounds].
    destruct (round_last a d w Hin ltac:(lia) ltac:(lia) Hdiv)
      as (Hst & Hdl & evs & Hlog & Hcb & Hrq).
    replace (F - a) with L in Hcb by lia.
    split; [ exact Hst | ]. split; [ exact Hdl | ]. split.
    + intros j Hj. assert (j = O) by lia. subst j. cbn [download_rounds].
      destruct Hin as (_ & _ & _ & _ & Hd & _). fields. lia.
    + exists evs. auto.
  - assert (Hlt : a + M < F) by lia.
    destruct (round_full a d w Hin Ha Hlt Hdiv) as (Hin1 & evs1 & Hlog1 & Hcb1 & Hrq1).
    destruct (round cfg server (d, w)) as [d1 w1] eqn:Er.
    assert (Hdiv1 : (M | a + M)) by (apply Z.divide_add_r; [ exact Hdiv | apply Z.divide_refl ]).
    destruct (IH (a + M) d1 w1 L Hin1 ltac:(lia) Hdiv1 ltac:(lia) HL)
      as (Hst & Hdl & Hprog & evs2 & Hlog2 & Hcb2 & Hrq2).
    change (download_rounds cfg server (S (S m)) (d, w))
      with (download_rounds cfg server (S m) (round cfg server (d, w))).
    rewrite Er. split; [ exact Hst | ]. split; [ exact Hdl | ]. split.
    + intros [|j] Hj.
      * cbn [download_rounds]. destruct Hin as (_ & _ & _ & _ & Hd & _). fields. lia.
      * cbn [download_rounds]. rewrite Er, (Hprog j) by lia. lia.
    + exists (evs1 ++ evs2). fields. split.
      * rewrite Hlog2, Hlog1. now rewrite app_assoc.
      * rewrite callbacks_app, requests_app, Hcb1, Hcb2, Hrq1, Hrq2.
        split; [ reflexivity | ].
        cbn [seq map app]. f_equal; [ f_equal; f_equal; lia | ].
        rewrite <- (seq_shift m 1), map_map. apply map_ext. intros i.
        f_equal. f_equal. lia.
Qed.

End Rounds.

Lemma deliver_log sock resp w : log (deliver sock resp w) = log w.
Proof. unfold deliver. now destruct (sockets w !! sock). Qed.

Lemma round_when_not_in_progress cfg server s :
  status s.1 <> DFU_CLIENT_STATUS_DOWNLOAD_INPROGRESS ->
  status (round cfg server s).1 = status s.1
  /\ log (round cfg server s).2 = log s.2.
Proof.
  intros Hst. destruct s as [d w]. unfold round, exec, dfu_client_process. go.
  destruct (Z.eqb_spec (status d) DFU_CLIENT_STATUS_DOWNLOAD_INPROGRESS);
    [ congruence | ].
  rewrite orb_true_r. fields. split; [ reflexivity | apply deliver_log ].
Qed.

Lemma rounds_when_not_in_progress cfg server k s :
  status s.1 <> DFU_CLIENT_STATUS_DOWNLOAD_INPROGRESS ->
  log (download_rounds cfg server k s).2 = log s.2.
Proof.
  revert s. induction k as [|k IH]; intros s Hst; [ reflexivity | ].
  cbn [download_rounds].
  destruct (round_when_not_in_progress cfg server s Hst) as [E1 E2].
  rewrite IH; [ exact E2 | congruence ].
Qed.

Lemma download_rounds_add cfg server n k s :
  download_rounds cfg server (n + k) s
  = download_rounds cfg server k (download_rounds cfg server n s).
Proof. revert s. induction n as [|n IH]; intros s; [ reflexivity | apply IH ]. Qed.


(** The stall when the response has a [Content-Range] header. *)
Lemma stalls_with_content_range cfg d w s total p :
  0 <= fd d ->
  status d = DFU_CLIENT_STATUS_DOWNLOAD_INPROGRESS ->
  0 < CONFIG_NRF_DFU_HTTP_MAX_RESPONSE_SIZE cfg ->
  sockets w !! fd d = Some s ->
  rx s <> [] ->
  total_size_of (peeked cfg (rx s)) = Some total ->
  payload_size_of (peeked cfg (rx s)) = Some p ->
  p <> CONFIG_NRF_DFU_HTTP_MAX_FRAGMENT_SIZE cfg ->
  Int.add (download_size d) p <> firmware_size_after (firmware_size d) total ->
  stalled cfg d w total.
Proof.
  intros Hfd Hst HR Hs Hne Ht Hp Hmax Hrem. unfold stalled.
  set (once := exec (dfu_client_process cfg) (d, w)).
  set (twice := exec (dfu_client_process cfg) once).
  set (d0 := set_resp_buf (peeked cfg (rx s)) d).
  set (w0 := emit (Recv (fd d) (CONFIG_NRF_DFU_HTTP_MAX_RESPONSE_SIZE cfg) true
               (peek_len cfg (rx s))) w).
  assert (E1 : once = ((check_total_size total d0 w0).1.2,
                       (check_total_size total d0 w0).2)).
  { unfold once, exec. fields.
    rewrite (process_peek cfg d w s Hfd Hst HR Hs Hne). fold d0 w0.
    unfold process_response. step. unfold d0 at 1 2. fields.
    rewrite Ht, Hp. unfold bind at 1.
    destruct (check_total_size_sizes total d0 w0) as [Hdl Hfs].
    destruct (check_total_size total d0 w0) as [[[] d1] w1]. step.
    destruct (Z.eqb_spec p (CONFIG_NRF_DFU_HTTP_MAX_FRAGMENT_SIZE cfg));
      [ congruence | ].
    simpl orb. rewrite Hdl, Hfs. unfold d0. fields.
    destruct (Z.eqb_spec (Int.add (download_size d) p)
                (firmware_size_after (firmware_size d) total)); [ congruence | ].
    reflexivity. }
  rewrite check_total_size_spec in E1. unfold d0, w0 in E1. fields.
  destruct (size_mismatch (firmware_size d) total) eqn:Em.
  - (* the total contradicts the known size *)
    assert (E2 : twice = once).
    { unfold twice. rewrite E1. unfold exec, dfu_client_process. fields. run.
      destruct (fd d <? 0); reflexivity. }
    rewrite E2, E1. fields.
    assert (Ha : firmware_size_after (firmware_size d) total = firmware_size d).
    { unfold size_mismatch, firmware_size_after in *.
      destruct (total =? 0); simpl in *; auto.
      destruct (firmware_size d =? -1); simpl in *; auto. discriminate. }
    repeat split; auto; since_is; reflexivity.
  - set (d1 := set_firmware_size (firmware_size_after (firmware_size d) total)
                 (set_resp_buf (peeked cfg (rx s)) d)) in *.
    set (w1 := emit _ w) in *.
    assert (E2 : twice =
                 (d1, emit (Recv (fd d) (CONFIG_NRF_DFU_HTTP_MAX_RESPONSE_SIZE cfg)
                              true (peek_len cfg (rx s))) w1)).
    { unfold twice. rewrite E1. unfold exec. fields.
      rewrite (process_peek cfg d1 w1 s Hfd Hst HR Hs Hne).
      unfold process_response. step. rewrite Ht, Hp. unfold bind at 1.
      rewrite check_total_size_spec. unfold d1 at 1 2 3 4 5. fields.
      rewrite no_mismatch_after, Em, firmware_size_after_idem.
      step.
      destruct (Z.eqb_spec p (CONFIG_NRF_DFU_HTTP_MAX_FRAGMENT_SIZE cfg));
        [ congruence | ].
      destruct (Z.eqb_spec (Int.add (download_size d) p)
                  (firmware_size_after (firmware_size d) total)); [ congruence | ].
      simpl. unfold d1. destruct d; reflexivity. }
    rewrite E2, E1. fields.
    repeat split; auto; unfold w1; since_is; reflexivity.
Qed.


(** The stall when the response has no [Content-Range] header: the poll
    returns right after the peek. *)
Lemma stalls_without_content_range cfg d w s :
  0 <= fd d ->
  status d = DFU_CLIENT_STATUS_DOWNLOAD_INPROGRESS ->
  0 < CONFIG_NRF_DFU_HTTP_MAX_RESPONSE_SIZE cfg ->
  sockets w !! fd d = Some s ->
  rx s <> [] ->
  total_size_of (peeked cfg (rx s)) = None ->
  stalled cfg d w 0.
Proof.
  intros Hfd Hst HR Hs Hne Ht. unfold stalled.
  set (d1 := set_resp_buf (peeked cfg (rx s)) d).
  set (w1 := emit (Recv (fd d) (CONFIG_NRF_DFU_HTTP_MAX_RESPONSE_SIZE cfg) true
               (peek_len cfg (rx s))) w).
  assert (E : forall d' w',
             fd d' = fd d -> status d' = status d -> sockets w' !! fd d = Some s ->
             exec (dfu_client_process cfg) (d', w')
             = (set_resp_buf (peeked cfg (rx s)) d',
                emit (Recv (fd d) (CONFIG_NRF_DFU_HTTP_MAX_RESPONSE_SIZE cfg) true
                        (peek_len cfg (rx s))) w')).
  { intros d' w' Hfd' Hst' Hs'. unfold exec. fields.
    rewrite (process_peek cfg d' w' s); try congruence.
    unfold process_response. go. rewrite Ht, Hfd'. reflexivity. }
  rewrite (E d w eq_refl eq_refl Hs). fold d1 w1.
  rewrite (E d1 w1 eq_refl eq_refl Hs).
  unfold firmware_size_after, size_mismatch, d1, w1. fields. cbn.
  repeat split; auto; try (since_is; reflexivity).
  all: rewrite drop_app_length; reflexivity.
Qed.

(** With a close directive in the response, no request leaves before the
    connection has been replaced. *)
Lemma close_directive_no_send_before_reconnect cfg d w s :
  sockets w !! fd d = Some s ->
  connection_resume_of (peeked cfg (rx s)) = true ->
  let '(_, d', w') := dfu_client_process cfg d w in
  extends_by not_send w w' \/ resumed cfg d w d' w'.
Proof.
  intros Hs Hclose. unfold dfu_client_process. go.
  destruct ((fd d <? 0) || negb (status d =? DFU_CLIENT_STATUS_DOWNLOAD_INPROGRESS));
    [ left; apply extends_refl | ].
  unfold recv_resp_buf. go.
  pose proof (sys_recv_log not_send (fd d)
                (CONFIG_NRF_DFU_HTTP_MAX_RESPONSE_SIZE cfg) true w
                ltac:(intros; quiet)) as Hl.
  destruct (sys_recv (fd d) (CONFIG_NRF_DFU_HTTP_MAX_RESPONSE_SIZE cfg) true w)
    as [[n data] w1] eqn:Er.
  fields.
  destruct (n =? -1) eqn:E1.
  { destruct (negb (errno w1 =? EAGAIN)); go; left; auto.
    apply extends_emit; auto. quiet. }
  destruct (n =? 0) eqn:E0.
  { go. left. apply extends_emit; auto. quiet. }
  apply sys_recv_cases in Er.
  destruct Er as [->|[->|(s' & Hs' & ->)]]; try discriminate.
  assert (s' = s) by congruence. subst s'.
  change (store _ _) with (peeked cfg (rx s)).
  unfold process_response. go.
  destruct (total_size_of (peeked cfg (rx s))) as [total|]; [ | left; exact Hl ].
  destruct (payload_size_of (peeked cfg (rx s))) as [p|]; [ | left; exact Hl ].
  rewrite check_total_size_spec.
  set (d1 := if size_mismatch _ _ then _ else _).
  set (w2 := if size_mismatch _ _ then _ else _).
  assert (Hd1 : fd d1 = fd d /\ host d1 = host d /\ resp_buf d1 = peeked cfg (rx s)).
  { unfold d1. destruct (size_mismatch _ _); auto. }
  assert (Hw2 : extends_by not_send w w2).
  { unfold w2. destruct (size_mismatch _ _); auto.
    apply extends_emit; auto. quiet. }
  clearbody d1 w2. destruct Hd1 as (Hfd1 & Hh1 & Hb1).
  destruct (_ || _); [ | left; exact Hw2 ].
  rewrite Hb1.
  destruct (p_payload_of (peeked cfg (rx s))) as [pp|]; [ | left; exact Hw2 ].
  destruct (negb _); [ left; exact Hw2 | ].
  rewrite Hclose.
  match goal with |- context [if ?r =? 0 then _ else _] => destruct (r =? 0) end.
  2:{ left. apply extends_emit; auto. quiet. }
  unfold fragment_taken. go.
  set (w3 := emit (Callback DFU_CLIENT_EVT_DOWNLOAD_FRAG _ _ _) w2).
  assert (Hw3 : extends_by not_send w w3) by (apply extends_emit; auto; quiet).
  clearbody w3.
  destruct (Int.add (download_size d1) p =? firmware_size d1); cbv beta.
  - match goal with |- context [if negb (?r =? 0) then _ else _] =>
      destruct (negb (r =? 0)) end; cbv beta.
    + match goal with |- context [fragment_request cfg true true ?dd ?ww] =>
        pose proof (fragment_request_resumes cfg d w dd ww) as Hf;
        destruct (fragment_request cfg true true dd ww) as [[r3 d3] w4] end.
      apply Hf; auto. apply extends_emit; auto. quiet.
    + match goal with |- context [rxdata_flush cfg ?dd ?ww] =>
        destruct (rxdata_flush_spec not_send cfg dd ww) as (b & w4 & E & H4 & _);
          try (intros; quiet);
        rewrite E end.
      left. eapply extends_trans; [ | exact H4 ].
      apply extends_emit; auto. quiet.
  - match goal with |- context [fragment_request cfg true true ?dd ?ww] =>
        pose proof (fragment_request_resumes cfg d w dd ww) as Hf;
        destruct (fragment_request cfg true true dd ww) as [[r3 d3] w4] end.
    apply Hf; auto.
Qed.


Lemma fragment_request_reconnects cfg d0 w0 d w :
  extends_by not_send w0 w -> fd d = fd d0 -> host d = host d0 ->
  host d <> None -> resource d <> None -> callback d <> NULL ->
  request_fits_int d ->
  let '(r, d', w') := fragment_request cfg true true d w in
  reconnected cfg d0 w0 d' w'.
Proof.
  intros Hx Hfd Hh Hh' Hr' Hc' Hfits.
  unfold fragment_request. unfold bind at 1, get at 1.
  destruct (host d) as [name|] eqn:Eh; [ | congruence ].
  destruct (resource d) eqn:Ere; [ | congruence ].
  destruct (Z.eqb_spec (callback d) NULL); [ congruence | ].
  cbn [is_null orb]. unfold bind at 1.
  destruct (rxdata_flush_spec not_send cfg d w) as (b & w1 & E & H1 & _);
    try (intros; quiet).
  rewrite E. unfold bind at 1.
  unfold reconnect. go.
  pose proof (httpc_connect_log not_send (host d) None AF_INET IPPROTO_TCP
                (sys_close (fd d) w1)
                ltac:(intros; quiet) ltac:(intros; quiet) ltac:(intros; quiet)
                ltac:(intros; quiet)) as H2.
  rewrite Eh in *.
  destruct (httpc_connect (Some name) None AF_INET IPPROTO_TCP (sys_close (fd d) w1))
    as [sock w2] eqn:Ec.
  fields.
  assert (Hx1 : extends_by not_send w0 w1) by (eapply extends_trans; eauto).
  assert (Hx2 : extends_by not_send w0 w2).
  { eapply extends_trans; [ exact Hx1 | ].
    eapply extends_trans; [ apply sys_close_log; quiet | exact H2 ]. }
  destruct (Z.ltb_spec sock 0) as [Hneg|Hpos]; go.
  - exists w1, sock, w2. rewrite <- Hh, <- Hfd. repeat split; auto.
    destruct (Z.ltb_spec sock 0); [ | lia ].
    apply extends_emit; auto. quiet.
  - match goal with |- context [send_request cfg ?dd ?ww] =>
      destruct (send_request_sends cfg dd ww) as (buf & r & E3) end.
    { apply request_text_fits. unfold request_fits_int in *. fields.
      now rewrite Eh, Ere in *. }
    rewrite E3. exists w1, sock, w2. rewrite <- Hh, <- Hfd.
    repeat split; auto.
    destruct (Z.ltb_spec sock 0); [ lia | ].
    eexists _, r. fields. reflexivity.
Qed.

Lemma taken_fragment_reconnects cfg d w s total p :
  polling d ->
  0 < CONFIG_NRF_DFU_HTTP_MAX_RESPONSE_SIZE cfg ->
  request_fits_int d ->
  sockets w !! fd d = Some s ->
  reads_fragment cfg (rx s) total p true ->
  size_mismatch (firmware_size d) total = false ->
  p = CONFIG_NRF_DFU_HTTP_MAX_FRAGMENT_SIZE cfg
  \/ Int.add (download_size d) p = firmware_size_after (firmware_size d) total ->
  takes w (callback d) DFU_CLIENT_EVT_DOWNLOAD_FRAG ->
  Int.add (download_size d) p <> firmware_size_after (firmware_size d) total
  \/ refuses w (callback d) DFU_CLIENT_EVT_DOWNLOAD_DONE ->
  let '(_, d', w') := dfu_client_process cfg d w in
  reconnected cfg d w d' w'.
Proof.
  intros Hpoll HR Hfits Hs Hread Hm Hb Htakes Hnext.
  destruct (process_takes cfg d w s total p true Hpoll HR Hs Hread Hm Hb Htakes)
    as (pp & E).
  destruct Hpoll as (Hh & Hr & Hc & Hfd & Hst).
  rewrite E. clear E. unfold fragment_taken. go.
  set (w1 := emit (Callback DFU_CLIENT_EVT_DOWNLOAD_FRAG 0 p 0) _).
  assert (Hw1 : extends_by not_send w w1).
  { unfold w1. apply extends_emit; [ apply extends_emit | ];
      [ apply extends_refl | quiet | quiet ]. }
  destruct (Z.eqb_spec (Int.add (download_size d) p)
              (firmware_size_after (firmware_size d) total)) as [Efin|Efin].
  - destruct Hnext as [Hnext|Hrefuses]; [ congruence | ].
    unfold w1 at 1 2. fields.
    match goal with |- context [negb (?r =? 0)] =>
      destruct (Z.eqb_spec r 0) as [E0|_];
        [ exfalso; revert E0; apply Hrefuses | ] end.
    cbn [negb].
    match goal with |- context [fragment_request cfg true true ?dd ?ww] =>
      pose proof (fragment_request_reconnects cfg d w dd ww) as Hf;
      destruct (fragment_request cfg true true dd ww) as [[r3 d3] w4] end.
    apply Hf; auto. apply extends_emit; auto. quiet.
  - match goal with |- context [fragment_request cfg true true ?dd ?ww] =>
      pose proof (fragment_request_reconnects cfg d w dd ww) as Hf;
      destruct (fragment_request cfg true true dd ww) as [[r3 d3] w4] end.
    apply Hf; auto.
Qed.

(** Decides a closed statement by evaluation. *)
Ltac evaluate :=
  vm_compute;
  first [ reflexivity | discriminate | congruence | intro; discriminate | lia ].

(** * The claims *)

(** ** C1 *)

(** C1, the code at a failing input.  The first answer gave a total of 2500;
    the second one declares 3000 and carries a full fragment.  The engine
    reports the error, and then goes on: it hands the fragment to the
    application, counts it, asks for the next one and is in progress
    again. *)
Theorem size_mismatch_does_not_stop :
  let before := Bench.answer Bench.r0_1023 (Bench.started Bench.takes_all) in
  let after := Bench.answer Bench.r1024_2047_of_3000 before in
  firmware_size before.1 = 2500
  /\ total_size_of (Bench.r1024_2047_of_3000) = Some 3000
  /\ callbacks (since before.2 after.2)
     = [(DFU_CLIENT_EVT_ERROR, 1024); (DFU_CLIENT_EVT_DOWNLOAD_FRAG, 1024)]
  /\ requests (since before.2 after.2) = [Bench.range_request 2048 3071]
  /\ status after.1 = DFU_CLIENT_STATUS_DOWNLOAD_INPROGRESS
  /\ download_size after.1 = 2048.
Proof. vm_compute. repeat split; reflexivity. Qed.

(** ** C2 *)


(** Proves [honest_length] on a closed object and world. *)
Ltac honest :=
  let s := fresh "s" in let Hs := fresh "Hs" in
  let Ht := fresh "Ht" in let Hp := fresh "Hp" in
  intros s ? ? Hs Ht Hp _;
  vm_compute in Hs; injection Hs as <-;
  vm_compute in Ht; injection Ht as <-;
  vm_compute in Hp; injection Hp as <-;
  vm_compute; split; discriminate.



(** ** C3 *)



(** The download of 2500 bytes by 1024, run on the engine. *)
Example download_of_2500_by_1024 :
  let s0 := Bench.started Bench.takes_all in
  let s1 := round Bench.cfg Bench.server s0 in
  let s2 := round Bench.cfg Bench.server s1 in
  let s3 := round Bench.cfg Bench.server s2 in
  fragment_events 1024 2500
  = [ (DFU_CLIENT_EVT_DOWNLOAD_FRAG, 1024); (DFU_CLIENT_EVT_DOWNLOAD_FRAG, 1024);
      (DFU_CLIENT_EVT_DOWNLOAD_FRAG, 452); (DFU_CLIENT_EVT_DOWNLOAD_DONE, 452) ]
  /\ callbacks (since s0.2 s3.2) = fragment_events 1024 2500
  /\ map (fun s => download_size s.1) [s1; s2; s3] = [1024; 2048; 2500]
  /\ status s3.1 = DFU_CLIENT_STATUS_DOWNLOAD_COMPLETE
  /\ requests (log s3.2)
     = [ Bench.range_request 0 1023; Bench.range_request 1024 2047;
         Bench.range_request 2048 3071 ].
Proof. vm_compute. repeat split; reflexivity. Qed.

(** ** C4 *)




(** ** C5 *)




(** ** C6 *)



(** The same poll, event by event: the fragment is handed over, the socket
    is drained and closed, a new one is connected, and the request for the
    bytes from 1024 on goes out on it. *)
Example close_directive_trace :
  let before := Bench.arrive Bench.r0_1023_close (Bench.started Bench.takes_all) in
  let after := exec (dfu_client_process Bench.cfg) before in
  since before.2 after.2
  = [ Recv 3 2048 true 1131;
      Callback DFU_CLIENT_EVT_DOWNLOAD_FRAG 0 1024 0;
      Recv 3 2048 false 1131;
      Close 3;
      Getaddrinfo "fw.example.com" None AF_INET IPPROTO_TCP 0;
      Socket AF_INET IPPROTO_TCP 4;
      Connect 4 (with_port (htons 80) Bench.server_addr) 0;
      Send 4 (Bench.range_request 1024 2047) 102 102 ]
  /\ fd after.1 = 4
  /\ download_size after.1 = 1024.
Proof. vm_compute. repeat split; reflexivity. Qed.

(** ** C7 *)

(** C7, as the code has it.  When a descriptor is open ([fd >= 0]), whatever
    the status, [dfu_client_disconnect] closes it (the one thing it does to
    the world, after which the descriptor is no longer open), marks it
    absent and sets the status to idle, leaving the other fields alone.  With
    no descriptor open it does nothing: the status stays what it was. *)
Theorem disconnect_closes_an_open_descriptor (d : dfu_client_object) (w : world) :
  let '(_, d', w') := dfu_client_disconnect d w in
  if fd d <? 0 then d' = d /\ w' = w
  else
    fd d' = -1
    /\ status d' = DFU_CLIENT_STATUS_IDLE
    /\ d' = set_status DFU_CLIENT_STATUS_IDLE (set_fd (-1) d)
    /\ since w w' = [Close (fd d)]
    /\ sockets w' !! fd d = None.
Proof.
  unfold dfu_client_disconnect. go. destruct (fd d <? 0); go; [ auto | ].
  unfold sys_close. fields. repeat split; auto.
  - now since_is.
  - apply lookup_delete_eq.
Qed.

(** C7, as stated, fails.  The server asks for the connection to be closed,
    and when the engine reconnects the name no longer resolves:
    [getaddrinfo] fails, [httpc_connect] returns -1 before it opens a
    socket, and [fragment_request] leaves the session without a descriptor,
    in progress, after the error event.  Disconnecting then does not bring
    the status back to idle. *)
Lemma disconnect_without_descriptor_keeps_status :
  let s0 := Bench.name_lost (Bench.started Bench.takes_all) in
  let s := Bench.answer Bench.r0_1023_close s0 in
  since s0.2 s.2
  = [Recv 3 2048 true 1131;
     Callback DFU_CLIENT_EVT_DOWNLOAD_FRAG 0 1024 0;
     Recv 3 2048 false 1131;
     Close 3;
     Getaddrinfo "fw.example.com" None AF_INET IPPROTO_TCP (-2);
     Callback DFU_CLIENT_EVT_ERROR ECONNRESET 1024 0]
  /\ fd s.1 = -1
  /\ status s.1 = DFU_CLIENT_STATUS_DOWNLOAD_INPROGRESS
  /\ status (exec dfu_client_disconnect s).1 <> DFU_CLIENT_STATUS_IDLE
  /\ exec dfu_client_disconnect s = s.
Proof. vm_compute. repeat split; congruence. Qed.

(** ** C8 *)

(** C8, the code at a failing input.  The request for this host and resource
    is 99 characters long and the buffer holds 64.  [snprintf] answers 99,
    which is positive: [dfu_client_download] sets the status, hands the 64
    bytes of the buffer (63 characters and a NUL) to [send] with a length of
    99, and returns what [send] returns. *)
Theorem long_request_is_sent :
  let s := Bench.connected Bench.takes_all in
  let '(r, d, w) := dfu_client_download Bench.cfg64 s.1 s.2 in
  length (request_text Bench.cfg64 s.1) = 99%nat
  /\ r = 99
  /\ status d = DFU_CLIENT_STATUS_DOWNLOAD_INPROGRESS
  /\ since s.2 w
     = [Send 3 (take 63 (Bench.range_request 0 1023) ++ [NUL]) 99 99].
Proof. vm_compute. repeat split; reflexivity. Qed.

(** ** C9 *)

(** C9. On a session that is connected (status [CONNECTED], descriptor not
    -1) and whose host and callback are set, [dfu_client_connect] returns 0
    and changes neither the object nor the world; so does a second call
    after the first. *)
Theorem connect_twice_is_noop (d : dfu_client_object) (w : world) :
  host d <> None ->
  callback d <> NULL ->
  fd d <> -1 ->
  status d = DFU_CLIENT_STATUS_CONNECTED ->
  dfu_client_connect d w = (0, d, w)
  /\ (let* first := dfu_client_connect in
      let* second := dfu_client_connect in
      ret (first, second)) d w = ((0, 0), d, w).
Proof.
  intros Hh Hc Hf Hs.
  assert (E : dfu_client_connect d w = (0, d, w)).
  { unfold dfu_client_connect. run.
    destruct (host d); [ | congruence ]. simpl.
    destruct (Z.eqb_spec (callback d) NULL); [ congruence | ]. simpl.
    destruct (Z.eqb_spec (fd d) (-1)); [ congruence | ].
    rewrite Hs. reflexivity. }
  split; [ exact E | ].
  unfold bind. now rewrite !E.
Qed.

Lemma connect_twice_is_noop_witness :
  host (Bench.connected Bench.takes_all).1 <> None
  /\ callback (Bench.connected Bench.takes_all).1 <> NULL
  /\ fd (Bench.connected Bench.takes_all).1 <> -1
  /\ status (Bench.connected Bench.takes_all).1 = DFU_CLIENT_STATUS_CONNECTED
  /\ dfu_client_connect (Bench.connected Bench.takes_all).1
       (Bench.connected Bench.takes_all).2
     = (0, (Bench.connected Bench.takes_all).1, (Bench.connected Bench.takes_all).2).
Proof.
  do 4 (split; [ vm_compute; congruence | ]).
  apply (connect_twice_is_noop _ _); vm_compute; congruence.
Defined.

(** ** C10 *)

(** C10.  The transport adapter connects to port 80 whatever port it is
    given: every [connect] that [httpc_connect] makes, for every [port]
    argument, is to an address whose port was set to [htons(80)].  Its two
    callers, [dfu_client_connect] and [fragment_request], pass a null port
    and ask for TCP: every name lookup they cause has no service, every
    socket they open is a TCP socket, and every connection they cause goes
    to port 80. *)
Theorem httpc_connect_ignores_port :
  (forall host port family proto w,
      extends_by to_port_80 w (httpc_connect host port family proto w).2)
  /\ (forall d w, extends_by engine_ports w (dfu_client_connect d w).2)
  /\ (forall cfg flush connnection_close d w,
         extends_by engine_ports w
           (fragment_request cfg flush connnection_close d w).2).
Proof.
  split; [ | split ].
  - intros. apply httpc_connect_log; intros; simpl; auto.
  - apply dfu_client_connect_ports.
  - apply fragment_request_ports.
Qed.

(** * Further properties of the code *)

(** ** [dfu_client_init] *)

(** X1.  On an object with host, resource and callback set,
    [dfu_client_init] returns 0, writes -1 to [fd] and idle to [status] and
    nothing else: [download_size] and [firmware_size] stay what the caller
    left there, and the world is not touched.  On the session it leaves,
    every operation but [dfu_client_connect] does nothing, and
    [dfu_client_download] returns -1. *)
Theorem initialised_session_waits_for_connect cfg d w o :
  host d <> None -> resource d <> None -> callback d <> NULL ->
  o <> call_connect ->
  dfu_client_init d w
  = (0, set_status DFU_CLIENT_STATUS_IDLE (set_fd (-1) d), w)
  /\ api_call cfg o (exec dfu_client_init (d, w)) = exec dfu_client_init (d, w)
  /\ (dfu_client_download cfg (exec dfu_client_init (d, w)).1
        (exec dfu_client_init (d, w)).2).1.1 = -1.
Proof.
  intros Hh Hr Hc Ho.
  assert (E : dfu_client_init d w
              = (0, set_status DFU_CLIENT_STATUS_IDLE (set_fd (-1) d), w)).
  { unfold dfu_client_init. go.
    destruct (host d); [ | congruence ]. destruct (resource d); [ | congruence ].
    destruct (Z.eqb_spec (callback d) NULL); [ congruence | ]. reflexivity. }
  split; [ exact E | ].
  unfold exec. fields. rewrite E.
  split.
  - destruct o; try congruence; unfold api_call, exec; fields.
    + unfold dfu_client_init. go.
      destruct (host d); [ | congruence ]. destruct (resource d); [ | congruence ].
      destruct (Z.eqb_spec (callback d) NULL); [ congruence | ]. reflexivity.
    + unfold dfu_client_download. go. reflexivity.
    + unfold dfu_client_process. go. reflexivity.
    + unfold dfu_client_disconnect. go. reflexivity.
  - unfold dfu_client_download. go. reflexivity.
Qed.

Lemma initialised_session_waits_for_connect_witness :
  host Bench.fresh <> None
  /\ resource Bench.fresh <> None
  /\ callback Bench.fresh <> NULL
  /\ call_download <> call_connect
  /\ dfu_client_init Bench.fresh (Bench.boot Bench.takes_all)
     = (0, set_status DFU_CLIENT_STATUS_IDLE (set_fd (-1) Bench.fresh),
        Bench.boot Bench.takes_all)
  /\ api_call Bench.cfg call_download
       (exec dfu_client_init (Bench.fresh, Bench.boot Bench.takes_all))
     = exec dfu_client_init (Bench.fresh, Bench.boot Bench.takes_all)
  /\ (dfu_client_download Bench.cfg
        (exec dfu_client_init (Bench.fresh, Bench.boot Bench.takes_all)).1
        (exec dfu_client_init (Bench.fresh, Bench.boot Bench.takes_all)).2).1.1 = -1.
Proof.
  do 4 (split; [ evaluate | ]).
  apply (initialised_session_waits_for_connect Bench.cfg Bench.fresh
           (Bench.boot Bench.takes_all) call_download); evaluate.
Defined.

(** ** [httpc_connect] and [dfu_client_connect] *)

Lemma connect_loop_passes sock family pre a rest rc w s :
  Forall (passed_over w family) pre ->
  sockets w !! sock = Some s ->
  sa_family (ai_addr a) = family ->
  reachable w (with_port (htons 80) (ai_addr a)) = true ->
  connect_loop sock family (pre ++ a :: rest) rc w
  = (0,
     {| sockets := <[sock := with_peer (with_port (htons 80) (ai_addr a)) s]> (sockets w);
        next_fd := next_fd w; resolver := resolver w; reachable := reachable w;
        errno := errno w; application := application w;
        log := log w ++ attempts sock family pre
               ++ [Connect sock (with_port (htons 80) (ai_addr a)) 0] |}).
Proof.
  intros Hpre Hs Hfam Hreach. revert rc w Hpre Hs Hreach.
  induction pre as [|x pre IH]; intros rc w Hpre Hs Hreach.
  - cbn [app connect_loop]. rewrite Hfam, Z.eqb_refl.
    unfold sys_connect. rewrite Hs, Hreach. reflexivity.
  - cbn [app connect_loop]. unfold attempts. cbn [List.filter].
    apply Forall_cons in Hpre as [Hx Hrest].
    destruct (Z.eqb_spec (sa_family (ai_addr x)) family) as [E|E].
    + unfold sys_connect. rewrite Hs, (Hx E). cbn [Z.eqb].
      rewrite IH; fields; auto.
      f_equal. f_equal. cbn [map app]. now rewrite <- app_assoc.
    + now apply IH.
Qed.

(** [httpc_connect] when one of the resolved entries accepts the
    connection: the descriptor, and the world it leaves. *)
Lemma httpc_connect_reaches name port family proto w rc pre a rest :
  resolver w name port family proto = (rc, pre ++ a :: rest) ->
  0 <= rc -> 0 <= next_fd w ->
  Forall (passed_over w family) pre ->
  sa_family (ai_addr a) = family ->
  reachable w (with_port (htons 80) (ai_addr a)) = true ->
  httpc_connect (Some name) port family proto w
  = (next_fd w,
     {| sockets := <[next_fd w := connected_to (with_port (htons 80) (ai_addr a))]>
                     (sockets w);
        next_fd := next_fd w + 1; resolver := resolver w; reachable := reachable w;
        errno := errno w; application := application w;
        log := log w
               ++ [Getaddrinfo name port family proto rc;
                   Socket family proto (next_fd w)]
               ++ attempts (next_fd w) family pre
               ++ [Connect (next_fd w) (with_port (htons 80) (ai_addr a)) 0] |}).
Proof.
  intros Hres Hrc Hfd Hpre Hfam Hreach.
  unfold httpc_connect, sys_getaddrinfo. rewrite Hres.
  destruct (Z.ltb_spec rc 0); [ lia | ].
  assert (Hne : match pre ++ a :: rest with [] => true | _ => false end = false)
    by (destruct pre; reflexivity).
  rewrite Hne. cbn [orb]. unfold sys_socket. fields.
  destruct (Z.ltb_spec (next_fd w) 0); [ lia | ].
  destruct (Z.leb_spec 0 (next_fd w)); [ | lia ].
  rewrite (connect_loop_passes _ _ pre a rest rc _
             {| rx := []; rx_error := None; rx_closed := false; peer := None |});
    fields; [ | exact Hpre | apply lookup_insert_eq | exact Hfam | exact Hreach ].
  cbn [Z.ltb Z.compare]. f_equal. f_equal.
  - rewrite insert_insert_eq. reflexivity.
  - rewrite <- !app_assoc. reflexivity.
Qed.

Lemma dfu_client_connect_reaches d w name rc pre a rest :
  host d = Some name -> callback d <> NULL ->
  fd d = -1 \/ status d <> DFU_CLIENT_STATUS_CONNECTED ->
  resolver w name None AF_INET IPPROTO_TCP = (rc, pre ++ a :: rest) ->
  0 <= rc -> 0 <= next_fd w ->
  Forall (passed_over w AF_INET) pre ->
  sa_family (ai_addr a) = AF_INET ->
  reachable w (with_port (htons 80) (ai_addr a)) = true ->
  dfu_client_connect d w
  = (0, set_status DFU_CLIENT_STATUS_CONNECTED (set_fd (next_fd w) d),
     {| sockets := <[next_fd w := connected_to (with_port (htons 80) (ai_addr a))]>
                     (sockets w);
        next_fd := next_fd w + 1; resolver := resolver w; reachable := reachable w;
        errno := errno w; application := application w;
        log := log w
               ++ [Getaddrinfo name None AF_INET IPPROTO_TCP rc;
                   Socket AF_INET IPPROTO_TCP (next_fd w)]
               ++ attempts (next_fd w) AF_INET pre
               ++ [Connect (next_fd w) (with_port (htons 80) (ai_addr a)) 0] |}).
Proof.
  intros Hh Hc Hst Hres Hrc Hfd Hpre Hfam Hreach.
  unfold dfu_client_connect. go. rewrite Hh. cbn [is_null orb].
  destruct (Z.eqb_spec (callback d) NULL); [ congruence | ].
  assert (E : negb (fd d =? -1) && (status d =? DFU_CLIENT_STATUS_CONNECTED) = false).
  { destruct Hst as [E|E].
    - rewrite E. reflexivity.
    - destruct (Z.eqb_spec (status d) DFU_CLIENT_STATUS_CONNECTED); [ congruence | ].
      apply andb_false_r. }
  rewrite E.
  rewrite (httpc_connect_reaches name None AF_INET IPPROTO_TCP w rc pre a rest); auto.
  destruct (Z.ltb_spec (next_fd w) 0); [ lia | ]. reflexivity.
Qed.

(** X2.  [dfu_client_connect] on a session that is not connected tries the
    resolved addresses in turn, each at port 80, passing over those of
    another family and going on after a refusal, and stops at the first that
    accepts: it returns 0, holds the new descriptor, connected to that
    address, and is connected.  It closes nothing: a descriptor the object
    held before is still open. *)
Theorem connect_tries_the_addresses_in_turn d w name rc pre a rest :
  host d = Some name -> callback d <> NULL ->
  fd d = -1 \/ status d <> DFU_CLIENT_STATUS_CONNECTED ->
  resolver w name None AF_INET IPPROTO_TCP = (rc, pre ++ a :: rest) ->
  0 <= rc -> 0 <= next_fd w ->
  Forall (passed_over w AF_INET) pre ->
  sa_family (ai_addr a) = AF_INET ->
  reachable w (with_port (htons 80) (ai_addr a)) = true ->
  let '(r, d', w') := dfu_client_connect d w in
  r = 0
  /\ d' = set_status DFU_CLIENT_STATUS_CONNECTED (set_fd (next_fd w) d)
  /\ sockets w' !! next_fd w
     = Some (connected_to (with_port (htons 80) (ai_addr a)))
  /\ (forall k, k <> next_fd w -> sockets w' !! k = sockets w !! k)
  /\ since w w'
     = [Getaddrinfo name None AF_INET IPPROTO_TCP rc;
        Socket AF_INET IPPROTO_TCP (next_fd w)]
       ++ attempts (next_fd w) AF_INET pre
       ++ [Connect (next_fd w) (with_port (htons 80) (ai_addr a)) 0].
Proof.
  intros Hh Hc Hst Hres Hrc Hfd Hpre Hfam Hreach.
  rewrite (dfu_client_connect_reaches d w name rc pre a rest); auto.
  split; [ reflexivity | ]. split; [ reflexivity | ]. fields.
  split; [ apply lookup_insert_eq | ].
  split; [ intros k Hk; apply lookup_insert_ne; congruence | ].
  unfold since. fields. apply drop_app_length.
Qed.

Lemma connect_tries_the_addresses_in_turn_witness :
  host Lab.initialised = Some "fw.example.com"%string
  /\ callback Lab.initialised <> NULL
  /\ (fd Lab.initialised = -1
      \/ status Lab.initialised <> DFU_CLIENT_STATUS_CONNECTED)
  /\ resolver (Lab.boot Bench.takes_all) "fw.example.com" None AF_INET IPPROTO_TCP
     = (0, [ {| ai_family := AF_INET6; ai_addr := Lab.v6_addr |};
             {| ai_family := AF_INET; ai_addr := Lab.down_addr |} ]
           ++ {| ai_family := AF_INET; ai_addr := Bench.server_addr |} :: [])
  /\ 0 <= 0
  /\ 0 <= next_fd (Lab.boot Bench.takes_all)
  /\ Forall (passed_over (Lab.boot Bench.takes_all) AF_INET)
       [ {| ai_family := AF_INET6; ai_addr := Lab.v6_addr |};
         {| ai_family := AF_INET; ai_addr := Lab.down_addr |} ]
  /\ sa_family Bench.server_addr = AF_INET
  /\ reachable (Lab.boot Bench.takes_all) (with_port (htons 80) Bench.server_addr)
     = true
  /\ (let '(r, d', w') :=
        dfu_client_connect Lab.initialised (Lab.boot Bench.takes_all) in
      r = 0
      /\ d' = set_status DFU_CLIENT_STATUS_CONNECTED (set_fd 3 Lab.initialised)
      /\ sockets w' !! 3
         = Some (connected_to (with_port (htons 80) Bench.server_addr))
      /\ (forall k, k <> 3 -> sockets w' !! k
                              = sockets (Lab.boot Bench.takes_all) !! k)
      /\ since (Lab.boot Bench.takes_all) w'
         = [Getaddrinfo "fw.example.com" None AF_INET IPPROTO_TCP 0;
            Socket AF_INET IPPROTO_TCP 3;
            Connect 3 (with_port (htons 80) Lab.down_addr) (-1);
            Connect 3 (with_port (htons 80) Bench.server_addr) 0]).
Proof.
  assert (Hpre : Forall (passed_over (Lab.boot Bench.takes_all) AF_INET)
                   [ {| ai_family := AF_INET6; ai_addr := Lab.v6_addr |};
                     {| ai_family := AF_INET; ai_addr := Lab.down_addr |} ]).
  { constructor; [ intros H; discriminate H | ].
    constructor; [ intros _; reflexivity | constructor ]. }
  split; [ reflexivity | ]. split; [ evaluate | ].
  split; [ left; reflexivity | ]. split; [ reflexivity | ].
  split; [ lia | ]. split; [ evaluate | ]. split; [ exact Hpre | ].
  split; [ reflexivity | ]. split; [ reflexivity | ].
  exact (connect_tries_the_addresses_in_turn Lab.initialised
           (Lab.boot Bench.takes_all) "fw.example.com" 0
           [ {| ai_family := AF_INET6; ai_addr := Lab.v6_addr |};
             {| ai_family := AF_INET; ai_addr := Lab.down_addr |} ]
           {| ai_family := AF_INET; ai_addr := Bench.server_addr |} []
           eq_refl ltac:(evaluate) (or_introl eq_refl) eq_refl ltac:(lia)
           ltac:(evaluate) Hpre eq_refl eq_refl).
Defined.

(** X3.  The failures [dfu_client_connect] returns from.  When the name
    does not resolve ([getaddrinfo] fails or gives no entry) or [socket()]
    gives no descriptor, the call returns -1 and the object is as it was: no
    socket has been opened, no [connect] has been tried and nothing has been
    closed.  (Once a socket is open, the loop over the resolved entries
    leaves only by a [connect] that succeeds.) *)
Theorem connect_failure_opens_nothing d w name rc addrinf :
  host d = Some name -> callback d <> NULL ->
  fd d = -1 \/ status d <> DFU_CLIENT_STATUS_CONNECTED ->
  resolver w name None AF_INET IPPROTO_TCP = (rc, addrinf) ->
  rc < 0 \/ addrinf = [] \/ next_fd w < 0 ->
  let '(r, d', w') := dfu_client_connect d w in
  r = -1
  /\ d' = d
  /\ sockets w' = sockets w
  /\ next_fd w' = next_fd w
  /\ since w w'
     = Getaddrinfo name None AF_INET IPPROTO_TCP rc
       :: (if (rc <? 0) || match addrinf with [] => true | _ => false end then []
           else [Socket AF_INET IPPROTO_TCP (-1)]).
Proof.
  intros Hh Hc Hnew Hres Hfail. unfold dfu_client_connect. go.
  rewrite Hh. cbn [is_null orb].
  destruct (Z.eqb_spec (callback d) NULL) as [E|_]; [ contradiction | ].
  assert (Hg : negb (fd d =? -1) && (status d =? DFU_CLIENT_STATUS_CONNECTED) = false).
  { destruct Hnew as [->|Hst]; [ reflexivity | ].
    destruct (Z.eqb_spec (status d) DFU_CLIENT_STATUS_CONNECTED); [ contradiction | ].
    apply andb_false_r. }
  rewrite Hg. unfold httpc_connect, sys_getaddrinfo. rewrite Hres.
  destruct (Z.ltb_spec rc 0) as [Hrc|Hrc].
  { cbn [orb]. fields. repeat split; auto. unfold since. fields.
    now rewrite drop_app_length. }
  destruct addrinf as [|a0 addrinf].
  { cbn [orb]. fields. repeat split; auto. unfold since. fields.
    now rewrite drop_app_length. }
  destruct Hfail as [Hlt|[Hnil|Hn]]; [ lia | discriminate Hnil | ].
  cbn [orb]. unfold sys_socket. fields.
  destruct (Z.ltb_spec (next_fd w) 0); [ | lia ].
  destruct (Z.leb_spec 0 (-1)); [ lia | ].
  destruct (Z.ltb_spec rc 0); [ lia | ]. fields.
  repeat split; auto. unfold since. fields.
  rewrite <- app_assoc. now rewrite drop_app_length.
Qed.

Lemma connect_failure_opens_nothing_witness :
  host Lab.initialised = Some "fw.example.com"%string
  /\ callback Lab.initialised <> NULL
  /\ (fd Lab.initialised = -1
      \/ status Lab.initialised <> DFU_CLIENT_STATUS_CONNECTED)
  /\ resolver (Bench.name_lost (Lab.initialised, Bench.boot Bench.takes_all)).2
       "fw.example.com" None AF_INET IPPROTO_TCP = (-2, [])
  /\ (-2 < 0 \/ @nil addrinfo = []
      \/ next_fd (Bench.name_lost (Lab.initialised, Bench.boot Bench.takes_all)).2 < 0)
  /\ let '(r, d', w') :=
       dfu_client_connect Lab.initialised
         (Bench.name_lost (Lab.initialised, Bench.boot Bench.takes_all)).2 in
     r = -1
     /\ d' = Lab.initialised
     /\ sockets w'
        = sockets (Bench.name_lost (Lab.initialised, Bench.boot Bench.takes_all)).2
     /\ next_fd w'
        = next_fd (Bench.name_lost (Lab.initialised, Bench.boot Bench.takes_all)).2
     /\ since (Bench.name_lost (Lab.initialised, Bench.boot Bench.takes_all)).2 w'
        = Getaddrinfo "fw.example.com" None AF_INET IPPROTO_TCP (-2)
          :: (if (-2 <? 0)
                 || match @nil addrinfo with [] => true | _ => false end
              then []
              else [Socket AF_INET IPPROTO_TCP (-1)]).
Proof.
  assert (H3 : fd Lab.initialised = -1
               \/ status Lab.initialised <> DFU_CLIENT_STATUS_CONNECTED)
    by (left; reflexivity).
  assert (H5 : -2 < 0 \/ @nil addrinfo = []
               \/ next_fd (Bench.name_lost
                             (Lab.initialised, Bench.boot Bench.takes_all)).2 < 0)
    by (left; reflexivity).
  split; [ evaluate | ]. split; [ evaluate | ]. split; [ exact H3 | ].
  split; [ evaluate | ]. split; [ exact H5 | ].
  apply (connect_failure_opens_nothing Lab.initialised
           (Bench.name_lost (Lab.initialised, Bench.boot Bench.takes_all)).2
           "fw.example.com" (-2) []); [ evaluate | evaluate | exact H3 | evaluate
                                      | exact H5 ].
Defined.

(** The same when [socket()] has no descriptor to give: the one call after
    [getaddrinfo] is the [socket()] that fails. *)
Example connect_without_a_descriptor :
  let w := set_next_fd (-1) (Bench.boot Bench.takes_all) in
  let '(r, d', w') := dfu_client_connect Lab.initialised w in
  r = -1 /\ d' = Lab.initialised /\ sockets w' = sockets w
  /\ since w w'
     = [Getaddrinfo "fw.example.com" None AF_INET IPPROTO_TCP 0;
        Socket AF_INET IPPROTO_TCP (-1)].
Proof. vm_compute. repeat split; reflexivity. Qed.


(** ** [dfu_client_download] *)

(** A request shorter than the request buffer is sent whole. *)
Lemma request_bytes_whole cfg d :
  Z.of_nat (length (request_text cfg d)) < CONFIG_NRF_DFU_HTTP_MAX_REQUEST_SIZE cfg ->
  CONFIG_NRF_DFU_HTTP_MAX_REQUEST_SIZE cfg <= Int.INT_MAX ->
  request_bytes cfg d = request_text cfg d.
Proof.
  intros Hlt Hmax. unfold request_bytes, snprintf.
  destruct (Z.ltb_spec Int.INT_MAX (Z.of_nat (length (request_text cfg d)))); [ lia | ].
  destruct (Z.ltb_spec 0 (CONFIG_NRF_DFU_HTTP_MAX_REQUEST_SIZE cfg)); [ | lia ].
  cbn [snd]. unfold store.
  rewrite (take_ge (request_text cfg d)) by lia.
  rewrite <- !app_assoc. rewrite take_app_length. reflexivity.
Qed.

Lemma sys_send_connected sock data len w s a :
  sockets w !! sock = Some s -> peer s = Some a ->
  sys_send sock data len w = (len, emit (Send sock data len len) w).
Proof. intros Hs Hp. unfold sys_send. now rewrite Hs, Hp. Qed.

(** [send_request] when the request has an [int] length: the request is
    handed to [send], as far as the buffer holds it, with its whole length. *)
Lemma send_request_exact cfg d w :
  Z.of_nat (length (request_text cfg d)) <= Int.INT_MAX ->
  exists buf,
    send_request cfg d w =
      ((sys_send (fd d) (request_bytes cfg d)
          (Z.of_nat (length (request_text cfg d))) w).1,
       set_status DFU_CLIENT_STATUS_DOWNLOAD_INPROGRESS (set_req_buf buf d),
       (sys_send (fd d) (request_bytes cfg d)
          (Z.of_nat (length (request_text cfg d))) w).2).
Proof.
  intros Hlen. pose proof (request_text_length cfg d) as Hpos.
  assert (Hb : request_bytes cfg d
               = take (Z.to_nat (Z.of_nat (length (request_text cfg d))))
                   (if 0 <? CONFIG_NRF_DFU_HTTP_MAX_REQUEST_SIZE cfg
                    then store
                           (take (Z.to_nat (CONFIG_NRF_DFU_HTTP_MAX_REQUEST_SIZE cfg - 1))
                              (request_text cfg d) ++ [NUL])
                           (zeroed (CONFIG_NRF_DFU_HTTP_MAX_REQUEST_SIZE cfg))
                    else zeroed (CONFIG_NRF_DFU_HTTP_MAX_REQUEST_SIZE cfg))).
  { unfold request_bytes, snprintf. rewrite Nat2Z.id.
    destruct (Z.ltb_spec Int.INT_MAX (Z.of_nat (length (request_text cfg d))));
      [ lia | ].
    destruct (0 <? _); reflexivity. }
  rewrite Hb. clear Hb.
  unfold send_request. go. unfold snprintf.
  change (request_text cfg (set_req_buf _ d)) with (request_text cfg d).
  destruct (Z.ltb_spec Int.INT_MAX (Z.of_nat (length (request_text cfg d)))); [ lia | ].
  match goal with |- context [if 0 <? ?sz then (?n, ?a) else (?n, ?b)] =>
    replace (if 0 <? sz then (n, a) else (n, b))
      with (n, if 0 <? sz then a else b)
      by (destruct (0 <? sz); reflexivity) end.
  go.
  destruct (Z.ltb_spec 0 (Z.of_nat (length (request_text cfg d)))); [ | lia ].
  go. eexists.
  match goal with |- (let '(r, w1) := ?p in _) = _ =>
    rewrite (surjective_pairing p) end.
  reflexivity.
Qed.

Lemma dfu_client_download_sends cfg d w s a :
  host d <> None -> resource d <> None -> callback d <> NULL ->
  0 <= fd d -> status d = DFU_CLIENT_STATUS_CONNECTED ->
  Z.of_nat (length (request_text cfg d)) <= Int.INT_MAX ->
  sockets w !! fd d = Some s -> peer s = Some a ->
  exists buf,
    dfu_client_download cfg d w
    = (Z.of_nat (length (request_text cfg d)),
       set_status DFU_CLIENT_STATUS_DOWNLOAD_INPROGRESS
         (set_req_buf buf (set_firmware_size (-1) d)),
       emit (Send (fd d) (request_bytes cfg d)
               (Z.of_nat (length (request_text cfg d)))
               (Z.of_nat (length (request_text cfg d)))) w).
Proof.
  intros Hh Hr Hc Hfd Hst Hfits Hs Hp.
  unfold dfu_client_download. go.
  destruct (Z.ltb_spec (fd d) 0); [ lia | ]. rewrite Hst, Z.eqb_refl.
  cbn [negb orb]. unfold fragment_request. go.
  destruct (host d) eqn:Eh; [ | congruence ].
  destruct (resource d) eqn:Er; [ | congruence ].
  destruct (Z.eqb_spec (callback d) NULL); [ congruence | ].
  cbn [is_null orb].
  match goal with |- context [send_request cfg ?dd ?ww] =>
    destruct (send_request_exact cfg dd ww) as (buf & E) end.
  { exact Hfits. }
  rewrite E. clear E. fields.
  assert (Et : request_text cfg (set_firmware_size (-1) d) = request_text cfg d).
  { unfold request_text. fields. reflexivity. }
  assert (Eb : request_bytes cfg (set_firmware_size (-1) d) = request_bytes cfg d).
  { apply request_bytes_same; reflexivity. }
  rewrite Et, Eb.
  rewrite (sys_send_connected _ _ _ _ s a Hs Hp).
  exists buf. reflexivity.
Qed.

(** X4.  On a connected session whose socket is connected,
    [dfu_client_download] forgets the firmware size, sends one request, the
    expansion of [REQUEST_TEMPLATE] for the [M] bytes from [download_size]
    on, which it leaves as the caller set it, and is in progress.  What it
    returns is what [send] returns, the length of the request, which is
    positive: 0 is never the result of a successful call.  (The request has
    an [int] length and fits the request buffer.) *)
Theorem download_asks_for_the_fragment_at_download_size cfg d w s a :
  host d <> None -> resource d <> None -> callback d <> NULL ->
  0 <= fd d -> status d = DFU_CLIENT_STATUS_CONNECTED ->
  Z.of_nat (length (request_text cfg d)) < CONFIG_NRF_DFU_HTTP_MAX_REQUEST_SIZE cfg ->
  CONFIG_NRF_DFU_HTTP_MAX_REQUEST_SIZE cfg <= Int.INT_MAX ->
  sockets w !! fd d = Some s -> peer s = Some a ->
  let '(r, d', w') := dfu_client_download cfg d w in
  r = Z.of_nat (length (request_text cfg d))
  /\ 0 < r
  /\ status d' = DFU_CLIENT_STATUS_DOWNLOAD_INPROGRESS
  /\ firmware_size d' = -1
  /\ download_size d' = download_size d
  /\ fd d' = fd d
  /\ since w w' = [Send (fd d) (request_text cfg d) r r].
Proof.
  intros Hh Hr Hc Hfd Hst Hlen Hmax Hs Hp.
  assert (Hfits : Z.of_nat (length (request_text cfg d)) <= Int.INT_MAX) by lia.
  destruct (dfu_client_download_sends cfg d w s a Hh Hr Hc Hfd Hst Hfits Hs Hp)
    as (buf & E).
  rewrite E. fields. rewrite (request_bytes_whole cfg d Hlen Hmax).
  pose proof (request_text_length cfg d).
  repeat split; auto; try lia.
  now since_is.
Qed.

Lemma download_asks_for_the_fragment_at_download_size_witness :
  host (Bench.connected Bench.takes_all).1 <> None
  /\ resource (Bench.connected Bench.takes_all).1 <> None
  /\ callback (Bench.connected Bench.takes_all).1 <> NULL
  /\ 0 <= fd (Bench.connected Bench.takes_all).1
  /\ status (Bench.connected Bench.takes_all).1 = DFU_CLIENT_STATUS_CONNECTED
  /\ Z.of_nat (length (request_text Bench.cfg (Bench.connected Bench.takes_all).1))
     < CONFIG_NRF_DFU_HTTP_MAX_REQUEST_SIZE Bench.cfg
  /\ CONFIG_NRF_DFU_HTTP_MAX_REQUEST_SIZE Bench.cfg <= Int.INT_MAX
  /\ sockets (Bench.connected Bench.takes_all).2
       !! fd (Bench.connected Bench.takes_all).1
     = Some (Bench.holding [])
  /\ peer (Bench.holding []) = Some (with_port (htons 80) Bench.server_addr)
  /\ (let '(r, d', w') :=
        dfu_client_download Bench.cfg (Bench.connected Bench.takes_all).1
          (Bench.connected Bench.takes_all).2 in
      r = 99
      /\ 0 < r
      /\ status d' = DFU_CLIENT_STATUS_DOWNLOAD_INPROGRESS
      /\ firmware_size d' = -1
      /\ download_size d' = 0
      /\ fd d' = 3
      /\ since (Bench.connected Bench.takes_all).2 w'
         = [Send 3 (Bench.range_request 0 1023) r r]).
Proof.
  do 7 (split; [ evaluate | ]). split; [ reflexivity | ]. split; [ reflexivity | ].
  exact (download_asks_for_the_fragment_at_download_size Bench.cfg
           (Bench.connected Bench.takes_all).1 (Bench.connected Bench.takes_all).2
           (Bench.holding []) (with_port (htons 80) Bench.server_addr)
           ltac:(evaluate) ltac:(evaluate) ltac:(evaluate) ltac:(evaluate)
           ltac:(evaluate) ltac:(evaluate) ltac:(evaluate) eq_refl eq_refl).
Defined.

(** X5.  A call of [dfu_client_download] that does not return -1 leaves the
    session in progress, and a second call is then refused: it returns -1
    and changes nothing, neither the object nor the world. *)
Theorem download_is_refused_once_started cfg d w :
  (dfu_client_download cfg d w).1.1 <> -1 ->
  status (dfu_client_download cfg d w).1.2 = DFU_CLIENT_STATUS_DOWNLOAD_INPROGRESS
  /\ dfu_client_download cfg (dfu_client_download cfg d w).1.2
        (dfu_client_download cfg d w).2
     = (-1, (dfu_client_download cfg d w).1.2, (dfu_client_download cfg d w).2).
Proof.
  intros Hr.
  assert (Hst : status (dfu_client_download cfg d w).1.2
                = DFU_CLIENT_STATUS_DOWNLOAD_INPROGRESS).
  { revert Hr. unfold dfu_client_download. go.
    destruct ((fd d <? 0) || negb (status d =? DFU_CLIENT_STATUS_CONNECTED));
      [ simpl; congruence | ].
    unfold fragment_request. go.
    destruct (is_null (host d) || (callback d =? NULL) || is_null (resource d));
      [ simpl; congruence | ].
    unfold send_request. go.
    destruct (snprintf _ _ _) as [n buf]. go.
    destruct (0 <? n); go; [ | simpl; congruence ].
    match goal with |- context [sys_send ?a ?b ?c ?w] =>
      destruct (sys_send a b c w) as [r w1] end.
    reflexivity. }
  split; [ exact Hst | ].
  destruct (dfu_client_download cfg d w) as [[r d1] w1]. fields.
  unfold dfu_client_download. go. rewrite Hst.
  now rewrite orb_true_r.
Qed.

Lemma download_is_refused_once_started_witness :
  (dfu_client_download Bench.cfg (Bench.connected Bench.takes_all).1
     (Bench.connected Bench.takes_all).2).1.1 <> -1
  /\ status (dfu_client_download Bench.cfg (Bench.connected Bench.takes_all).1
               (Bench.connected Bench.takes_all).2).1.2
     = DFU_CLIENT_STATUS_DOWNLOAD_INPROGRESS
  /\ dfu_client_download Bench.cfg
       (dfu_client_download Bench.cfg (Bench.connected Bench.takes_all).1
          (Bench.connected Bench.takes_all).2).1.2
       (dfu_client_download Bench.cfg (Bench.connected Bench.takes_all).1
          (Bench.connected Bench.takes_all).2).2
     = (-1,
        (dfu_client_download Bench.cfg (Bench.connected Bench.takes_all).1
           (Bench.connected Bench.takes_all).2).1.2,
        (dfu_client_download Bench.cfg (Bench.connected Bench.takes_all).1
           (Bench.connected Bench.takes_all).2).2).
Proof.
  split; [ evaluate | ].
  apply (download_is_refused_once_started Bench.cfg
           (Bench.connected Bench.takes_all).1 (Bench.connected Bench.takes_all).2).
  evaluate.
Defined.

(** ** Resuming: [dfu_client_disconnect], [dfu_client_connect],
    [dfu_client_download] *)

(** X6.  The procedure the header gives for resuming works from any state
    of a session that holds a descriptor or -1: after
    [dfu_client_disconnect], [dfu_client_connect] and [dfu_client_download],
    with a server that accepts the connection, the old descriptor is closed,
    the session is in progress on the new one, [download_size] is what it
    was, the firmware size is unknown again, and the one request sent asks
    for the fragment at that [download_size]. *)
Theorem interrupted_download_resumes cfg d w name rc pre a rest :
  host d = Some name -> resource d <> None -> callback d <> NULL ->
  request_fits_int d ->
  0 <= fd d \/ fd d = -1 ->
  resolver w name None AF_INET IPPROTO_TCP = (rc, pre ++ a :: rest) ->
  0 <= rc -> 0 <= next_fd w ->
  Forall (passed_over w AF_INET) pre ->
  sa_family (ai_addr a) = AF_INET ->
  reachable w (with_port (htons 80) (ai_addr a)) = true ->
  fd (resume_download cfg (d, w)).1 = next_fd w
  /\ status (resume_download cfg (d, w)).1 = DFU_CLIENT_STATUS_DOWNLOAD_INPROGRESS
  /\ download_size (resume_download cfg (d, w)).1 = download_size d
  /\ firmware_size (resume_download cfg (d, w)).1 = -1
  /\ since w (resume_download cfg (d, w)).2
     = (if fd d <? 0 then [] else [Close (fd d)])
       ++ [Getaddrinfo name None AF_INET IPPROTO_TCP rc;
           Socket AF_INET IPPROTO_TCP (next_fd w)]
       ++ attempts (next_fd w) AF_INET pre
       ++ [Connect (next_fd w) (with_port (htons 80) (ai_addr a)) 0;
           Send (next_fd w) (request_bytes cfg d)
             (Z.of_nat (length (request_text cfg d)))
             (Z.of_nat (length (request_text cfg d)))].
Proof.
  intros Hh Hr Hc Hfits Hfd Hres Hrc Hnext Hpre Hfam Hreach.
  unfold resume_download.
  set (s1 := exec dfu_client_disconnect (d, w)).
  assert (H1 : host s1.1 = host d /\ resource s1.1 = resource d
               /\ callback s1.1 = callback d /\ download_size s1.1 = download_size d
               /\ (fd s1.1 = -1 \/ status s1.1 <> DFU_CLIENT_STATUS_CONNECTED)
               /\ resolver s1.2 = resolver w /\ reachable s1.2 = reachable w
               /\ next_fd s1.2 = next_fd w
               /\ log s1.2 = log w ++ (if fd d <? 0 then [] else [Close (fd d)])).
  { unfold s1, exec, dfu_client_disconnect. go.
    destruct (Z.ltb_spec (fd d) 0); go.
    - rewrite app_nil_r. repeat split; auto. left. lia.
    - unfold sys_close. fields. repeat split; auto. }
  destruct s1 as [d1 w1]. fields.
  destruct H1 as (Hh1 & Hr1 & Hc1 & Hd1 & Hst1 & Hres1 & Hreach1 & Hn1 & Hl1).
  assert (Ec := dfu_client_connect_reaches d1 w1 name rc pre a rest
                  ltac:(congruence) ltac:(congruence) Hst1 ltac:(congruence) Hrc
                  ltac:(lia)
                  ltac:(unfold passed_over in *; rewrite Hreach1; exact Hpre)
                  Hfam ltac:(congruence)).
  match type of Ec with _ = (_, ?d2, ?w2) =>
    assert (E2 : exec dfu_client_connect (d1, w1) = (d2, w2))
      by (unfold exec; fields; rewrite Ec; reflexivity);
    destruct (dfu_client_download_sends cfg d2 w2
                (connected_to (with_port (htons 80) (ai_addr a)))
                (with_port (htons 80) (ai_addr a)))
      as (buf & E);
    [ fields; congruence | fields; congruence | fields; congruence
    | fields; lia | reflexivity
    | apply request_text_fits; unfold request_fits_int in *; fields;
      now rewrite Hh1, Hr1
    | apply lookup_insert_eq | reflexivity | ];
    assert (Et : request_text cfg d2 = request_text cfg d)
      by (unfold request_text; fields; now rewrite Hh1, Hr1, Hd1);
    assert (Eb : request_bytes cfg d2 = request_bytes cfg d)
      by (apply request_bytes_same; fields; auto)
  end.
  rewrite E2. clear E2 Ec. rewrite Et, Eb in E. clear Et Eb.
  match type of E with _ = (_, ?d3, ?w3) =>
    assert (E3 : exec (dfu_client_download cfg) (_, _) = (d3, w3))
      by (unfold exec; fields; rewrite E; reflexivity)
  end.
  rewrite E3. clear E3 E. fields.
  split; [ exact Hn1 | ]. split; [ reflexivity | ].
  split; [ exact Hd1 | ]. split; [ reflexivity | ].
  unfold since. fields. rewrite Hl1, Hn1.
  rewrite <- !app_assoc, drop_app_length. reflexivity.
Qed.

Lemma interrupted_download_resumes_witness :
  host Lab.after_first.1 = Some "fw.example.com"%string
  /\ resource Lab.after_first.1 <> None
  /\ callback Lab.after_first.1 <> NULL
  /\ request_fits_int Lab.after_first.1
  /\ (0 <= fd Lab.after_first.1 \/ fd Lab.after_first.1 = -1)
  /\ resolver Lab.after_first.2 "fw.example.com" None AF_INET IPPROTO_TCP
     = (0, [] ++ {| ai_family := AF_INET; ai_addr := Bench.server_addr |} :: [])
  /\ 0 <= 0
  /\ 0 <= next_fd Lab.after_first.2
  /\ Forall (passed_over Lab.after_first.2 AF_INET) []
  /\ sa_family (ai_addr {| ai_family := AF_INET; ai_addr := Bench.server_addr |})
     = AF_INET
  /\ reachable Lab.after_first.2
       (with_port (htons 80)
          (ai_addr {| ai_family := AF_INET; ai_addr := Bench.server_addr |})) = true
  /\ fd (resume_download Bench.cfg (Lab.after_first.1, Lab.after_first.2)).1
     = next_fd Lab.after_first.2
  /\ status (resume_download Bench.cfg (Lab.after_first.1, Lab.after_first.2)).1
     = DFU_CLIENT_STATUS_DOWNLOAD_INPROGRESS
  /\ download_size (resume_download Bench.cfg (Lab.after_first.1, Lab.after_first.2)).1
     = download_size Lab.after_first.1
  /\ firmware_size (resume_download Bench.cfg (Lab.after_first.1, Lab.after_first.2)).1 = -1
  /\ since Lab.after_first.2 (resume_download Bench.cfg (Lab.after_first.1, Lab.after_first.2)).2
     = (if fd Lab.after_first.1 <? 0 then [] else [Close (fd Lab.after_first.1)])
       ++ [Getaddrinfo "fw.example.com" None AF_INET IPPROTO_TCP 0;
           Socket AF_INET IPPROTO_TCP (next_fd Lab.after_first.2)]
       ++ attempts (next_fd Lab.after_first.2) AF_INET []
       ++ [Connect (next_fd Lab.after_first.2)
             (with_port (htons 80)
                (ai_addr {| ai_family := AF_INET; ai_addr := Bench.server_addr |})) 0;
           Send (next_fd Lab.after_first.2) (request_bytes Bench.cfg Lab.after_first.1)
             (Z.of_nat (length (request_text Bench.cfg Lab.after_first.1)))
             (Z.of_nat (length (request_text Bench.cfg Lab.after_first.1)))].
Proof.
  do 3 (split; [ evaluate | ]).
  split; [ vm_compute; discriminate | ].
  split; [ left; evaluate | ]. split; [ evaluate | ].
  split; [ lia | ]. split; [ evaluate | ]. split; [ constructor | ].
  split; [ evaluate | ]. split; [ evaluate | ].
  apply (interrupted_download_resumes Bench.cfg Lab.after_first.1 Lab.after_first.2
           "fw.example.com" 0 []
           {| ai_family := AF_INET; ai_addr := Bench.server_addr |} []);
    [ evaluate | evaluate | evaluate | vm_compute; discriminate | left; evaluate
    | evaluate | lia | evaluate | constructor | evaluate | evaluate ].
Defined.

(** The same on the test bench: the session has taken the first fragment
    when it is interrupted. *)
Example resume_after_the_first_fragment :
  since Lab.after_first.2 (resume_download Bench.cfg Lab.after_first).2
  = [Close 3;
     Getaddrinfo "fw.example.com" None AF_INET IPPROTO_TCP 0;
     Socket AF_INET IPPROTO_TCP 4;
     Connect 4 (with_port (htons 80) Bench.server_addr) 0;
     Send 4 (Bench.range_request 1024 2047) 102 102]
  /\ download_size (resume_download Bench.cfg Lab.after_first).1 = 1024.
Proof. vm_compute. split; reflexivity. Qed.



(** ** [dfu_client_process] on a socket without bytes *)

Lemma store_nil buf : store [] buf = buf.
Proof. reflexivity. Qed.

(** X7.  A poll of a session in progress that finds no byte and no error on
    its socket is not an error: it changes nothing in the object but the
    response buffer, which it zeroes, calls nothing but [recv], and leaves
    the sockets as they are. *)
Theorem empty_socket_is_not_an_error cfg d w :
  0 <= fd d -> status d = DFU_CLIENT_STATUS_DOWNLOAD_INPROGRESS ->
  socket_is_empty w (fd d) ->
  recv_failure w (fd d) = None ->
  exists w',
    dfu_client_process cfg d w
    = (tt, set_resp_buf (zeroed (CONFIG_NRF_DFU_HTTP_MAX_RESPONSE_SIZE cfg)) d, w')
    /\ sockets w' = sockets w
    /\ since w w' = [Recv (fd d) (CONFIG_NRF_DFU_HTTP_MAX_RESPONSE_SIZE cfg) true (-1)].
Proof.
  intros Hfd Hst Hempty Hnone.
  unfold dfu_client_process, recv_resp_buf. go.
  destruct (Z.ltb_spec (fd d) 0); [ lia | ]. rewrite Hst, Z.eqb_refl. cbn [negb orb].
  unfold recv_failure, sys_recv in *.
  destruct (sockets w !! fd d) as [s|] eqn:Es; [ | discriminate ].
  rewrite (Hempty s Es).
  destruct (rx_error s) as [e|].
  - destruct (e =? EAGAIN) eqn:E; [ | discriminate ].
    fields. cbn [Z.eqb Pos.eqb negb]. cbv beta. fields. rewrite store_nil, E.
    eexists. split; [ reflexivity | ]. split; [ reflexivity | ]. now since_is.
  - destruct (rx_closed s); [ discriminate | ].
    fields. cbn [Z.eqb Pos.eqb negb]. cbv beta. fields. rewrite store_nil.
    eexists. split; [ reflexivity | ]. split; [ reflexivity | ]. now since_is.
Qed.

Lemma empty_socket_is_not_an_error_witness :
  0 <= fd (Bench.started Bench.takes_all).1
  /\ status (Bench.started Bench.takes_all).1 = DFU_CLIENT_STATUS_DOWNLOAD_INPROGRESS
  /\ socket_is_empty (Bench.started Bench.takes_all).2
       (fd (Bench.started Bench.takes_all).1)
  /\ recv_failure (Bench.started Bench.takes_all).2
       (fd (Bench.started Bench.takes_all).1) = None
  /\ exists w',
       dfu_client_process Bench.cfg (Bench.started Bench.takes_all).1
         (Bench.started Bench.takes_all).2
       = (tt,
          set_resp_buf (zeroed (CONFIG_NRF_DFU_HTTP_MAX_RESPONSE_SIZE Bench.cfg))
            (Bench.started Bench.takes_all).1, w')
       /\ sockets w' = sockets (Bench.started Bench.takes_all).2
       /\ since (Bench.started Bench.takes_all).2 w'
          = [Recv (fd (Bench.started Bench.takes_all).1)
               (CONFIG_NRF_DFU_HTTP_MAX_RESPONSE_SIZE Bench.cfg) true (-1)].
Proof.
  assert (He : socket_is_empty (Bench.started Bench.takes_all).2
                 (fd (Bench.started Bench.takes_all).1)).
  { intros s Hs. vm_compute in Hs. injection Hs as <-. reflexivity. }
  do 2 (split; [ evaluate | ]). split; [ exact He | ]. split; [ evaluate | ].
  apply (empty_socket_is_not_an_error Bench.cfg (Bench.started Bench.takes_all).1
           (Bench.started Bench.takes_all).2);
    [ evaluate | evaluate | exact He | evaluate ].
Defined.

(** X8.  A poll of a session in progress that finds its socket broken
    ([recv] fails with something else than [EAGAIN], also because the
    descriptor is not open) or closed by the peer ([recv] returns 0) puts
    the session in the error state and tells the application once, with
    [ENOTCONN] in the first case and [ECONNRESET] in the second.  It sends
    nothing and closes nothing: the descriptor stays in the object and in
    the table of sockets.  Every later poll does nothing. *)
Theorem receive_error_ends_the_download cfg d w st :
  0 <= fd d -> status d = DFU_CLIENT_STATUS_DOWNLOAD_INPROGRESS ->
  socket_is_empty w (fd d) ->
  recv_failure w (fd d) = Some st ->
  exists w' len r,
    dfu_client_process cfg d w
    = (tt, set_status DFU_CLIENT_ERROR
             (set_resp_buf (zeroed (CONFIG_NRF_DFU_HTTP_MAX_RESPONSE_SIZE cfg)) d), w')
    /\ sockets w' = sockets w
    /\ since w w' = [Recv (fd d) (CONFIG_NRF_DFU_HTTP_MAX_RESPONSE_SIZE cfg) true len;
                      Callback DFU_CLIENT_EVT_ERROR st (fragment_size d) r]
    /\ forall w'', dfu_client_process cfg
               (set_status DFU_CLIENT_ERROR
                  (set_resp_buf (zeroed (CONFIG_NRF_DFU_HTTP_MAX_RESPONSE_SIZE cfg)) d))
               w''
             = (tt, set_status DFU_CLIENT_ERROR
                      (set_resp_buf (zeroed (CONFIG_NRF_DFU_HTTP_MAX_RESPONSE_SIZE cfg)) d),
                w'').
Proof.
  intros Hfd Hst Hempty Hsome.
  assert (Hlater : forall w'', dfu_client_process cfg
               (set_status DFU_CLIENT_ERROR
                  (set_resp_buf (zeroed (CONFIG_NRF_DFU_HTTP_MAX_RESPONSE_SIZE cfg)) d))
               w''
             = (tt, set_status DFU_CLIENT_ERROR
                      (set_resp_buf (zeroed (CONFIG_NRF_DFU_HTTP_MAX_RESPONSE_SIZE cfg)) d),
                w'')).
  { intros w''. unfold dfu_client_process. go.
    change (DFU_CLIENT_ERROR =? DFU_CLIENT_STATUS_DOWNLOAD_INPROGRESS) with false.
    now rewrite orb_true_r. }
  enough (exists w' len r,
    dfu_client_process cfg d w
    = (tt, set_status DFU_CLIENT_ERROR
             (set_resp_buf (zeroed (CONFIG_NRF_DFU_HTTP_MAX_RESPONSE_SIZE cfg)) d), w')
    /\ sockets w' = sockets w
    /\ since w w' = [Recv (fd d) (CONFIG_NRF_DFU_HTTP_MAX_RESPONSE_SIZE cfg) true len;
                      Callback DFU_CLIENT_EVT_ERROR st (fragment_size d) r])
    as (w' & len & r & H1 & H2 & H3) by (exists w', len, r; auto).
  clear Hlater.
  unfold dfu_client_process, recv_resp_buf. go.
  destruct (Z.ltb_spec (fd d) 0); [ lia | ]. rewrite Hst, Z.eqb_refl. cbn [negb orb].
  unfold recv_failure, sys_recv in *.
  destruct (sockets w !! fd d) as [s|] eqn:Es.
  - rewrite (Hempty s Es).
    destruct (rx_error s) as [e|].
    + destruct (e =? EAGAIN) eqn:E; [ discriminate | ].
      injection Hsome as <-.
      fields. cbn [Z.eqb Pos.eqb negb]. cbv beta. fields. rewrite store_nil, E.
      cbn [negb]. fields.
      eexists _, _, _. split; [ reflexivity | ]. split; [ reflexivity | ].
      now since_is.
    + destruct (rx_closed s); [ | discriminate ].
      injection Hsome as <-.
      fields. cbn [Z.eqb Pos.eqb negb]. cbv beta. fields. rewrite store_nil.
      eexists _, _, _. split; [ reflexivity | ]. split; [ reflexivity | ].
      now since_is.
  - injection Hsome as <-. fields. cbn [Z.eqb Pos.eqb negb]. cbv beta. fields.
    rewrite store_nil.
    change (EBADF =? EAGAIN) with false. cbn [negb]. fields.
    eexists _, _, _. split; [ reflexivity | ]. split; [ reflexivity | ].
    now since_is.
Qed.

Lemma receive_error_ends_the_download_witness :
  0 <= fd Lab.hung_up.1
  /\ status Lab.hung_up.1 = DFU_CLIENT_STATUS_DOWNLOAD_INPROGRESS
  /\ socket_is_empty Lab.hung_up.2 (fd Lab.hung_up.1)
  /\ recv_failure Lab.hung_up.2 (fd Lab.hung_up.1) = Some ECONNRESET
  /\ exists w' len r,
       dfu_client_process Bench.cfg Lab.hung_up.1 Lab.hung_up.2
       = (tt, set_status DFU_CLIENT_ERROR
                (set_resp_buf
                   (zeroed (CONFIG_NRF_DFU_HTTP_MAX_RESPONSE_SIZE Bench.cfg))
                   Lab.hung_up.1), w')
       /\ sockets w' = sockets Lab.hung_up.2
       /\ since Lab.hung_up.2 w'
          = [Recv (fd Lab.hung_up.1)
               (CONFIG_NRF_DFU_HTTP_MAX_RESPONSE_SIZE Bench.cfg) true len;
             Callback DFU_CLIENT_EVT_ERROR ECONNRESET (fragment_size Lab.hung_up.1) r]
       /\ forall w'',
            dfu_client_process Bench.cfg
              (set_status DFU_CLIENT_ERROR
                 (set_resp_buf
                    (zeroed (CONFIG_NRF_DFU_HTTP_MAX_RESPONSE_SIZE Bench.cfg))
                    Lab.hung_up.1)) w''
            = (tt, set_status DFU_CLIENT_ERROR
                     (set_resp_buf
                        (zeroed (CONFIG_NRF_DFU_HTTP_MAX_RESPONSE_SIZE Bench.cfg))
                        Lab.hung_up.1), w'').
Proof.
  assert (He : socket_is_empty Lab.hung_up.2 (fd Lab.hung_up.1)).
  { intros s Hs. vm_compute in Hs. injection Hs as <-. reflexivity. }
  do 2 (split; [ evaluate | ]). split; [ exact He | ]. split; [ evaluate | ].
  apply (receive_error_ends_the_download Bench.cfg Lab.hung_up.1 Lab.hung_up.2
           ECONNRESET);
    [ evaluate | evaluate | exact He | evaluate ].
Defined.

(** The three ways a poll ends on a socket without bytes, on the test
    bench: nothing yet, the peer gone, the connection broken. *)
Example polls_without_bytes :
  callbacks (since (Bench.started Bench.takes_all).2
               (exec (dfu_client_process Bench.cfg)
                  (Bench.started Bench.takes_all)).2) = []
  /\ since Lab.hung_up.2 (exec (dfu_client_process Bench.cfg) Lab.hung_up).2
     = [Recv 3 2048 true 0; Callback DFU_CLIENT_EVT_ERROR ECONNRESET 0 0]
  /\ since Lab.broken.2 (exec (dfu_client_process Bench.cfg) Lab.broken).2
     = [Recv 3 2048 true (-1); Callback DFU_CLIENT_EVT_ERROR ENOTCONN 0 0]
  /\ status (exec (dfu_client_process Bench.cfg) Lab.broken).1 = DFU_CLIENT_ERROR
  /\ fd (exec (dfu_client_process Bench.cfg) Lab.broken).1 = 3.
Proof. vm_compute. repeat split; reflexivity. Qed.

(** ** [dfu_client_process] on a response that is not all there *)

(** X9.  While the response in the socket lacks the [Content-Range] header
    or the [Content-Length] header, a poll only looks: the object changes in
    nothing but the response buffer, which holds what was peeked, the
    firmware size is not learned even if the total is already there, no
    event is delivered, nothing is sent, and the bytes stay in the socket. *)
Theorem incomplete_header_waits cfg d w s :
  0 <= fd d -> status d = DFU_CLIENT_STATUS_DOWNLOAD_INPROGRESS ->
  0 < CONFIG_NRF_DFU_HTTP_MAX_RESPONSE_SIZE cfg ->
  sockets w !! fd d = Some s -> rx s <> [] ->
  total_size_of (peeked cfg (rx s)) = None
  \/ payload_size_of (peeked cfg (rx s)) = None ->
  dfu_client_process cfg d w
  = (tt, set_resp_buf (peeked cfg (rx s)) d, emit (peek_event cfg d (rx s)) w).
Proof.
  intros Hfd Hst HR Hs Hne Hmiss.
  rewrite (process_peek cfg d w s Hfd Hst HR Hs Hne).
  unfold process_response. go.
  destruct (total_size_of (peeked cfg (rx s))) as [total|]; [ | reflexivity ].
  destruct Hmiss as [Hm|Hm]; [ discriminate | ]. rewrite Hm. reflexivity.
Qed.

Lemma incomplete_header_waits_witness :
  0 <= fd (Lab.holds Lab.range_line_only).1
  /\ status (Lab.holds Lab.range_line_only).1 = DFU_CLIENT_STATUS_DOWNLOAD_INPROGRESS
  /\ 0 < CONFIG_NRF_DFU_HTTP_MAX_RESPONSE_SIZE Bench.cfg
  /\ sockets (Lab.holds Lab.range_line_only).2 !! fd (Lab.holds Lab.range_line_only).1
     = Some (Bench.holding Lab.range_line_only)
  /\ rx (Bench.holding Lab.range_line_only) <> []
  /\ (total_size_of (peeked Bench.cfg (rx (Bench.holding Lab.range_line_only))) = None
      \/ payload_size_of (peeked Bench.cfg (rx (Bench.holding Lab.range_line_only)))
         = None)
  /\ total_size_of (peeked Bench.cfg (rx (Bench.holding Lab.range_line_only)))
     = Some 2500
  /\ dfu_client_process Bench.cfg (Lab.holds Lab.range_line_only).1
       (Lab.holds Lab.range_line_only).2
     = (tt,
        set_resp_buf (peeked Bench.cfg (rx (Bench.holding Lab.range_line_only)))
          (Lab.holds Lab.range_line_only).1,
        emit (peek_event Bench.cfg (Lab.holds Lab.range_line_only).1
                (rx (Bench.holding Lab.range_line_only)))
          (Lab.holds Lab.range_line_only).2).
Proof.
  do 5 (split; [ evaluate | ]). split; [ right; evaluate | ].
  split; [ evaluate | ].
  apply (incomplete_header_waits Bench.cfg (Lab.holds Lab.range_line_only).1
           (Lab.holds Lab.range_line_only).2 (Bench.holding Lab.range_line_only));
    [ evaluate | evaluate | evaluate | evaluate | evaluate | right; evaluate ].
Defined.


Lemma short_fragment_poll cfg d w s total p :
  0 <= fd d -> status d = DFU_CLIENT_STATUS_DOWNLOAD_INPROGRESS ->
  0 < CONFIG_NRF_DFU_HTTP_MAX_RESPONSE_SIZE cfg ->
  sockets w !! fd d = Some s -> rx s <> [] ->
  total_size_of (peeked cfg (rx s)) = Some total ->
  payload_size_of (peeked cfg (rx s)) = Some p ->
  size_mismatch (firmware_size d) total = false ->
  fragment_is_short cfg (rx s) p ->
  dfu_client_process cfg d w
  = (tt,
     set_firmware_size (firmware_size_after (firmware_size d) total)
       (set_resp_buf (peeked cfg (rx s)) d),
     emit (peek_event cfg d (rx s)) w).
Proof.
  intros Hfd Hst HR Hs Hne Ht Hp Hm Hshort.
  rewrite (process_peek cfg d w s Hfd Hst HR Hs Hne).
  unfold process_response. go. rewrite Ht, Hp, check_total_size_spec. fields.
  rewrite Hm. fields.
  destruct ((p =? CONFIG_NRF_DFU_HTTP_MAX_FRAGMENT_SIZE cfg)
            || (Int.add (download_size d) p
                =? firmware_size_after (firmware_size d) total)); [ | reflexivity ].
  unfold fragment_is_short in Hshort.
  destruct (p_payload_of (peeked cfg (rx s))) as [pp|]; [ | reflexivity ].
  destruct (Z.eqb_spec p (Int.sub (peek_len cfg (rx s)) (Z.of_nat pp)));
    [ congruence | reflexivity ].
Qed.

(** X10.  While the headers are there and the fragment is not, or not all
    of it (no blank line yet, or another number of bytes after it than
    [Content-Length] says), the engine waits, however often it is polled:
    the firmware size is learned from the first poll on, [download_size]
    and the status stay, each poll only peeks, no event is delivered,
    nothing is sent, and the bytes stay in the socket.  This is for a peek
    that leaves a NUL in the response buffer, so that the searches for the
    headers and the blank line end inside it; a peek that fills the buffer
    is left out. *)
Theorem short_fragment_waits cfg d w s total p n :
  0 <= fd d -> status d = DFU_CLIENT_STATUS_DOWNLOAD_INPROGRESS ->
  0 < CONFIG_NRF_DFU_HTTP_MAX_RESPONSE_SIZE cfg ->
  sockets w !! fd d = Some s -> rx s <> [] ->
  total_size_of (peeked cfg (rx s)) = Some total ->
  payload_size_of (peeked cfg (rx s)) = Some p ->
  size_mismatch (firmware_size d) total = false ->
  holds_nul (peeked cfg (rx s)) = true ->
  fragment_is_short cfg (rx s) p ->
  (polls cfg (S n) (d, w)).1
  = set_firmware_size (firmware_size_after (firmware_size d) total)
      (set_resp_buf (peeked cfg (rx s)) d)
  /\ sockets (polls cfg (S n) (d, w)).2 = sockets w
  /\ since w (polls cfg (S n) (d, w)).2 = repeat (peek_event cfg d (rx s)) (S n).
Proof.
  intros Hfd Hst HR Hs Hne Ht Hp Hm _ Hshort.
  set (d1 := set_firmware_size (firmware_size_after (firmware_size d) total)
               (set_resp_buf (peeked cfg (rx s)) d)).
  assert (Hstep : forall w1, sockets w1 = sockets w ->
            exec (dfu_client_process cfg) (d1, w1)
            = (d1, emit (peek_event cfg d (rx s)) w1)).
  { intros w1 Hw1. unfold exec. fields.
    rewrite (short_fragment_poll cfg d1 w1 s total p); auto.
    - unfold d1. fields. rewrite firmware_size_after_idem.
      destruct d; reflexivity.
    - now rewrite Hw1.
    - unfold d1. fields. now rewrite no_mismatch_after. }
  assert (Hn : forall k w1, sockets w1 = sockets w ->
            polls cfg k (d1, w1)
            = (d1, {| sockets := sockets w1; next_fd := next_fd w1;
                      resolver := resolver w1; reachable := reachable w1;
                      errno := errno w1; application := application w1;
                      log := log w1 ++ repeat (peek_event cfg d (rx s)) k |})).
  { induction k as [|k IH]; intros w1 Hw1; cbn [polls].
    - cbn [repeat]. rewrite app_nil_r. now destruct w1.
    - rewrite (Hstep w1 Hw1), IH by exact Hw1. fields.
      rewrite <- app_assoc. reflexivity. }
  cbn [polls]. unfold exec at 1 2 3. fields.
  rewrite (short_fragment_poll cfg d w s total p); auto. fold d1.
  rewrite Hn by reflexivity. fields.
  split; [ reflexivity | ]. split; [ reflexivity | ].
  unfold since. fields. rewrite <- app_assoc, drop_app_length. reflexivity.
Qed.

Lemma short_fragment_waits_witness :
  0 <= fd (Lab.holds Lab.first_600).1
  /\ status (Lab.holds Lab.first_600).1 = DFU_CLIENT_STATUS_DOWNLOAD_INPROGRESS
  /\ 0 < CONFIG_NRF_DFU_HTTP_MAX_RESPONSE_SIZE Bench.cfg
  /\ sockets (Lab.holds Lab.first_600).2 !! fd (Lab.holds Lab.first_600).1
     = Some (Bench.holding Lab.first_600)
  /\ rx (Bench.holding Lab.first_600) <> []
  /\ total_size_of (peeked Bench.cfg (rx (Bench.holding Lab.first_600))) = Some 2500
  /\ payload_size_of (peeked Bench.cfg (rx (Bench.holding Lab.first_600))) = Some 1024
  /\ size_mismatch (firmware_size (Lab.holds Lab.first_600).1) 2500 = false
  /\ holds_nul (peeked Bench.cfg (rx (Bench.holding Lab.first_600))) = true
  /\ fragment_is_short Bench.cfg (rx (Bench.holding Lab.first_600)) 1024
  /\ (polls Bench.cfg 3 ((Lab.holds Lab.first_600).1, (Lab.holds Lab.first_600).2)).1
     = set_firmware_size
         (firmware_size_after (firmware_size (Lab.holds Lab.first_600).1) 2500)
         (set_resp_buf (peeked Bench.cfg (rx (Bench.holding Lab.first_600)))
            (Lab.holds Lab.first_600).1)
  /\ sockets
       (polls Bench.cfg 3 ((Lab.holds Lab.first_600).1, (Lab.holds Lab.first_600).2)).2
     = sockets (Lab.holds Lab.first_600).2
  /\ since (Lab.holds Lab.first_600).2
       (polls Bench.cfg 3 ((Lab.holds Lab.first_600).1, (Lab.holds Lab.first_600).2)).2
     = repeat (peek_event Bench.cfg (Lab.holds Lab.first_600).1
                 (rx (Bench.holding Lab.first_600))) 3.
Proof.
  do 9 (split; [ evaluate | ]). split; [ vm_compute; discriminate | ].
  apply (short_fragment_waits Bench.cfg (Lab.holds Lab.first_600).1
           (Lab.holds Lab.first_600).2 (Bench.holding Lab.first_600) 2500 1024 2);
    [ evaluate | evaluate | evaluate | evaluate | evaluate | evaluate | evaluate
    | evaluate | evaluate | vm_compute; discriminate ].
Defined.

(** ** [strstr] on the response buffer *)

Lemma starts_with_app needle t : starts_with needle (needle ++ t) = true.
Proof.
  induction needle as [|c n IH]; [ reflexivity | ].
  cbn [app starts_with]. now rewrite Ascii.eqb_refl, IH.
Qed.

Lemma starts_with_true needle h :
  starts_with needle h = true -> h = needle ++ drop (length needle) h.
Proof.
  revert h. induction needle as [|c n IH]; intros h H; [ reflexivity | ].
  destruct h as [|x h]; [ discriminate | ].
  cbn [starts_with] in H. apply andb_true_iff in H as [Hc Hn].
  apply Ascii.eqb_eq in Hc. subst x. cbn [app length drop]. f_equal. now apply IH.
Qed.

(** A non-null result of [strstr] is the offset of an occurrence that lies
    inside the buffer, with no NUL before it. *)
Lemma strstr_some h needle i :
  strstr h needle = Some i ->
  starts_with needle (drop i h) = true
  /\ (i + length needle <= length h)%nat
  /\ no_nul (take i h).
Proof.
  unfold no_nul. revert i. induction h as [|x h IH]; intros i; cbn [strstr].
  - destruct (starts_with needle []) eqn:E; [ | discriminate ].
    intros [= <-]. split; [ exact E | ]. split; [ | constructor ].
    destruct needle; [ simpl; lia | discriminate ].
  - destruct (starts_with needle (x :: h)) eqn:E.
    + intros [= <-]. split; [ exact E | ]. split; [ | constructor ].
      apply starts_with_true in E. apply (f_equal length) in E.
      rewrite length_app in E. simpl in *. lia.
    + destruct (Ascii.eqb x NUL) eqn:Ex; [ discriminate | ].
      destruct (strstr h needle) as [j|] eqn:Ej; [ | discriminate ].
      intros [= <-]. destruct (IH j eq_refl) as (H1 & H2 & H3).
      cbn [drop take length]. split; [ exact H1 | ]. split; [ lia | ].
      constructor; [ | exact H3 ]. intros ->. now rewrite Ascii.eqb_refl in Ex.
Qed.

(** Where the needle occurs with no NUL before it, [strstr] finds it there
    or earlier. *)
Lemma strstr_finds_before pre needle post :
  no_nul pre ->
  exists i, strstr (pre ++ needle ++ post) needle = Some i /\ (i <= length pre)%nat.
Proof.
  unfold no_nul. induction pre as [|x pre IH]; intros Hpre.
  - exists O. split; [ | simpl; lia ]. cbn [app].
    destruct (needle ++ post) eqn:E; cbn [strstr]; rewrite <- E, starts_with_app;
      reflexivity.
  - apply Forall_cons in Hpre as [Hx Hpre]. destruct (IH Hpre) as (i & Hi & Hle).
    cbn [app strstr].
    destruct (starts_with needle (x :: pre ++ needle ++ post)).
    + exists O. split; [ reflexivity | simpl; lia ].
    + destruct (Ascii.eqb x NUL) eqn:Ex.
      * apply Ascii.eqb_eq in Ex. contradiction.
      * rewrite Hi. exists (S i). split; [ reflexivity | simpl; lia ].
Qed.

(** Characters that are neither NUL nor the first of the needle are passed
    over. *)
Lemma strstr_skip a b c needle :
  Forall (fun x => x <> NUL /\ x <> c) a ->
  strstr (a ++ b) (c :: needle)
  = (fun i => (length a + i)%nat) <$> strstr b (c :: needle).
Proof.
  induction a as [|x a IH]; intros Ha.
  - cbn [app length]. destruct (strstr b (c :: needle)); reflexivity.
  - apply Forall_cons in Ha as [[Hx Hc] Ha].
    cbn [app strstr starts_with].
    destruct (Ascii.eqb c x) eqn:E1; [ apply Ascii.eqb_eq in E1; congruence | ].
    cbn [andb]. destruct (Ascii.eqb x NUL) eqn:E2;
      [ apply Ascii.eqb_eq in E2; congruence | ].
    rewrite (IH Ha). destruct (strstr b (c :: needle)); reflexivity.
Qed.

Lemma drop_repeat {A : Type} (x : A) n k : drop k (repeat x n) = repeat x (n - k).
Proof.
  revert k. induction n as [|n IH]; intros [|k]; cbn [repeat drop Nat.sub]; auto.
Qed.

(** The response buffer after a peek: the bytes received, then zeros. *)
Lemma peeked_is cfg resp :
  peeked cfg resp
  = take (Z.to_nat (CONFIG_NRF_DFU_HTTP_MAX_RESPONSE_SIZE cfg)) resp
    ++ repeat NUL (Z.to_nat (CONFIG_NRF_DFU_HTTP_MAX_RESPONSE_SIZE cfg)
                   - length (take (Z.to_nat (CONFIG_NRF_DFU_HTTP_MAX_RESPONSE_SIZE cfg)) resp)).
Proof. unfold peeked, store, zeroed. f_equal. apply drop_repeat. Qed.

Lemma peeked_whole cfg resp :
  Z.of_nat (length resp) <= CONFIG_NRF_DFU_HTTP_MAX_RESPONSE_SIZE cfg ->
  peeked cfg resp
  = resp ++ repeat NUL (Z.to_nat (CONFIG_NRF_DFU_HTTP_MAX_RESPONSE_SIZE cfg)
                        - length resp)
  /\ peek_len cfg resp = Z.of_nat (length resp).
Proof.
  intros H. rewrite peeked_is. unfold peek_len.
  rewrite take_ge by lia. auto.
Qed.

Lemma starts_with_in_data needle data k :
  no_nul needle ->
  starts_with needle (data ++ repeat NUL k) = true ->
  (length needle <= length data)%nat.
Proof.
  unfold no_nul. revert data.
  induction needle as [|c n IH]; intros data Hn H; [ simpl; lia | ].
  apply Forall_cons in Hn as [Hc Hn].
  destruct data as [|x data].
  - destruct k as [|k]; cbn [app repeat starts_with] in H; [ discriminate | ].
    apply andb_true_iff in H as [H _]. apply Ascii.eqb_eq in H. contradiction.
  - cbn [app starts_with] in H. apply andb_true_iff in H as [_ H].
    specialize (IH data Hn H). simpl. lia.
Qed.

(** What [strstr] finds in the response buffer lies in the bytes received,
    not in the zeros behind them. *)
Lemma strstr_in_data needle data k i :
  needle <> [] -> no_nul needle ->
  strstr (data ++ repeat NUL k) needle = Some i ->
  (i + length needle <= length data)%nat.
Proof.
  intros Hne Hn. revert i. induction data as [|x data IH]; intros i.
  - cbn [app]. destruct k as [|k]; cbn [repeat strstr].
    + destruct needle; [ congruence | discriminate ].
    + destruct (starts_with needle (NUL :: repeat NUL k)) eqn:E.
      * pose proof (starts_with_in_data needle [] (S k) Hn E) as Hl.
        destruct needle; [ congruence | simpl in Hl; lia ].
      * rewrite Ascii.eqb_refl. discriminate.
  - cbn [app strstr].
    destruct (starts_with needle (x :: data ++ repeat NUL k)) eqn:E.
    + intros [= <-].
      apply (starts_with_in_data needle (x :: data) k Hn E).
    + destruct (Ascii.eqb x NUL); [ discriminate | ].
      destruct (strstr (data ++ repeat NUL k) needle) as [j|] eqn:Ej; [ | discriminate ].
      intros [= <-]. specialize (IH j eq_refl). simpl. lia.
Qed.

Lemma p_payload_in_data cfg resp pp :
  p_payload_of (peeked cfg resp) = Some pp ->
  (4 <= pp)%nat /\ Z.of_nat pp <= peek_len cfg resp.
Proof.
  unfold p_payload_of. rewrite peeked_is.
  destruct (strstr _ (CRLF ++ CRLF)) as [i|] eqn:E; [ | discriminate ].
  intros [= <-]. apply strstr_in_data in E.
  - unfold peek_len. simpl in E. lia.
  - discriminate.
  - repeat constructor; discriminate.
Qed.

Lemma peek_len_le cfg resp :
  0 <= CONFIG_NRF_DFU_HTTP_MAX_RESPONSE_SIZE cfg ->
  peek_len cfg resp <= CONFIG_NRF_DFU_HTTP_MAX_RESPONSE_SIZE cfg.
Proof. intros H. unfold peek_len. rewrite length_take. lia. Qed.

(** The fragment in the response buffer is what was received after the
    blank line. *)
Lemma fragment_in_peeked cfg resp pp p :
  CONFIG_NRF_DFU_HTTP_MAX_RESPONSE_SIZE cfg <= Int.INT_MAX ->
  p_payload_of (peeked cfg resp) = Some pp ->
  p = Int.sub (peek_len cfg resp) (Z.of_nat pp) ->
  take (Z.to_nat p) (drop pp (peeked cfg resp))
  = drop pp (take (Z.to_nat (CONFIG_NRF_DFU_HTTP_MAX_RESPONSE_SIZE cfg)) resp).
Proof.
  intros HR Hpp Hp. destruct (p_payload_in_data cfg resp pp Hpp) as [H4 Hle].
  assert (Hr : 0 <= CONFIG_NRF_DFU_HTTP_MAX_RESPONSE_SIZE cfg).
  { destruct (Z.le_gt_cases 0 (CONFIG_NRF_DFU_HTTP_MAX_RESPONSE_SIZE cfg)); auto.
    unfold peek_len in Hle. rewrite Z2Nat.nonpos, take_0 in Hle by lia.
    simpl in Hle. lia. }
  pose proof (peek_len_le cfg resp Hr) as Hlen.
  rewrite sub_exact in Hp
    by (unfold Int.in_range, Int.INT_MIN, Int.INT_MAX in *; lia).
  rewrite peeked_is. unfold peek_len in *.
  set (data := take _ resp) in *.
  rewrite drop_app_le by lia. rewrite take_app_le.
  - apply take_ge. rewrite length_drop. lia.
  - rewrite length_drop. lia.
Qed.




(** ** A whole fragment *)





(** The refused fragment of the example: the callback's answer is logged,
    and the session is halted at offset 0 with the answer still in the
    socket. *)
Example refused_first_fragment :
  let after := exec (dfu_client_process Bench.cfg) (Lab.refusing Bench.r0_1023) in
  status after.1 = DFU_CLIENT_STATUS_HALTED
  /\ download_size after.1 = 0
  /\ firmware_size after.1 = 2500
  /\ callbacks (since (Lab.refusing Bench.r0_1023).2 after.2)
     = [(DFU_CLIENT_EVT_DOWNLOAD_FRAG, 1024)]
  /\ requests (since (Lab.refusing Bench.r0_1023).2 after.2) = []
  /\ sockets after.2 = sockets (Lab.refusing Bench.r0_1023).2.
Proof. vm_compute. repeat split; reflexivity. Qed.






(** ** Decimal numbers, printed and read back *)

Lemma digit_cases k : 0 <= k <= 9 ->
  k = 0 \/ k = 1 \/ k = 2 \/ k = 3 \/ k = 4 \/ k = 5 \/ k = 6 \/ k = 7 \/ k = 8 \/ k = 9.
Proof. lia. Qed.

Lemma digit_of_digit_char k : 0 <= k <= 9 -> digit_of (digit_char k) = Some k.
Proof.
  intros H. apply digit_cases in H.
  repeat (destruct H as [->|H]; [ reflexivity | ]). subst. reflexivity.
Qed.

Lemma atoi_digit_first k tl :
  0 <= k <= 9 ->
  atoi (digit_char k :: tl) = Int.wrap (atoi_digits 0 (digit_char k :: tl)).
Proof.
  intros H. apply digit_cases in H.
  repeat (destruct H as [->|H]; [ reflexivity | ]). subst. reflexivity.
Qed.

Lemma digit_is_plain c x :
  is_digit c -> digit_of x = None -> c <> NUL /\ c <> x.
Proof.
  intros (k & Hk & ->) Hx. split.
  - apply digit_cases in Hk.
    repeat (destruct Hk as [->|Hk]; [ discriminate | ]). subst. discriminate.
  - intros <-. rewrite digit_of_digit_char in Hx by exact Hk. discriminate.
Qed.

(** The digits [decimal_digits] puts in front of [acc], and what
    [atoi_digits] makes of them. *)
Lemma decimal_digits_read fuel :
  forall n acc, 0 <= n < 10 ^ Z.of_nat (S fuel) ->
    exists ds,
      decimal_digits (S fuel) n acc = ds ++ acc
      /\ ds <> [] /\ Forall is_digit ds
      /\ forall a rest,
           atoi_digits a (ds ++ rest)
           = atoi_digits (a * 10 ^ Z.of_nat (length ds) + n) rest.
Proof.
  assert (Hsmall : forall f n acc, 0 <= n < 10 ->
            exists ds,
              decimal_digits (S f) n acc = ds ++ acc
              /\ ds <> [] /\ Forall is_digit ds
              /\ forall a rest,
                   atoi_digits a (ds ++ rest)
                   = atoi_digits (a * 10 ^ Z.of_nat (length ds) + n) rest).
  { intros f n acc Hlt. cbn [decimal_digits].
    destruct (Z.ltb_spec n 10); [ | lia ].
    exists [digit_char (n mod 10)]. split; [ reflexivity | ].
    split; [ discriminate | ]. rewrite Z.mod_small by lia. split.
    - repeat constructor. exists n. split; [ lia | reflexivity ].
    - intros a rest. cbn [app atoi_digits length].
      rewrite digit_of_digit_char by lia. f_equal. lia. }
  induction fuel as [|fuel IH]; intros n acc Hn.
  - apply Hsmall. simpl in Hn. lia.
  - destruct (Z.ltb_spec n 10) as [Hlt|Hge]; [ apply Hsmall; lia | ].
    assert (Hm : 0 <= n mod 10 <= 9) by (pose proof (Z.mod_pos_bound n 10); lia).
    change (decimal_digits (S (S fuel)) n acc)
      with (let acc' := digit_char (n mod 10) :: acc in
            if n <? 10 then acc' else decimal_digits (S fuel) (n / 10) acc').
    cbv zeta. destruct (Z.ltb_spec n 10); [ lia | ].
    assert (Hq : 0 <= n / 10 < 10 ^ Z.of_nat (S fuel)).
    { split; [ apply Z.div_pos; lia | ].
      apply Z.div_lt_upper_bound; [ lia | ].
      rewrite (Nat2Z.inj_succ (S fuel)), Z.pow_succ_r in Hn by lia. lia. }
    destruct (IH (n / 10) (digit_char (n mod 10) :: acc) Hq)
      as (ds & E & Hne & Hd & Hread).
    exists (ds ++ [digit_char (n mod 10)]). split.
    { rewrite E, <- app_assoc. reflexivity. }
    split; [ destruct ds; discriminate | ]. split.
    { apply Forall_app. split; [ exact Hd | ].
      repeat constructor. exists (n mod 10). auto. }
    intros a rest. rewrite <- app_assoc. cbn [app].
    rewrite Hread. cbn [atoi_digits]. rewrite digit_of_digit_char by exact Hm.
    f_equal. rewrite length_app. cbn [length].
    rewrite Nat2Z.inj_add, Z.pow_add_r by lia.
    change (Z.of_nat 1) with 1. rewrite Z.pow_1_r.
    pose proof (Z.div_mod n 10 ltac:(lia)). lia.
Qed.

(** A number that an [int] holds and that is not negative is printed as
    digits, and [atoi] reads them back when something else than a digit
    follows. *)
Lemma decimal_read n :
  0 <= n <= Int.INT_MAX ->
  Forall is_digit (decimal n)
  /\ forall c rest, digit_of c = None -> atoi (decimal n ++ c :: rest) = n.
Proof.
  intros Hn. unfold decimal. destruct (Z.ltb_spec n 0); [ lia | ].
  destruct (decimal_digits_read 10 n []) as (ds & E & Hne & Hd & Hread).
  { unfold Int.INT_MAX in Hn. simpl. lia. }
  rewrite E, app_nil_r. split; [ exact Hd | ].
  intros c rest Hc. destruct ds as [|d ds]; [ congruence | ].
  apply Forall_cons in Hd as [(k & Hk & ->) Hd].
  cbn [app]. rewrite atoi_digit_first by exact Hk.
  change (digit_char k :: ds ++ c :: rest) with ((digit_char k :: ds) ++ c :: rest).
  rewrite Hread. cbn [atoi_digits]. rewrite Hc.
  rewrite Z.mul_0_l, Z.add_0_l. apply wrap_id.
  unfold Int.in_range, Int.INT_MIN, Int.INT_MAX in *. lia.
Qed.

(** ** Finding a header *)

Lemma strstr_here needle h : starts_with needle h = true -> strstr h needle = Some O.
Proof. intros H. destruct h; cbn [strstr]; now rewrite H. Qed.

Lemma strstr_next x h needle k :
  starts_with needle (x :: h) = false -> x <> NUL ->
  strstr h needle = Some k -> strstr (x :: h) needle = Some (S k).
Proof.
  intros H Hx E. cbn [strstr]. rewrite H.
  destruct (Ascii.eqb x NUL) eqn:Ex; [ apply Ascii.eqb_eq in Ex; congruence | ].
  now rewrite E.
Qed.

Lemma strstr_past_digits ds h c needle k :
  Forall is_digit ds -> digit_of c = None ->
  strstr h (c :: needle) = Some k ->
  strstr (ds ++ h) (c :: needle) = Some (length ds + k)%nat.
Proof.
  intros Hd Hc E. rewrite strstr_skip, E; [ reflexivity | ].
  eapply Forall_impl; [ exact Hd | ]. intros x Hx. now apply digit_is_plain.
Qed.

Lemma starts_with_false_app needle h t :
  starts_with needle h = false -> (length needle <= length h)%nat ->
  starts_with needle (h ++ t) = false.
Proof.
  revert h. induction needle as [|c n IH]; intros h H Hl; [ discriminate | ].
  destruct h as [|x h]; [ simpl in Hl; lia | ].
  cbn [app starts_with] in *. destruct (Ascii.eqb c x); [ | reflexivity ].
  cbn [andb] in *. apply IH; [ exact H | simpl in Hl; lia ].
Qed.

Lemma starts_with_true_app needle h t :
  starts_with needle h = true -> starts_with needle (h ++ t) = true.
Proof.
  intros H. apply starts_with_true in H. rewrite H, <- app_assoc.
  apply starts_with_app.
Qed.

(** What [strstr] finds in a buffer it finds in a longer one. *)
Lemma strstr_app_stable h t needle i :
  strstr h needle = Some i -> strstr (h ++ t) needle = Some i.
Proof.
  revert i. induction h as [|x h IH]; intros i.
  - cbn [strstr]. destruct (starts_with needle []) eqn:E; [ | discriminate ].
    intros [= <-]. apply strstr_here. now apply (starts_with_true_app needle [] t).
  - intros E. pose proof (strstr_some _ _ _ E) as (_ & Hl & _).
    cbn [strstr] in E. cbn [app strstr].
    destruct (starts_with needle (x :: h)) eqn:Es.
    + injection E as <-.
      change (x :: h ++ t) with ((x :: h) ++ t).
      now rewrite (starts_with_true_app needle (x :: h) t Es).
    + destruct (Ascii.eqb x NUL); [ discriminate | ].
      destruct (strstr h needle) as [j|] eqn:Ej; [ | discriminate ].
      injection E as <-.
      change (x :: h ++ t) with ((x :: h) ++ t).
      rewrite (starts_with_false_app needle (x :: h) t Es) by (simpl in *; lia).
      now rewrite (IH j eq_refl).
Qed.

(** Steps over what stands before the header looked for. *)
Ltac find_header :=
  repeat first
    [ apply strstr_here; reflexivity
    | eapply strstr_next; [ reflexivity | discriminate | ]
    | eapply strstr_past_digits; [ eassumption | reflexivity | ] ].

(** The length of a head, summed over its parts. *)
Ltac lengths :=
  unfold CRLF; cbn [lit list_ascii_of_string];
  repeat progress (rewrite ?length_app; cbn [length]).

(** [strstr h needle = Some k] where [k] is the length of what stands
    before the header. *)
Ltac found :=
  etransitivity;
  [ cbn [lit list_ascii_of_string app CRLF]; find_header
  | f_equal; lengths; lia ].

Lemma drop_length_app {A : Type} (a b : list A) n :
  n = length a -> drop n (a ++ b) = b.
Proof. intros ->. apply drop_app_length. Qed.

Ltac dropped := apply drop_length_app; lengths; lia.

Section Response.

Variables first last total : Z.
Variable payload : bytes.

Hypothesis Hfirst : 0 <= first <= Int.INT_MAX.
Hypothesis Hlast : 0 <= last <= Int.INT_MAX.
Hypothesis Htotal : 0 <= total <= Int.INT_MAX.
Hypothesis Hlen : Z.of_nat (length payload) <= Int.INT_MAX.

(** The hdr up to the total, up to the length. *)
Let to_total : bytes :=
  lit "HTTP/1.1 206 Partial Content" ++ CRLF
  ++ lit "Content-Range: bytes " ++ decimal first ++ lit "-" ++ decimal last
  ++ lit "/".

Let to_length : bytes :=
  to_total ++ decimal total ++ CRLF ++ lit "Content-Length: ".

Let hdr : bytes := response_head first last total (Z.of_nat (length payload)) [].

Lemma hdr_to_total t :
  hdr ++ t
  = to_total ++ decimal total ++ CR :: LF
    :: lit "Content-Length: " ++ decimal (Z.of_nat (length payload))
       ++ CRLF ++ CRLF ++ t.
Proof.
  unfold hdr, response_head, to_total. rewrite <- !app_assoc. reflexivity.
Qed.

Lemma hdr_to_length t :
  hdr ++ t
  = to_length ++ decimal (Z.of_nat (length payload)) ++ CR :: LF :: CRLF ++ t.
Proof.
  unfold hdr, response_head, to_length, to_total. rewrite <- !app_assoc.
  reflexivity.
Qed.

Lemma hdr_total t : total_size_of (hdr ++ t) = Some total.
Proof.
  destruct (decimal_read first Hfirst) as [Df _].
  destruct (decimal_read last Hlast) as [Dl _].
  destruct (decimal_read total Htotal) as [Dt Rt].
  unfold total_size_of.
  assert (E1 : strstr (hdr ++ t) (lit "Content-Range: bytes") = Some 30%nat).
  { unfold hdr, response_head. rewrite <- !app_assoc.
    cbn [lit list_ascii_of_string app CRLF]. find_header. }
  rewrite E1.
  assert (E2 : strstr (drop (30 + 20) (hdr ++ t)) (lit "/")
               = Some (length to_total - 51)%nat).
  { unfold hdr, response_head, to_total. rewrite <- !app_assoc.
    change (drop (30 + 20) (lit "HTTP/1.1 206 Partial Content" ++ CRLF
                            ++ lit "Content-Range: bytes " ++ ?x))
      with (" "%char :: x).
    found. }
  rewrite E2.
  replace (drop (30 + 20 + (length to_total - 51) + 1) (hdr ++ t))
    with (decimal total ++ CR :: LF
          :: lit "Content-Length: " ++ decimal (Z.of_nat (length payload))
             ++ CRLF ++ CRLF ++ t).
  - rewrite Rt; reflexivity.
  - symmetry. rewrite hdr_to_total. unfold to_total. dropped.
Qed.

Lemma hdr_length t :
  payload_size_of (hdr ++ t) = Some (Z.of_nat (length payload)).
Proof.
  destruct (decimal_read first Hfirst) as [Df _].
  destruct (decimal_read last Hlast) as [Dl _].
  destruct (decimal_read total Htotal) as [Dt _].
  destruct (decimal_read (Z.of_nat (length payload)) ltac:(lia)) as [Dp Rp].
  unfold payload_size_of.
  assert (E1 : strstr (hdr ++ t) (lit "Content-Length: ")
               = Some (length to_length - 16)%nat).
  { unfold hdr, response_head, to_length, to_total. rewrite <- !app_assoc.
    found. }
  rewrite E1.
  replace (drop (length to_length - 16 + 16) (hdr ++ t))
    with (decimal (Z.of_nat (length payload)) ++ CR :: LF :: CRLF ++ t).
  - rewrite Rp; reflexivity.
  - symmetry. rewrite hdr_to_length. unfold to_length, to_total. dropped.
Qed.

Lemma hdr_blank_line t : p_payload_of (hdr ++ t) = Some (length hdr).
Proof.
  destruct (decimal_read first Hfirst) as [Df _].
  destruct (decimal_read last Hlast) as [Dl _].
  destruct (decimal_read total Htotal) as [Dt _].
  destruct (decimal_read (Z.of_nat (length payload)) ltac:(lia)) as [Dp _].
  unfold p_payload_of.
  assert (E1 : strstr (hdr ++ t) (CRLF ++ CRLF) = Some (length hdr - 4)%nat).
  { unfold hdr, response_head. rewrite <- !app_assoc. found. }
  rewrite E1. f_equal.
  unfold hdr, response_head. lengths. lia.
Qed.

End Response.


(** X16.  What the engine reads from a well-formed answer is what the
    server put in: for a response with the status line, [Content-Range:
    bytes first-last/total], [Content-Length] and the payload, which fits
    the response buffer, the parsing of [dfu_client_process] finds the
    total, finds the length of the payload, finds the blank line, sees the
    fragment as complete, and the object handed to the application points
    at exactly the payload. *)
Theorem response_is_read_back cfg d first last total payload :
  0 <= first <= Int.INT_MAX ->
  0 <= last <= Int.INT_MAX ->
  0 <= total <= Int.INT_MAX ->
  Z.of_nat (length (response first last total [] payload))
  <= CONFIG_NRF_DFU_HTTP_MAX_RESPONSE_SIZE cfg <= Int.INT_MAX ->
  exists pp,
    total_size_of (peeked cfg (response first last total [] payload)) = Some total
    /\ payload_size_of (peeked cfg (response first last total [] payload))
       = Some (Z.of_nat (length payload))
    /\ p_payload_of (peeked cfg (response first last total [] payload)) = Some pp
    /\ Z.of_nat (length payload)
       = Int.sub (peek_len cfg (response first last total [] payload)) (Z.of_nat pp)
    /\ fragment_bytes
         (handed cfg d (response first last total [] payload) total pp
            (Z.of_nat (length payload)))
       = payload.
Proof.
  intros Hfirst Hlast Htotal [Hfit HR].
  set (hdr := response_head first last total (Z.of_nat (length payload)) []).
  assert (Hresp : response first last total [] payload = hdr ++ payload)
    by reflexivity.
  rewrite Hresp in *. rewrite length_app in Hfit.
  assert (Hlen : Z.of_nat (length payload) <= Int.INT_MAX) by lia.
  destruct (peeked_whole cfg (hdr ++ payload)) as [Ep El];
    [ rewrite length_app; lia | ].
  exists (length hdr).
  assert (Hpp : p_payload_of (peeked cfg (hdr ++ payload)) = Some (length hdr)).
  { rewrite Ep, <- app_assoc. now apply hdr_blank_line. }
  assert (Hsub : Z.of_nat (length payload)
                 = Int.sub (peek_len cfg (hdr ++ payload)) (Z.of_nat (length hdr))).
  { rewrite El, length_app, sub_exact; [ lia | ].
    unfold Int.in_range, Int.INT_MIN, Int.INT_MAX in *. lia. }
  split; [ rewrite Ep, <- app_assoc; now apply hdr_total | ].
  split; [ rewrite Ep, <- app_assoc; now apply hdr_length | ].
  split; [ exact Hpp | ]. split; [ exact Hsub | ].
  unfold fragment_bytes, handed. fields.
  rewrite (fragment_in_peeked cfg (hdr ++ payload) (length hdr) _ HR Hpp Hsub).
  rewrite take_ge by (rewrite length_app; lia).
  apply drop_app_length.
Qed.

Lemma response_is_read_back_witness :
  0 <= 0 <= Int.INT_MAX
  /\ 0 <= 1023 <= Int.INT_MAX
  /\ 0 <= 2500 <= Int.INT_MAX
  /\ Z.of_nat (length (response 0 1023 2500 [] (Bench.firmware 1024)))
     <= CONFIG_NRF_DFU_HTTP_MAX_RESPONSE_SIZE Bench.cfg <= Int.INT_MAX
  /\ exists pp,
       total_size_of (peeked Bench.cfg (response 0 1023 2500 [] (Bench.firmware 1024)))
       = Some 2500
       /\ payload_size_of
            (peeked Bench.cfg (response 0 1023 2500 [] (Bench.firmware 1024)))
          = Some (Z.of_nat (length (Bench.firmware 1024)))
       /\ p_payload_of
            (peeked Bench.cfg (response 0 1023 2500 [] (Bench.firmware 1024)))
          = Some pp
       /\ Z.of_nat (length (Bench.firmware 1024))
          = Int.sub
              (peek_len Bench.cfg (response 0 1023 2500 [] (Bench.firmware 1024)))
              (Z.of_nat pp)
       /\ fragment_bytes
            (handed Bench.cfg Bench.fresh
               (response 0 1023 2500 [] (Bench.firmware 1024)) 2500 pp
               (Z.of_nat (length (Bench.firmware 1024))))
          = Bench.firmware 1024.
Proof.
  do 4 (split; [ vm_compute; split; discriminate | ]).
  apply (response_is_read_back Bench.cfg Bench.fresh 0 1023 2500
           (Bench.firmware 1024)); vm_compute; split; discriminate.
Defined.

(** X17.  The test for a close directive looks for the header name
    [Connection: ] and then for the word [close] anywhere behind it in the
    response buffer: in the header's value, in a later header, or in the
    bytes of the firmware.  Whatever stands before the header ([a], which
    holds no NUL), between the header and the word ([b], likewise) and
    after the word ([c]), the engine takes the response as one that closes
    the connection, as long as the word lies within the response buffer. *)
Theorem close_anywhere_after_connection_counts cfg a b c :
  no_nul a -> no_nul b ->
  Z.of_nat (length (a ++ lit "Connection: " ++ b ++ lit "close"))
  <= CONFIG_NRF_DFU_HTTP_MAX_RESPONSE_SIZE cfg ->
  connection_resume_of
    (peeked cfg (a ++ lit "Connection: " ++ b ++ lit "close" ++ c)) = true.
Proof.
  intros Ha Hb Hfit. rewrite peeked_is.
  set (R := Z.to_nat (CONFIG_NRF_DFU_HTTP_MAX_RESPONSE_SIZE cfg)) in *.
  set (resp := a ++ lit "Connection: " ++ b ++ lit "close" ++ c).
  assert (Et : take R resp
               = a ++ lit "Connection: " ++ b ++ lit "close"
                 ++ take (R - length (a ++ lit "Connection: " ++ b ++ lit "close")) c).
  { unfold resp.
    replace (a ++ lit "Connection: " ++ b ++ lit "close" ++ c)
      with ((a ++ lit "Connection: " ++ b ++ lit "close") ++ c)
      by (rewrite <- !app_assoc; reflexivity).
    rewrite take_app_ge by lia. rewrite <- !app_assoc. reflexivity. }
  rewrite Et. clear Et. rewrite <- !app_assoc.
  set (tail := take _ c ++ repeat NUL _).
  unfold connection_resume_of.
  destruct (strstr_finds_before a (lit "Connection: ") (b ++ lit "close" ++ tail) Ha)
    as (i & Ei & Hi).
  rewrite Ei.
  replace (drop (i + 12) (a ++ lit "Connection: " ++ b ++ lit "close" ++ tail))
    with (drop (i + 12) (a ++ lit "Connection: " ++ b) ++ lit "close" ++ tail).
  - destruct (strstr_finds_before (drop (i + 12) (a ++ lit "Connection: " ++ b))
                (lit "close") tail) as (j & Ej & _).
    { apply Forall_drop. apply Forall_app. split; [ exact Ha | ].
      apply Forall_app. split; [ | exact Hb ].
      repeat constructor; discriminate. }
    now rewrite Ej.
  - replace (a ++ lit "Connection: " ++ b ++ lit "close" ++ tail)
      with ((a ++ lit "Connection: " ++ b) ++ lit "close" ++ tail)
      by (rewrite <- !app_assoc; reflexivity).
    rewrite (drop_app_le (a ++ lit "Connection: " ++ b)); [ reflexivity | ].
    rewrite !length_app. simpl. lia.
Qed.

Lemma close_anywhere_after_connection_counts_witness :
  no_nul Lab.before_connection
  /\ no_nul Lab.up_to_close
  /\ Z.of_nat (length (Lab.before_connection ++ lit "Connection: "
                       ++ Lab.up_to_close ++ lit "close"))
     <= CONFIG_NRF_DFU_HTTP_MAX_RESPONSE_SIZE Bench.cfg
  /\ connection_resume_of
       (peeked Bench.cfg
          (Lab.before_connection ++ lit "Connection: " ++ Lab.up_to_close
           ++ lit "close" ++ Bench.firmware 1013)) = true.
Proof.
  assert (H1 : no_nul Lab.before_connection).
  { vm_compute. repeat (constructor; [ intros H; discriminate H | ]). constructor. }
  assert (H2 : no_nul Lab.up_to_close).
  { vm_compute. repeat (constructor; [ intros H; discriminate H | ]). constructor. }
  split; [ exact H1 | ]. split; [ exact H2 | ]. split; [ evaluate | ].
  apply (close_anywhere_after_connection_counts Bench.cfg Lab.before_connection
           Lab.up_to_close (Bench.firmware 1013) H1 H2).
  evaluate.
Defined.

(** The response of the example says [Connection: keep-alive]; the word
    [close] stands among the 1024 bytes of the fragment.  The engine takes
    the fragment, closes descriptor 3 and asks for the next fragment on a
    new connection. *)
Example close_in_the_firmware_reconnects :
  let before := Lab.holds Lab.r0_1023_with_close in
  let after := exec (dfu_client_process Bench.cfg) before in
  payload_size_of (peeked Bench.cfg Lab.r0_1023_with_close) = Some 1024
  /\ fd before.1 = 3
  /\ fd after.1 = 4
  /\ sockets after.2 !! 3 = None
  /\ download_size after.1 = 1024
  /\ requests (since before.2 after.2) = [Bench.range_request 1024 2047].
Proof. vm_compute. repeat split; reflexivity. Qed.


(** ** What a call does on the network *)

(** An event that is no [send] and touches no other descriptor. *)
Ltac calm := split; [ apply not_send_other; exact I | unfold own; simpl; auto ].

Lemma sys_recv_next_fd sock size peek w :
  next_fd (sys_recv sock size peek w).2 = next_fd w.
Proof.
  unfold sys_recv. destruct (sockets w !! sock) as [s|]; simpl; auto.
  destruct (rx s); simpl.
  - destruct (rx_error s); simpl; auto. destruct (rx_closed s); auto.
  - destruct peek; auto.
Qed.

Lemma rxdata_flush_own cfg d w b :
  exists buf w',
    rxdata_flush cfg d w = (tt, set_resp_buf buf d, w')
    /\ extends_by (before_send (fd d) b) w w' /\ next_fd w' = next_fd w.
Proof.
  unfold rxdata_flush. run.
  destruct (is_null (host d) || (callback d =? NULL)
            || (status d =? DFU_CLIENT_STATUS_IDLE)).
  - exists (resp_buf d), w. destruct d; simpl. repeat split; auto.
    apply extends_refl.
  - pose proof (sys_recv_log (before_send (fd d) b) (fd d)
                  (CONFIG_NRF_DFU_HTTP_MAX_RESPONSE_SIZE cfg) false w
                  ltac:(intros; calm)) as Hl.
    pose proof (sys_recv_next_fd (fd d) (CONFIG_NRF_DFU_HTTP_MAX_RESPONSE_SIZE cfg)
                  false w) as Hn.
    destruct (sys_recv (fd d) (CONFIG_NRF_DFU_HTTP_MAX_RESPONSE_SIZE cfg) false w)
      as [[n data] w1].
    simpl in *.
    destruct (n =? -1); simpl; [ destruct (errno w1 =? EAGAIN); simpl | ];
      eexists _, _; (split; [ reflexivity | ]); split; auto.
    apply extends_emit; auto. calm.
Qed.

Lemma connect_loop_own P sock family addrs rc w :
  (forall a r, P (Connect sock a r)) ->
  extends_by P w (connect_loop sock family addrs rc w).2.
Proof. intros H. apply connect_loop_log. intros. apply H. Qed.

(** [httpc_connect], path by path. *)
Lemma httpc_connect_paths name port family proto w :
  httpc_connect (Some name) port family proto w
  = let rc := (resolver w name port family proto).1 in
    let addrinf := (resolver w name port family proto).2 in
    let w1 := emit (Getaddrinfo name port family proto rc) w in
    if (rc <? 0) || match addrinf with [] => true | _ => false end then (-1, w1)
    else if next_fd w <? 0 then (-1, emit (Socket family proto (-1)) w1)
    else
      let w2 :=
        emit (Socket family proto (next_fd w))
          (set_next_fd (next_fd w + 1)
             (set_sockets
                (<[next_fd w := {| rx := []; rx_error := None; rx_closed := false;
                                   peer := None |}]> (sockets w)) w1)) in
      let r := connect_loop (next_fd w) family addrinf rc w2 in
      if r.1 <? 0 then (-1, sys_close (next_fd w) r.2) else (next_fd w, r.2).
Proof.
  unfold httpc_connect, sys_getaddrinfo.
  destruct (resolver w name port family proto) as [rc addrinf]. cbn [fst snd].
  cbv zeta.
  destruct (Z.ltb_spec rc 0) as [Hrc|Hrc]; [ reflexivity | ].
  cbn [orb]. destruct addrinf as [|a0 addrinf]; [ reflexivity | ].
  unfold sys_socket. fields.
  destruct (Z.ltb_spec (next_fd w) 0) as [Hn|Hn].
  - destruct (Z.leb_spec 0 (-1)); [ lia | ].
    destruct (Z.ltb_spec rc 0); [ lia | ]. reflexivity.
  - destruct (Z.leb_spec 0 (next_fd w)); [ | lia ].
    match goal with |- context [connect_loop ?s ?f ?l ?r ?ww] =>
      destruct (connect_loop s f l r ww) as [rc1 w3] end.
    reflexivity.
Qed.

(** [httpc_connect] works on the descriptor it gets from [socket()], and
    returns that one or -1. *)
Lemma httpc_connect_own host port family proto w a :
  extends_by (before_send a (next_fd w)) w (httpc_connect host port family proto w).2
  /\ ((httpc_connect host port family proto w).1 = -1
      \/ (httpc_connect host port family proto w).1 = next_fd w
         /\ 0 <= next_fd w).
Proof.
  destruct host as [name|]; [ | simpl; split; [ apply extends_refl | auto ] ].
  rewrite httpc_connect_paths. cbv zeta.
  set (rc := (resolver w name port family proto).1).
  set (addrinf := (resolver w name port family proto).2).
  assert (H1 : extends_by (before_send a (next_fd w)) w
                 (emit (Getaddrinfo name port family proto rc) w))
    by (apply extends_emit; [ apply extends_refl | calm ]).
  destruct ((rc <? 0) || match addrinf with [] => true | _ => false end);
    [ simpl; auto | ].
  destruct (Z.ltb_spec (next_fd w) 0) as [Hn|Hn].
  - simpl. split; [ | auto ]. apply extends_emit; [ exact H1 | calm ].
  - match goal with |- context [connect_loop ?s ?f ?l ?r ?ww] =>
      pose proof (connect_loop_own (before_send a (next_fd w)) s f l r ww
                    ltac:(intros; calm)) as H3;
      assert (H2 : extends_by (before_send a (next_fd w)) w ww)
        by (apply extends_emit; [ | calm ];
            apply extends_set_next_fd, extends_set_sockets; exact H1);
      destruct (connect_loop s f l r ww) as [rc1 w3] end.
    fields.
    assert (H4 : extends_by (before_send a (next_fd w)) w w3)
      by (eapply extends_trans; eauto).
    destruct (rc1 <? 0); simpl; split; auto.
    eapply extends_trans; [ exact H4 | apply sys_close_log; calm ].
Qed.

Lemma reconnect_own d w :
  let '(go_on, d', w') := reconnect d w in
  extends_by (before_send (fd d) (next_fd w)) w w'
  /\ (if go_on then fd d' = next_fd w else True).
Proof.
  unfold reconnect. go.
  assert (H0 : extends_by (before_send (fd d) (next_fd w)) w (sys_close (fd d) w))
    by (apply sys_close_log; calm).
  destruct (httpc_connect_own (host d) None AF_INET IPPROTO_TCP (sys_close (fd d) w)
              (fd d)) as [H1 H2].
  change (next_fd (sys_close (fd d) w)) with (next_fd w) in *.
  destruct (httpc_connect (host d) None AF_INET IPPROTO_TCP (sys_close (fd d) w))
    as [sock w2].
  fields.
  assert (Hx : extends_by (before_send (fd d) (next_fd w)) w w2)
    by (eapply extends_trans; eauto).
  destruct (Z.ltb_spec sock 0); go.
  - split; [ | exact I ]. apply extends_emit; auto. calm.
  - split; [ exact Hx | ]. destruct H2 as [->|[-> _]]; [ lia | reflexivity ].
Qed.

(** [send_request] sends the request for its object, last, or nothing. *)
Lemma send_request_one cfg d w :
  let '(r, d', w') := send_request cfg d w in
  fd d' = fd d
  /\ (w' = w
      \/ exists len r',
           w' = emit (Send (fd d) (request_bytes cfg d') len r') w
           /\ status d' = DFU_CLIENT_STATUS_DOWNLOAD_INPROGRESS).
Proof.
  unfold send_request. go. unfold snprintf.
  destruct (Int.INT_MAX
            <? Z.of_nat
                 (length
                    (request_text cfg
                       (set_req_buf
                          (zeroed (CONFIG_NRF_DFU_HTTP_MAX_REQUEST_SIZE cfg)) d))))
    eqn:E.
  - go. simpl. auto.
  - match goal with |- context [if 0 <? ?sz then (?n, ?a) else (?n, ?b)] =>
      replace (if 0 <? sz then (n, a) else (n, b))
        with (n, if 0 <? sz then a else b)
        by (destruct (0 <? sz); reflexivity) end.
    go.
    match goal with |- context [if 0 <? ?n then _ else _] =>
      destruct (0 <? n) end; go; [ | auto ].
    match goal with |- context [sys_send ?a ?b ?c ?w] =>
      pose proof (sys_send_emit a b c w) as Hs;
      destruct (sys_send a b c w) as [r w1] end.
    go. split; auto. right. subst w1. eexists _, _. split; [ | reflexivity ].
    f_equal. f_equal.
    unfold request_bytes, snprintf. go. rewrite Nat2Z.id.
    change (request_text cfg (set_status _ (set_req_buf _ _)))
      with (request_text cfg d).
    change (request_text cfg (set_req_buf _ d)) with (request_text cfg d) in *.
    rewrite E. destruct (0 <? _); reflexivity.
Qed.

Lemma one_request_quiet cfg a b w d' w' :
  extends_by (before_send a b) w w' -> one_request cfg a b w d' w'.
Proof. intros H. exists w'. auto. Qed.

Lemma fragment_request_one cfg flush close a b w0 d w :
  extends_by (before_send a b) w0 w -> fd d = a -> next_fd w = b ->
  let '(r, d', w') := fragment_request cfg flush close d w in
  one_request cfg a b w0 d' w'.
Proof.
  intros Hx Hfd Hn. unfold fragment_request. unfold bind at 1. unfold get at 1.
  destruct (is_null (host d) || (callback d =? NULL) || is_null (resource d));
    [ now apply one_request_quiet | ].
  unfold bind at 1.
  assert (H1 : exists buf w1,
             (if flush then rxdata_flush cfg else ret tt) d w
             = (tt, set_resp_buf buf d, w1)
             /\ extends_by (before_send a b) w w1 /\ next_fd w1 = next_fd w).
  { destruct flush.
    - destruct (rxdata_flush_own cfg d w b) as (buf & w1 & E & H & Hnf).
      exists buf, w1. rewrite <- Hfd. auto.
    - exists (resp_buf d), w. unfold ret. destruct d; simpl.
      repeat split; auto. apply extends_refl. }
  destruct H1 as (buf & w1 & E & H1 & Hn1). rewrite E. clear E.
  assert (Hx1 : extends_by (before_send a b) w0 w1) by (eapply extends_trans; eauto).
  unfold bind at 1.
  assert (H2 : let '(go_on, d2, w2) :=
                 (if close then reconnect else ret true) (set_resp_buf buf d) w1 in
               extends_by (before_send a b) w1 w2
               /\ (if go_on then fd d2 = a \/ fd d2 = b else True)).
  { destruct close.
    - pose proof (reconnect_own (set_resp_buf buf d) w1) as H.
      destruct (reconnect (set_resp_buf buf d) w1) as [[go_on d2] w2].
      fields. rewrite Hfd, Hn1, Hn in H. destruct H as [H Hgo].
      split; [ exact H | ]. destruct go_on; auto.
    - unfold ret. fields. split; [ apply extends_refl | auto ]. }
  destruct ((if close then reconnect else ret true) (set_resp_buf buf d) w1)
    as [[go_on d2] w2].
  destruct H2 as [H2 Hgo].
  assert (Hx2 : extends_by (before_send a b) w0 w2) by (eapply extends_trans; eauto).
  destruct go_on; [ | now apply one_request_quiet ].
  pose proof (send_request_one cfg d2 w2) as H3.
  destruct (send_request cfg d2 w2) as [[r d3] w3].
  destruct H3 as [Hfd3 [-> | (len & r' & -> & Hst)]];
    [ now apply one_request_quiet | ].
  exists w2. split; [ exact Hx2 | ]. right. exists len, r'.
  rewrite Hfd3. repeat split; auto.
Qed.

Lemma check_total_size_own total a b d w :
  fd (check_total_size total d w).1.2 = fd d
  /\ extends_by (before_send a b) w (check_total_size total d w).2
  /\ next_fd (check_total_size total d w).2 = next_fd w.
Proof.
  rewrite check_total_size_spec. destruct (size_mismatch _ _); fields.
  - repeat split. apply extends_emit; [ apply extends_refl | calm ].
  - repeat split. apply extends_refl.
Qed.

Lemma dfu_client_process_one cfg d w :
  let '(_, d', w') := dfu_client_process cfg d w in
  one_request cfg (fd d) (next_fd w) w d' w'.
Proof.
  set (a := fd d). set (b := next_fd w).
  unfold dfu_client_process. go.
  destruct ((fd d <? 0) || negb (status d =? DFU_CLIENT_STATUS_DOWNLOAD_INPROGRESS));
    [ apply one_request_quiet, extends_refl | ].
  unfold recv_resp_buf. go.
  pose proof (sys_recv_log (before_send a b) (fd d)
                (CONFIG_NRF_DFU_HTTP_MAX_RESPONSE_SIZE cfg) true w
                ltac:(intros; calm)) as Hl.
  pose proof (sys_recv_next_fd (fd d) (CONFIG_NRF_DFU_HTTP_MAX_RESPONSE_SIZE cfg)
                true w) as Hn.
  destruct (sys_recv (fd d) (CONFIG_NRF_DFU_HTTP_MAX_RESPONSE_SIZE cfg) true w)
    as [[n data] w1].
  fields. fold b in Hn.
  destruct (n =? -1).
  { destruct (negb (errno w1 =? EAGAIN)); go; apply one_request_quiet; auto.
    apply extends_emit; auto. calm. }
  destruct (n =? 0).
  { go. apply one_request_quiet. apply extends_emit; auto. calm. }
  unfold process_response. go.
  destruct (total_size_of _) as [total|]; [ | now apply one_request_quiet ].
  destruct (payload_size_of _) as [p|]; [ | now apply one_request_quiet ].
  match goal with |- context [check_total_size total ?dd ?ww] =>
    destruct (check_total_size_own total a b dd ww) as (Hfd1 & Hw2 & Hn2);
    destruct (check_total_size total dd ww) as [[[] d1] w2] end.
  fields. rewrite Hn in Hn2.
  assert (Hx2 : extends_by (before_send a b) w w2) by (eapply extends_trans; eauto).
  destruct (_ || _); [ | now apply one_request_quiet ].
  destruct (p_payload_of _) as [pp|]; [ | now apply one_request_quiet ].
  destruct (negb _); [ now apply one_request_quiet | ].
  match goal with |- context [if ?r =? 0 then _ else _] => destruct (r =? 0) end.
  2:{ apply one_request_quiet. apply extends_emit; auto. calm. }
  unfold fragment_taken. go.
  set (w3 := emit (Callback DFU_CLIENT_EVT_DOWNLOAD_FRAG _ _ _) w2).
  assert (Hw3 : extends_by (before_send a b) w w3)
    by (apply extends_emit; auto; calm).
  assert (Hn3 : next_fd w3 = b) by exact Hn2.
  clearbody w3.
  destruct (Int.add (download_size d1) p =? firmware_size d1); cbv beta.
  - match goal with |- context [if negb (?r =? 0) then _ else _] =>
      destruct (negb (r =? 0)) end; cbv beta.
    + match goal with |- context [fragment_request cfg true ?k ?dd ?ww] =>
        pose proof (fragment_request_one cfg true k a b w dd ww) as Hf;
        destruct (fragment_request cfg true k dd ww) as [[r3 d3] w4] end.
      apply Hf; auto. apply extends_emit; auto. calm.
    + match goal with |- context [rxdata_flush cfg ?dd ?ww] =>
        destruct (rxdata_flush_own cfg dd ww b) as (buf & w4 & E & H4 & _);
        rewrite E end.
      fields. rewrite Hfd1 in H4.
      apply one_request_quiet. eapply extends_trans; [ | exact H4 ].
      apply extends_emit; auto. calm.
  - match goal with |- context [fragment_request cfg true ?k ?dd ?ww] =>
      pose proof (fragment_request_one cfg true k a b w dd ww) as Hf;
      destruct (fragment_request cfg true k dd ww) as [[r3 d3] w4] end.
    apply Hf; auto.
Qed.

Lemma api_call_one cfg o d w :
  one_request cfg (fd d) (next_fd w) w (api_call cfg o (d, w)).1
    (api_call cfg o (d, w)).2.
Proof.
  destruct o; unfold api_call, exec; fields.
  - unfold dfu_client_init. go.
    destruct (_ || _); apply one_request_quiet, extends_refl.
  - unfold dfu_client_connect. go.
    destruct (_ || _); [ apply one_request_quiet, extends_refl | ].
    destruct (_ && _); [ apply one_request_quiet, extends_refl | ].
    destruct (httpc_connect_own (host d) None AF_INET IPPROTO_TCP w (fd d)) as [H _].
    destruct (httpc_connect (host d) None AF_INET IPPROTO_TCP w) as [sock w1].
    fields. destruct (sock <? 0); now apply one_request_quiet.
  - unfold dfu_client_download. go.
    destruct (_ || _); [ apply one_request_quiet, extends_refl | ].
    match goal with |- context [fragment_request cfg false false ?dd ?ww] =>
      pose proof (fragment_request_one cfg false false (fd d) (next_fd w) w dd ww) as Hf;
      destruct (fragment_request cfg false false dd ww) as [[r3 d3] w4] end.
    apply Hf; auto. apply extends_refl.
  - pose proof (dfu_client_process_one cfg d w) as H.
    destruct (dfu_client_process cfg d w) as [[[] d1] w1]. exact H.
  - unfold dfu_client_disconnect. go.
    destruct (fd d <? 0); go; apply one_request_quiet;
      [ apply extends_refl | apply sys_close_log; calm ].
Qed.

(** X18.  A call of the API sends at most one request, as the last thing
    it does: whatever the operation, the object and the world, either
    nothing is sent, or everything before the [send] is something else, the
    [send] is on the descriptor the object holds on return, carries the
    request for the fragment at the [download_size] it holds on return, and
    the session is then in progress. *)
Theorem one_request_per_call cfg o d w :
  let '(d', w') := api_call cfg o (d, w) in
  extends_by not_send w w'
  \/ exists w1 len r,
       extends_by not_send w w1
       /\ w' = emit (Send (fd d') (request_bytes cfg d') len r) w1
       /\ status d' = DFU_CLIENT_STATUS_DOWNLOAD_INPROGRESS.
Proof.
  pose proof (api_call_one cfg o d w) as H.
  destruct (api_call cfg o (d, w)) as [d' w']. fields.
  destruct H as (w1 & H1 & [-> | (len & r & -> & Hst & _)]).
  - left. eapply extends_weaken; [ | exact H1 ]. now intros e [He _].
  - right. exists w1, len, r. repeat split; auto.
    eapply extends_weaken; [ | exact H1 ]. now intros e [He _].
Qed.

(** X19.  The engine keeps to its own descriptors: every [connect],
    [close], [send] and [recv] of a call of the API is on the descriptor the
    object held when the call began, or on the one [socket()] handed out
    during the call.  No call touches another socket of the process. *)
Theorem engine_keeps_to_its_descriptors cfg o d w :
  extends_by (own (fd d) (next_fd w)) w (api_call cfg o (d, w)).2.
Proof.
  pose proof (api_call_one cfg o d w) as H.
  destruct (api_call cfg o (d, w)) as [d' w']. fields.
  destruct H as (w1 & H1 & [-> | (len & r & -> & Hst & Hfd)]).
  - eapply extends_weaken; [ | exact H1 ]. now intros e [_ He].
  - apply extends_emit.
    + eapply extends_weaken; [ | exact H1 ]. now intros e [_ He].
    + unfold own. simpl. exact Hfd.
Qed.


(** ** The object through a session *)

Lemma kept_refl cfg d : kept cfg d d.
Proof. unfold kept. auto. Qed.

Lemma kept_trans cfg d1 d2 d3 : kept cfg d1 d2 -> kept cfg d2 d3 -> kept cfg d1 d3.
Proof.
  intros (H1 & H2 & H3 & H4) (G1 & G2 & G3 & G4). unfold kept.
  split; [ congruence | ]. split; [ congruence | ]. split; [ congruence | auto ].
Qed.

Lemma length_zeroed n : length (zeroed n) = Z.to_nat n.
Proof. unfold zeroed. apply repeat_length. Qed.

Lemma length_store data buf :
  (length data <= length buf)%nat -> length (store data buf) = length buf.
Proof. intros H. unfold store. rewrite length_app, length_drop. lia. Qed.

Lemma sys_recv_data sock size peek w :
  (length (sys_recv sock size peek w).1.2 <= Z.to_nat size)%nat.
Proof.
  unfold sys_recv. destruct (sockets w !! sock) as [s|]; simpl; [ | lia ].
  destruct (rx s) eqn:E; simpl.
  - destruct (rx_error s); simpl; [ lia | ]. destruct (rx_closed s); simpl; lia.
  - rewrite <- E. rewrite length_take. lia.
Qed.

Lemma kept_resp_buf cfg d buf :
  length buf = Z.to_nat (CONFIG_NRF_DFU_HTTP_MAX_RESPONSE_SIZE cfg) ->
  kept cfg d (set_resp_buf buf d).
Proof. intros H. unfold kept, buffers_fit. fields. intuition. Qed.

Lemma kept_req_buf cfg d buf :
  length buf = Z.to_nat (CONFIG_NRF_DFU_HTTP_MAX_REQUEST_SIZE cfg) ->
  kept cfg d (set_req_buf buf d).
Proof. intros H. unfold kept, buffers_fit. fields. intuition. Qed.

Lemma kept_fields cfg d d' :
  host d' = host d -> resource d' = resource d -> callback d' = callback d ->
  resp_buf d' = resp_buf d -> req_buf d' = req_buf d ->
  kept cfg d d'.
Proof. intros H1 H2 H3 H4 H5. unfold kept, buffers_fit. rewrite H4, H5. auto. Qed.

Lemma rxdata_flush_kept cfg d w : kept cfg d (rxdata_flush cfg d w).1.2.
Proof.
  unfold rxdata_flush. run.
  destruct (is_null (host d) || (callback d =? NULL)
            || (status d =? DFU_CLIENT_STATUS_IDLE)); [ apply kept_refl | ].
  destruct (sys_recv (fd d) (CONFIG_NRF_DFU_HTTP_MAX_RESPONSE_SIZE cfg) false w)
    as [[n data] w1].
  simpl.
  assert (H : kept cfg d
                (set_resp_buf (zeroed (CONFIG_NRF_DFU_HTTP_MAX_RESPONSE_SIZE cfg)) d))
    by apply kept_resp_buf, length_zeroed.
  destruct (n =? -1); simpl; [ destruct (errno w1 =? EAGAIN); simpl | ];
    (eapply kept_trans; [ exact H | apply kept_fields; reflexivity ]).
Qed.

Lemma reconnect_kept cfg d w : kept cfg d (reconnect d w).1.2.
Proof.
  unfold reconnect. run.
  destruct (httpc_connect (host d) None AF_INET IPPROTO_TCP (sys_close (fd d) w))
    as [sock w1].
  destruct (sock <? 0); apply kept_fields; reflexivity.
Qed.

Lemma snprintf_length buf size formatted :
  length buf = Z.to_nat size ->
  length (snprintf buf size formatted).2 = Z.to_nat size.
Proof.
  intros H. unfold snprintf.
  destruct (Int.INT_MAX <? _); [ exact H | ].
  destruct (Z.ltb_spec 0 size); [ | exact H ]. cbn [snd].
  rewrite length_store; [ exact H | ].
  rewrite length_app, length_take, H. simpl. lia.
Qed.

Lemma send_request_kept cfg d w : kept cfg d (send_request cfg d w).1.2.
Proof.
  unfold send_request. run.
  match goal with |- context [snprintf ?b ?s ?f] =>
    pose proof (snprintf_length b s f (length_zeroed _)) as Hl;
    destruct (snprintf b s f) as [n buf] end.
  run. cbn [snd] in Hl.
  assert (H : kept cfg d (set_req_buf buf d)) by now apply kept_req_buf.
  destruct (0 <? n); run.
  - match goal with |- context [sys_send ?a ?b ?c ?w] =>
      destruct (sys_send a b c w) as [r w1] end.
    eapply kept_trans; [ exact H | apply kept_fields; reflexivity ].
  - eapply kept_trans; [ exact H | apply kept_fields; reflexivity ].
Qed.

Lemma fragment_request_kept cfg flush close d w :
  kept cfg d (fragment_request cfg flush close d w).1.2.
Proof.
  unfold fragment_request. unfold bind at 1. unfold get at 1.
  destruct (is_null (host d) || (callback d =? NULL) || is_null (resource d));
    [ apply kept_refl | ].
  unfold bind at 1.
  assert (H1 : kept cfg d ((if flush then rxdata_flush cfg else ret tt) d w).1.2).
  { destruct flush; [ apply rxdata_flush_kept | apply kept_refl ]. }
  destruct ((if flush then rxdata_flush cfg else ret tt) d w) as [[[] d1] w1].
  simpl in H1. unfold bind at 1.
  assert (H2 : kept cfg d1 ((if close then reconnect else ret true) d1 w1).1.2).
  { destruct close; [ apply reconnect_kept | apply kept_refl ]. }
  destruct ((if close then reconnect else ret true) d1 w1) as [[go_on d2] w2].
  simpl in H2. destruct go_on; [ | simpl; eapply kept_trans; eauto ].
  eapply kept_trans; [ eapply kept_trans; eauto | apply send_request_kept ].
Qed.

Lemma check_total_size_kept cfg total d w :
  kept cfg d (check_total_size total d w).1.2.
Proof.
  rewrite check_total_size_spec. destruct (size_mismatch _ _);
    apply kept_fields; reflexivity.
Qed.

Lemma fragment_taken_kept cfg p resume d w :
  kept cfg d (fragment_taken cfg p resume d w).1.2.
Proof.
  unfold fragment_taken. go.
  destruct (Int.add (download_size d) p =? firmware_size d); go.
  - match goal with |- context [negb (?r =? 0)] => destruct (negb (r =? 0)) end; go.
    + match goal with |- context [fragment_request cfg ?f ?k ?dd ?ww] =>
        pose proof (fragment_request_kept cfg f k dd ww) as H;
        destruct (fragment_request cfg f k dd ww) as [[r1 d1] w1] end.
      fields. eapply kept_trans; [ | exact H ]. apply kept_fields; reflexivity.
    + match goal with |- context [rxdata_flush cfg ?dd ?ww] =>
        pose proof (rxdata_flush_kept cfg dd ww) as H;
        destruct (rxdata_flush cfg dd ww) as [[r1 d1] w1] end.
      fields. eapply kept_trans; [ | exact H ]. apply kept_fields; reflexivity.
  - match goal with |- context [fragment_request cfg ?f ?k ?dd ?ww] =>
      pose proof (fragment_request_kept cfg f k dd ww) as H;
      destruct (fragment_request cfg f k dd ww) as [[r1 d1] w1] end.
    fields. eapply kept_trans; [ | exact H ]. apply kept_fields; reflexivity.
Qed.

Lemma process_response_kept cfg len d w :
  kept cfg d (process_response cfg len d w).1.2.
Proof.
  unfold process_response. go.
  destruct (total_size_of (resp_buf d)) as [total|]; [ | apply kept_refl ].
  destruct (payload_size_of (resp_buf d)) as [p|]; [ | apply kept_refl ].
  pose proof (check_total_size_kept cfg total d w) as H1.
  destruct (check_total_size total d w) as [[[] d1] w1]. fields.
  destruct (_ || _); [ | exact H1 ].
  destruct (p_payload_of (resp_buf d1)) as [pp|]; [ | exact H1 ].
  destruct (negb _); [ exact H1 | ].
  match goal with |- context [if ?r =? 0 then _ else _] => destruct (r =? 0) end.
  - match goal with |- context [fragment_taken cfg ?q ?k ?dd ?ww] =>
      pose proof (fragment_taken_kept cfg q k dd ww) as H;
      destruct (fragment_taken cfg q k dd ww) as [[r2 d2] w2] end.
    fields. eapply kept_trans; [ exact H1 | ].
    eapply kept_trans; [ | exact H ]. apply kept_fields; reflexivity.
  - fields. eapply kept_trans; [ exact H1 | ]. apply kept_fields; reflexivity.
Qed.

Lemma dfu_client_process_kept cfg d w :
  kept cfg d (dfu_client_process cfg d w).1.2.
Proof.
  unfold dfu_client_process. go.
  destruct ((fd d <? 0) || negb (status d =? DFU_CLIENT_STATUS_DOWNLOAD_INPROGRESS));
    [ apply kept_refl | ].
  unfold recv_resp_buf. go.
  pose proof (sys_recv_data (fd d) (CONFIG_NRF_DFU_HTTP_MAX_RESPONSE_SIZE cfg) true w)
    as Hd.
  destruct (sys_recv (fd d) (CONFIG_NRF_DFU_HTTP_MAX_RESPONSE_SIZE cfg) true w)
    as [[n data] w1].
  fields.
  assert (H0 : kept cfg d
                 (set_resp_buf
                    (store data (zeroed (CONFIG_NRF_DFU_HTTP_MAX_RESPONSE_SIZE cfg))) d)).
  { apply kept_resp_buf. rewrite length_store; rewrite length_zeroed; auto. }
  assert (E : set_resp_buf
                (store data (zeroed (CONFIG_NRF_DFU_HTTP_MAX_RESPONSE_SIZE cfg)))
                (set_resp_buf (zeroed (CONFIG_NRF_DFU_HTTP_MAX_RESPONSE_SIZE cfg)) d)
              = set_resp_buf
                  (store data (zeroed (CONFIG_NRF_DFU_HTTP_MAX_RESPONSE_SIZE cfg))) d)
    by reflexivity.
  rewrite E. clear E.
  destruct (n =? -1).
  { destruct (negb (errno w1 =? EAGAIN)); go;
      (eapply kept_trans; [ exact H0 | apply kept_fields; reflexivity ]). }
  destruct (n =? 0).
  { go. eapply kept_trans; [ exact H0 | apply kept_fields; reflexivity ]. }
  eapply kept_trans; [ exact H0 | apply process_response_kept ].
Qed.

Lemma api_call_kept cfg o d w : kept cfg d (api_call cfg o (d, w)).1.
Proof.
  destruct o; unfold api_call, exec; fields.
  - unfold dfu_client_init. go.
    destruct (_ || _); go; apply kept_fields; reflexivity.
  - unfold dfu_client_connect. go.
    destruct (_ || _); go; [ apply kept_refl | ].
    destruct (_ && _); go; [ apply kept_refl | ].
    destruct (httpc_connect _ _ _ _ _) as [sock w1].
    destruct (sock <? 0); go; apply kept_fields; reflexivity.
  - unfold dfu_client_download. go.
    destruct (_ || _); go; [ apply kept_refl | ].
    match goal with |- context [fragment_request cfg ?f ?k ?dd ?ww] =>
      pose proof (fragment_request_kept cfg f k dd ww) as H;
      destruct (fragment_request cfg f k dd ww) as [[r1 d1] w1] end.
    fields. eapply kept_trans; [ | exact H ]. apply kept_fields; reflexivity.
  - pose proof (dfu_client_process_kept cfg d w) as H.
    destruct (dfu_client_process cfg d w) as [[r1 d1] w1]. exact H.
  - unfold dfu_client_disconnect. go.
    destruct (fd d <? 0); go; apply kept_fields; reflexivity.
Qed.

(** X20.  Neither buffer of the object is ever written beyond its declared
    size.  In the model a write longer than the buffer would lengthen it;
    through any session (any sequence of [init], [connect], [download],
    [process] and [disconnect], the world moving on in any way before each
    call, whatever the server sends) the response buffer keeps its
    [CONFIG_NRF_DFU_HTTP_MAX_RESPONSE_SIZE] bytes and the request buffer its
    [CONFIG_NRF_DFU_HTTP_MAX_REQUEST_SIZE] bytes. *)
Theorem buffers_are_never_overrun cfg steps s :
  buffers_fit cfg s.1 -> buffers_fit cfg (session_run cfg steps s).1.
Proof.
  revert s. induction steps as [|[env o] rest IH]; intros [d w] H; simpl in *; auto.
  apply IH. now apply (api_call_kept cfg o d (env w)).
Qed.

Lemma buffers_are_never_overrun_witness :
  buffers_fit Bench.cfg (Bench.fresh, Bench.boot Bench.takes_all).1
  /\ buffers_fit Bench.cfg
       (session_run Bench.cfg whole_download
          (Bench.fresh, Bench.boot Bench.takes_all)).1.
Proof.
  assert (H : buffers_fit Bench.cfg (Bench.fresh, Bench.boot Bench.takes_all).1)
    by (vm_compute; split; reflexivity).
  split; [ exact H | ].
  apply (buffers_are_never_overrun Bench.cfg whole_download
           (Bench.fresh, Bench.boot Bench.takes_all) H).
Defined.

(** X21.  The engine never writes what the caller filled in: through any
    session, [host], [resource] and [callback] of the object are what they
    were at the start. *)
Theorem session_keeps_what_the_caller_set cfg steps s :
  host (session_run cfg steps s).1 = host s.1
  /\ resource (session_run cfg steps s).1 = resource s.1
  /\ callback (session_run cfg steps s).1 = callback s.1.
Proof.
  revert s. induction steps as [|[env o] rest IH]; intros [d w]; simpl in *; auto.
  destruct (api_call_kept cfg o d (env w)) as (H1 & H2 & H3 & _).
  destruct (IH (api_call cfg o (d, env w))) as (G1 & G2 & G3).
  repeat split; congruence.
Qed.


(** ** The packet data network helper *)

Lemma take_strlen s : take (Z.to_nat (strlen s)) s = c_str s.
Proof.
  unfold strlen. rewrite Nat2Z.id.
  induction s as [|c s IH]; [ reflexivity | ].
  cbn [c_str]. destruct (Ascii.eqb c NUL); [ reflexivity | ].
  cbn [length take]. now rewrite IH.
Qed.

Lemma closes_of_nothing_app l1 l2 :
  closes_of_nothing (l1 ++ l2) = closes_of_nothing l1 ++ closes_of_nothing l2.
Proof.
  induction l1 as [|e l1 IH]; [ reflexivity | ].
  destruct e as [f t p r|sock a n r|sock r]; cbn [closes_of_nothing app];
    rewrite IH; try reflexivity.
  destruct (r =? 0); reflexivity.
Qed.

(** X22.  When the network refuses the access point, [pdn_init_and_connect]
    closes the descriptor it opened and returns it all the same: the caller
    gets a descriptor that is not negative, as after a success, and that is
    no longer open.  A [pdn_disconnect] on it, as after a success, closes a
    descriptor that is not there. *)
Theorem pdn_descriptor_is_returned_closed h apn_name m :
  0 <= pdn_next_fd m ->
  pdn_sockets m !! pdn_next_fd m = None ->
  apn_accepted m (c_str apn_name) = false ->
  let '(pdn_fd, m') := pdn_init_and_connect h apn_name m in
  pdn_fd = pdn_next_fd m
  /\ 0 <= pdn_fd
  /\ pdn_sockets m' !! pdn_fd = None
  /\ pdn_sockets m' = pdn_sockets m
  /\ nrf_log m'
     = nrf_log m
       ++ [Nrf_socket (NRF_AF_LTE h) (NRF_SOCK_MGMT h) (NRF_PROTO_PDN h) pdn_fd;
           Nrf_connect pdn_fd apn_name (strlen apn_name) (-1);
           Nrf_close pdn_fd 0]
  /\ closes_of_nothing (nrf_log (pdn_disconnect pdn_fd m'))
     = closes_of_nothing (nrf_log m) ++ [pdn_fd].
Proof.
  intros Hn Hfresh Hno. unfold pdn_init_and_connect, nrf_socket.
  destruct (Z.ltb_spec (pdn_next_fd m) 0); [ lia | ].
  destruct (Z.leb_spec 0 (pdn_next_fd m)); [ | lia ].
  unfold nrf_connect. cbn [pdn_sockets pdn_next_fd apn_accepted nrf_log].
  rewrite lookup_insert_eq, take_strlen, Hno. cbn [Z.eqb negb].
  unfold pdn_disconnect, nrf_close.
  cbn [pdn_sockets pdn_next_fd apn_accepted nrf_log snd].
  rewrite lookup_insert_eq, delete_insert_id by exact Hfresh. rewrite Hfresh.
  split; [ reflexivity | ]. split; [ exact Hn | ]. split; [ reflexivity | ].
  split; [ reflexivity | ]. split; [ rewrite <- !app_assoc; reflexivity | ].
  rewrite !closes_of_nothing_app. cbn [closes_of_nothing Z.eqb app].
  rewrite !app_nil_r. reflexivity.
Qed.

Lemma pdn_descriptor_is_returned_closed_witness :
  0 <= pdn_next_fd Lab.modem0
  /\ pdn_sockets Lab.modem0 !! pdn_next_fd Lab.modem0 = None
  /\ apn_accepted Lab.modem0 (c_str (lit "internet")) = false
  /\ let '(pdn_fd, m') := pdn_init_and_connect Lab.nrf (lit "internet") Lab.modem0 in
     pdn_fd = pdn_next_fd Lab.modem0
     /\ 0 <= pdn_fd
     /\ pdn_sockets m' !! pdn_fd = None
     /\ pdn_sockets m' = pdn_sockets Lab.modem0
     /\ nrf_log m'
        = nrf_log Lab.modem0
          ++ [Nrf_socket (NRF_AF_LTE Lab.nrf) (NRF_SOCK_MGMT Lab.nrf)
                (NRF_PROTO_PDN Lab.nrf) pdn_fd;
              Nrf_connect pdn_fd (lit "internet") (strlen (lit "internet")) (-1);
              Nrf_close pdn_fd 0]
     /\ closes_of_nothing (nrf_log (pdn_disconnect pdn_fd m'))
        = closes_of_nothing (nrf_log Lab.modem0) ++ [pdn_fd].
Proof.
  do 3 (split; [ evaluate | ]).
  apply (pdn_descriptor_is_returned_closed Lab.nrf (lit "internet") Lab.modem0);
    evaluate.
Defined.

(** The refused access point of the example: descriptor 0 comes back, and
    the modem has nothing open. *)
Example refused_access_point :
  (pdn_init_and_connect Lab.nrf (lit "internet") Lab.modem0).1 = 0
  /\ pdn_sockets (pdn_init_and_connect Lab.nrf (lit "internet") Lab.modem0).2
     = pdn_sockets Lab.modem0.
Proof. vm_compute. split; reflexivity. Qed.

(** X23.  When the network accepts the access point, the descriptor
    returned is open and connected to the name up to its first NUL, after
    one [nrf_socket] and one [nrf_connect] with the length [strlen] gives;
    [pdn_disconnect] on it closes it, which leaves the modem's descriptors
    as they were before the connection. *)
Theorem pdn_connect_then_disconnect h apn_name m :
  0 <= pdn_next_fd m ->
  pdn_sockets m !! pdn_next_fd m = None ->
  apn_accepted m (c_str apn_name) = true ->
  let '(pdn_fd, m') := pdn_init_and_connect h apn_name m in
  pdn_fd = pdn_next_fd m
  /\ pdn_sockets m' = <[pdn_fd := Some (c_str apn_name)]> (pdn_sockets m)
  /\ nrf_log m'
     = nrf_log m
       ++ [Nrf_socket (NRF_AF_LTE h) (NRF_SOCK_MGMT h) (NRF_PROTO_PDN h) pdn_fd;
           Nrf_connect pdn_fd apn_name (strlen apn_name) 0]
  /\ pdn_sockets (pdn_disconnect pdn_fd m') = pdn_sockets m
  /\ nrf_log (pdn_disconnect pdn_fd m') = nrf_log m' ++ [Nrf_close pdn_fd 0].
Proof.
  intros Hn Hfresh Hyes. unfold pdn_init_and_connect, nrf_socket.
  destruct (Z.ltb_spec (pdn_next_fd m) 0); [ lia | ].
  destruct (Z.leb_spec 0 (pdn_next_fd m)); [ | lia ].
  unfold nrf_connect. cbn [pdn_sockets pdn_next_fd apn_accepted nrf_log].
  rewrite lookup_insert_eq, take_strlen, Hyes. cbn [Z.eqb negb].
  unfold pdn_disconnect, nrf_close.
  cbn [pdn_sockets pdn_next_fd apn_accepted nrf_log snd].
  rewrite lookup_insert_eq, insert_insert_eq, delete_insert_id by exact Hfresh.
  split; [ reflexivity | ]. split; [ reflexivity | ].
  split; [ rewrite <- !app_assoc; reflexivity | ]. split; reflexivity.
Qed.

Lemma pdn_connect_then_disconnect_witness :
  0 <= pdn_next_fd Lab.modem0
  /\ pdn_sockets Lab.modem0 !! pdn_next_fd Lab.modem0 = None
  /\ apn_accepted Lab.modem0 (c_str (lit "iot.example")) = true
  /\ let '(pdn_fd, m') :=
       pdn_init_and_connect Lab.nrf (lit "iot.example") Lab.modem0 in
     pdn_fd = pdn_next_fd Lab.modem0
     /\ pdn_sockets m'
        = <[pdn_fd := Some (c_str (lit "iot.example"))]> (pdn_sockets Lab.modem0)
     /\ nrf_log m'
        = nrf_log Lab.modem0
          ++ [Nrf_socket (NRF_AF_LTE Lab.nrf) (NRF_SOCK_MGMT Lab.nrf)
                (NRF_PROTO_PDN Lab.nrf) pdn_fd;
              Nrf_connect pdn_fd (lit "iot.example") (strlen (lit "iot.example")) 0]
     /\ pdn_sockets (pdn_disconnect pdn_fd m') = pdn_sockets Lab.modem0
     /\ nrf_log (pdn_disconnect pdn_fd m') = nrf_log m' ++ [Nrf_close pdn_fd 0].
Proof.
  do 3 (split; [ evaluate | ]).
  apply (pdn_connect_then_disconnect Lab.nrf (lit "iot.example") Lab.modem0);
    evaluate.
Defined.
